(** * The UTXO record container and codec of bcoin, [lib/coins/coins.js]

    A shallow embedding of [Coins] and [CoinEntry] and the proofs of the
    properties stated about them.  JavaScript numbers are integers of [Z]
    (the 32-bit conversions of the bit operators are written out), arrays
    are lists of optional entries ([None] is [null]), buffers are lists of
    bytes, and an exception is the [Err] branch of a result type.

    A [CoinEntry] is owned by the one slot that holds it (the container is
    built by [fromTX], [fromRaw], [addOutput] and [addCoin], each of which
    allocates a fresh entry per slot), so an entry is a value of its slot. *)

From Stdlib Require Import ZArith Lia.
From Stdlib.Strings Require Import Byte.
From stdpp Require Import base list strings.

Local Open Scope Z_scope.

(** ** Exceptions *)

Inductive error : Type :=
  | AssertionError (message : option string)
  | TypeError
  | DecodeError.

Inductive result (A : Type) : Type :=
  | Ok (a : A)
  | Err (e : error).

Arguments Ok {A} a.
Arguments Err {A} e.

#[global] Instance result_ret : MRet result := fun A a => Ok a.
#[global] Instance result_bind : MBind result := fun A B k r =>
  match r with
  | Ok a => k a
  | Err e => Err e
  end.

#[global] Instance result_fmap : FMap result := fun A B f r =>
  match r with
  | Ok a => Ok (f a)
  | Err e => Err e
  end.

(** [assert(cond, message)] and [assert(cond)] of node's assert module. *)
Definition assert (cond : bool) (message : option string) : result unit :=
  if cond then Ok tt else Err (AssertionError message).

(** ** Numbers and bytes *)

(** ToInt32 of ECMAScript, applied by [|] and [&] to their operands. *)
Definition ToInt32 (z : Z) : Z := (z + 2 ^ 31) mod 2 ^ 32 - 2 ^ 31.

Abbreviation Buffer := (list byte).

#[global] Instance byte_eq_dec : EqDecision byte := Byte.byte_eq_dec.

Definition byte_to_Z (b : byte) : Z := Z.of_N (Byte.to_N b).

(** Storing a number in a buffer keeps its low eight bits. *)
Definition byte_of_Z (z : Z) : byte :=
  match Byte.of_N (Z.to_N (z mod 256)) with
  | Some b => b
  | None => x00
  end.

(** [data[i]] as an operand of [&]: an index past the end reads [undefined],
    which the operator converts to 0. *)
Definition byte_at (data : Buffer) (i : nat) : Z :=
  match data !! i with
  | Some b => byte_to_Z b
  | None => 0
  end.

(** [arr[index]] for an integer index: [undefined] outside the array. *)
Definition js_index {A : Type} (arr : list A) (index : Z) : option A :=
  if index <? 0 then None else arr !! Z.to_nat index.

(** [buf.slice(start, start + n)], the bytes a copy moves. *)
Definition slice (data : Buffer) (start n : nat) : Buffer :=
  take n (drop start data).

(** ** Primitives consumed by the container *)

(** An output: a monetary value and a script (its raw bytes). *)
Record Output : Type := mkOutput {
  value : Z;
  script : list byte
}.

(** A coin: an output with the metadata of its transaction. *)
Record Coin : Type := mkCoin {
  coin_version : Z;
  coin_height : Z;
  coin_value : Z;
  coin_script : list byte;
  coin_coinbase : bool;
  coin_hash : string;
  coin_index : Z
}.

(** A transaction as [fromTX] reads it: [tx.version], [tx.hash('hex')],
    [tx.isCoinbase()] and [tx.outputs]. *)
Record TX : Type := mkTX {
  tx_version : Z;
  tx_hash : string;
  tx_isCoinbase : bool;
  tx_outputs : list Output
}.

Definition NULL_HASH : string :=
  "0000000000000000000000000000000000000000000000000000000000000000".

(** [new Coin()]: the defaults of the coin primitive. *)
Definition new_Coin : Coin :=
  mkCoin 1 (-1) 0 [] true NULL_HASH 0.

(** ** The collaborators that are not part of this file

    [coins.js] calls the varint routines of [utils/encoding] (through the
    reader and the writer), the output compressor of [./compress] and
    [script.isUnspendable()].  They are taken as an interface; what the
    container relies on is stated in [CodecLaws] below. *)

Class Codec : Type := {
  (** the bytes [bw.writeVarint(n)] appends *)
  varint_bytes : Z -> list byte;
  (** [encoding.sizeVarint(n)] *)
  sizeVarint : Z -> Z;
  (** [br.readVarint()] at an offset of a buffer: the number read and the
      count of bytes consumed *)
  varint_read : Buffer -> nat -> result (Z * nat);
  (** the bytes [compress.output(output, bw)] appends *)
  compress_bytes : Output -> list byte;
  (** [compress.size(output)] *)
  compress_size : Output -> Z;
  (** [decompress.output(output, br)] at an offset of a buffer *)
  decompress_at : Buffer -> nat -> result Output;
  (** [decompress.skip(br)] at an offset of a buffer: the count of bytes
      skipped *)
  skip_at : Buffer -> nat -> result nat;
  (** [script.isUnspendable()] *)
  isUnspendable : list byte -> bool
}.

(** ** Values of an options object

    [fromOptions] reads fields that can hold any value and tests them
    itself ([!= null], truthiness, [typeof], [Array.isArray]). *)

Inductive js_value (A : Type) : Type :=
  | JsUndefined
  | JsNull
  | JsBoolean (b : bool)
  | JsNumber (n : Z)
  | JsString (s : string)
  | JsArray (items : list A)
  | JsObject.

Arguments JsUndefined {A}.
Arguments JsNull {A}.
Arguments JsBoolean {A} b.
Arguments JsNumber {A} n.
Arguments JsString {A} s.
Arguments JsArray {A} items.
Arguments JsObject {A}.

(** [value == null] *)
Definition nullish {A : Type} (value : js_value A) : bool :=
  match value with
  | JsUndefined | JsNull => true
  | _ => false
  end.

(** The truth of a value under [if (value)]: a number but 0, a string but
    the empty one, every array and every other object. *)
Definition truthy {A : Type} (value : js_value A) : bool :=
  match value with
  | JsUndefined | JsNull => false
  | JsBoolean b => b
  | JsNumber n => negb (n =? 0)
  | JsString s => negb (bool_decide (s = EmptyString))
  | JsArray _ | JsObject => true
  end.

(** The number a value is, as [this.version = options.version] stores it
    behind the test of the version; values that are no numbers do not
    pass the tests ([UtilLaws] below). *)
Definition js_number {A : Type} (value : js_value A) : Z :=
  match value with
  | JsNumber n => n
  | _ => 0
  end.

(** [fromOptions] tests a version with [util.isUInt32] and a height with
    [util.isNumber]; [utils/util] is not part of this file, and the two
    tests are taken as parameters. *)
Class Util : Type := {
  isUInt32 : forall A : Type, js_value A -> bool;
  isNumber : forall A : Type, js_value A -> bool
}.

Arguments isUInt32 {_ A} value.
Arguments isNumber {_ A} value.

(** What the constructor relies on: what passes the tests is a number. *)
Class UtilLaws (U : Util) : Prop := {
  isUInt32_number : forall (A : Type) (value : js_value A),
    isUInt32 value = true -> exists n, value = JsNumber n;
  isNumber_number : forall (A : Type) (value : js_value A),
    isNumber value = true -> exists n, value = JsNumber n
}.

(** The tests as their names read, for the examples: a number of 32 bits
    without sign, and a number. *)
Definition reference_util : Util :=
  Build_Util
    (fun A value =>
       match value with
       | JsNumber n => (0 <=? n) && (n <? 2 ^ 32)
       | _ => false
       end)
    (fun A value =>
       match value with
       | JsNumber _ => true
       | _ => false
       end).

(** ** BufferReader *)

Module BufferReader.

Record t : Type := mk {
  data : Buffer;
  offset : nat
}.

(** [new BufferReader(data)] *)
Definition new (data : Buffer) : t := mk data 0.

(** Modelled from the spec: [utils/reader] is not among the sources; the
    spec lists [seek] among the cursor operations and makes a truncated
    buffer a decode error.  [seek(off)] moves the cursor by [off] and
    fails when that leaves the buffer. *)
Definition seek (br : t) (off : Z) : result t :=
  let target := Z.of_nat (offset br) + off in
  if (0 <=? target) && (target <=? Z.of_nat (length (data br)))
  then Ok (mk (data br) (Z.to_nat target))
  else Err DecodeError.

(** Modelled from the spec: [readU32] reads a 4-byte little-endian
    unsigned integer; a truncated buffer is a decode error. *)
Definition readU32 (br : t) : result (Z * t) :=
  match slice (data br) (offset br) 4 with
  | [b0; b1; b2; b3] =>
      Ok (byte_to_Z b0 + 2 ^ 8 * byte_to_Z b1 + 2 ^ 16 * byte_to_Z b2
          + 2 ^ 24 * byte_to_Z b3,
          mk (data br) (offset br + 4))
  | _ => Err DecodeError
  end.

Section WithCodec.
Context `{Codec}.

Definition readVarint (br : t) : result (Z * t) :=
  '(n, size) ← varint_read (data br) (offset br);
  Ok (n, mk (data br) (offset br + size)%nat).

(** [decompress.skip(br)] advances the reader past one compressed
    output and returns the number of bytes skipped. *)
Definition decompress_skip (br : t) : result (nat * t) :=
  size ← skip_at (data br) (offset br);
  Ok (size, mk (data br) (offset br + size)%nat).

(** [decompress.output(output, br)] on a fresh [new Output()]. *)
Definition decompress_output (br : t) : result Output :=
  decompress_at (data br) (offset br).

(** Modelled from the spec: [decompress.coin(coin, br)] is not among
    the sources; by the spec the fast path calls [decompress.output]
    and projects the output into the coin. *)
Definition decompress_coin (coin : Coin) (br : t) : result Coin :=
  o ← decompress_at (data br) (offset br);
  Ok (mkCoin (coin_version coin) (coin_height coin) (value o) (script o)
             (coin_coinbase coin) (coin_hash coin) (coin_index coin)).
End WithCodec.

End BufferReader.

(** ** StaticWriter *)

Module StaticWriter.

(** Modelled from the spec: [utils/staticwriter] is not among the
    sources (the spec names it only as the dual of the reader).  A static
    writer is allocated for [total] bytes, the size [getSize] computes,
    appends what is written and, on [render], hands the buffer out when
    exactly [total] bytes were written. *)
Record t : Type := mk {
  total : Z;
  written : list byte
}.

Definition new (total : Z) : t := mk total [].

Definition write (bw : t) (bytes : list byte) : t :=
  mk (total bw) (written bw ++ bytes).

Definition writeU8 (bw : t) (n : Z) : t := write bw [byte_of_Z n].

(** Modelled from the spec: a 4-byte little-endian unsigned integer. *)
Definition u32_bytes (n : Z) : list byte :=
  [byte_of_Z n; byte_of_Z (n / 2 ^ 8); byte_of_Z (n / 2 ^ 16);
   byte_of_Z (n / 2 ^ 24)].

Definition writeU32 (bw : t) (n : Z) : t := write bw (u32_bytes n).

Definition writeVarint `{Codec} (bw : t) (n : Z) : t :=
  write bw (varint_bytes n).

(** [bw.copy(buf, start, end)] *)
Definition copy (bw : t) (buf : Buffer) (start stop : nat) : t :=
  write bw (slice buf start (stop - start)).

Definition render (bw : t) : result Buffer :=
  _ ← assert (Z.of_nat (length (written bw)) =? total bw) None;
  Ok (written bw).

End StaticWriter.

(** ** CoinEntry *)

Module CoinEntry.

Record t : Type := mk {
  offset : nat;
  size : nat;
  raw : option Buffer;
  output : option Output;
  spent : bool
}.

(** [new CoinEntry()] *)
Definition new : t := mk 0 0 None None false.

Definition set_output (e : t) (o : Output) : t :=
  mk (offset e) (size e) (raw e) (Some o) (spent e).

(** [entry.spent = true] *)
Definition set_spent (e : t) : t :=
  mk (offset e) (size e) (raw e) (output e) true.

Definition reader (e : t) : result BufferReader.t :=
  match raw e with
  | Some data => Ok (BufferReader.mk data (offset e))
  | None => Err (AssertionError None)
  end.

(** [CoinEntry.fromOutput] *)
Definition fromOutput (o : Output) : t := mk 0 0 None (Some o) false.

(** [CoinEntry.fromCoin] *)
Definition fromCoin (coin : Coin) : t :=
  mk 0 0 None (Some (mkOutput (coin_value coin) (coin_script coin))) false.

Section WithCodec.
Context `{Codec}.

(** [toOutput] returns the output and caches it in the entry. *)
Definition toOutput (e : t) : result (Output * t) :=
  match output e with
  | Some o => Ok (o, e)
  | None =>
      br ← reader e;
      o ← BufferReader.decompress_output br;
      Ok (o, set_output e o)
  end.

Definition getSize (e : t) : result Z :=
  match raw e with
  | None =>
      match output e with
      | Some o => Ok (compress_size o)
      | None => Err TypeError
      end
  | Some _ => Ok (Z.of_nat (size e))
  end.

Definition toWriter (e : t) (bw : StaticWriter.t) : result StaticWriter.t :=
  match raw e with
  | None =>
      match output e with
      | Some o => Ok (StaticWriter.write bw (compress_bytes o))
      | None => Err (AssertionError None)
      end
  | Some data =>
      Ok (StaticWriter.copy bw data (offset e) (offset e + size e))
  end.

(** [CoinEntry.fromReader] *)
Definition fromReader (br : BufferReader.t) : result (t * BufferReader.t) :=
  '(sz, br') ← BufferReader.decompress_skip br;
  Ok (mk (BufferReader.offset br) sz (Some (BufferReader.data br')) None false,
      br').
End WithCodec.

End CoinEntry.

(** ** Coins *)

Module Coins.

Record t : Type := mk {
  version : Z;
  hash : string;
  height : Z;
  coinbase : bool;
  outputs : list (option CoinEntry.t)
}.

(** [new Coins()] *)
Definition new : t := mk 1 NULL_HASH (-1) true [].

Definition set_outputs (c : t) (outs : list (option CoinEntry.t)) : t :=
  mk (version c) (hash c) (height c) (coinbase c) outs.

(** The loop of [cleanup]: the length left after dropping trailing gaps. *)
Fixpoint cleanup_len (outs : list (option CoinEntry.t)) (len : nat) : nat :=
  match len with
  | O => O
  | S len' =>
      match outs !! len' with
      | Some (Some _) => len
      | _ => cleanup_len outs len'
      end
  end.

Definition cleanup (c : t) : t :=
  set_outputs c (take (cleanup_len (outputs c) (length (outputs c))) (outputs c)).

(** [add]: the [while] loop pushes [null] until [index] is a slot. *)
Definition add (c : t) (index : Z) (entry : CoinEntry.t) : result t :=
  _ ← assert (0 <=? index) None;
  let outs :=
    outputs c ++ replicate (Z.to_nat index + 1 - length (outputs c)) None in
  _ ← assert (negb (bool_decide (is_Some (mjoin (js_index outs index))))) None;
  Ok (set_outputs c (<[Z.to_nat index := Some entry]> outs)).

Definition has (c : t) (index : Z) : bool :=
  if Z.of_nat (length (outputs c)) <=? index then false
  else bool_decide (is_Some (mjoin (js_index (outputs c) index))).

Definition isUnspent (c : t) (index : Z) : bool :=
  if Z.of_nat (length (outputs c)) <=? index then false
  else
    match mjoin (js_index (outputs c) index) with
    | Some output => negb (CoinEntry.spent output)
    | None => false
    end.

Definition get (c : t) (index : Z) : option CoinEntry.t :=
  if Z.of_nat (length (outputs c)) <=? index then None
  else mjoin (js_index (outputs c) index).

(** [spend] returns the entry it marked, or [None] ([undefined]) when
    there is nothing to spend. *)
Definition spend (c : t) (index : Z) : option CoinEntry.t * t :=
  match get c index with
  | None => (None, c)
  | Some entry =>
      if CoinEntry.spent entry then (None, c)
      else
        let entry' := CoinEntry.set_spent entry in
        (Some entry',
         set_outputs c (<[Z.to_nat index := Some entry']> (outputs c)))
  end.

(** [remove] returns the entry it removed, or [None] ([false]). *)
Definition remove (c : t) (index : Z) : option CoinEntry.t * t :=
  match get c index with
  | None => (None, c)
  | Some entry =>
      (Some entry,
       cleanup (set_outputs c (<[Z.to_nat index := None]> (outputs c))))
  end.

(** The loop of [length]. *)
Fixpoint length_from (c : t) (len : nat) : nat :=
  match len with
  | O => O
  | S len' =>
      if isUnspent c (Z.of_nat len') then len else length_from c len'
  end.

(** [Coins.prototype.length] *)
Definition length (c : t) : nat :=
  length_from c (List.length (outputs c)).

Definition isEmpty (c : t) : bool := bool_decide (length c = 0%nat).

(** [header(len, size)] *)
Definition header (c : t) (len size : Z) : result Z :=
  let first := isUnspent c 0 in
  let second := isUnspent c 1 in
  _ ← assert (negb (len =? 0)) (Some "Cannot serialize fully-spent coins.");
  offset ← (if negb first && negb second
            then _ ← assert (negb (size =? 0)) None; Ok 1
            else Ok 0);
  let code := 8 * (size - offset) in
  let code := if coinbase c then code + 1 else code in
  let code := if first then code + 2 else code in
  let code := if second then code + 4 else code in
  Ok code.

(** The options object of the constructor: each field holds any value,
    [JsUndefined] when it is absent; an array holds entries and [null]s. *)
Record Options : Type := mkOptions {
  opt_version : js_value (option CoinEntry.t);
  opt_hash : js_value (option CoinEntry.t);
  opt_height : js_value (option CoinEntry.t);
  opt_coinbase : js_value (option CoinEntry.t);
  opt_outputs : js_value (option CoinEntry.t)
}.

(** [Coins.prototype.fromOptions(options)].  An assertion that fails
    leaves the function by an exception.  [assert(typeof value ===
    'string')] and the assignment behind it are the [JsString] branch of a
    match, and so for [typeof value === 'boolean'] and [Array.isArray]. *)
Definition fromOptions `{Util} (c : t) (options : Options) : result t :=
  c ← (if nullish (opt_version options) then Ok c
       else
         _ ← assert (isUInt32 (opt_version options)) None;
         Ok (mk (js_number (opt_version options)) (hash c) (height c)
               (coinbase c) (outputs c)));
  c ← (if truthy (opt_hash options) then
         match opt_hash options with
         | JsString h => Ok (mk (version c) h (height c) (coinbase c) (outputs c))
         | _ => Err (AssertionError None)
         end
       else Ok c);
  c ← (if nullish (opt_height options) then Ok c
       else
         _ ← assert (isNumber (opt_height options)) None;
         Ok (mk (version c) (hash c) (js_number (opt_height options))
               (coinbase c) (outputs c)));
  c ← (if nullish (opt_coinbase options) then Ok c
       else
         match opt_coinbase options with
         | JsBoolean b => Ok (mk (version c) (hash c) (height c) b (outputs c))
         | _ => Err (AssertionError None)
         end);
  if truthy (opt_outputs options) then
    match opt_outputs options with
    | JsArray outs => Ok (cleanup (set_outputs c outs))
    | _ => Err (AssertionError None)
    end
  else Ok c.

(** [Coins.fromOptions(options)] *)
Definition static_fromOptions `{Util} (options : Options) : result t :=
  fromOptions new options.

(** [new Coins(options)]: the defaults, then [fromOptions] when an
    options object is given. *)
Definition create `{Util} (options : option Options) : result t :=
  match options with
  | Some options => fromOptions new options
  | None => Ok new
  end.

(** The statements under [// Recalculate size.], the same in [fromRaw]
    and in [parseCoin]: [size = code / 8 | 0; if ((code & 6) === 0)
    size += 1]. *)
Definition recalc_size (code : Z) : Z :=
  let size := ToInt32 (code ÷ 8) in
  if Z.land (ToInt32 code) 6 =? 0 then size + 1 else size.

(** [(code & mask) !== 0] *)
Definition code_bit (code mask : Z) : bool :=
  negb (Z.land (ToInt32 code) mask =? 0).

Section WithCodec.
Context `{Codec}.

(** [addOutput] *)
Definition addOutput (c : t) (index : Z) (output : Output) : result t :=
  _ ← assert (negb (isUnspendable (script output))) None;
  add c index (CoinEntry.fromOutput output).

(** [addCoin] *)
Definition addCoin (c : t) (coin : Coin) : result t :=
  _ ← assert (negb (isUnspendable (coin_script coin))) None;
  add c (coin_index coin) (CoinEntry.fromCoin coin).

(** [CoinEntry.prototype.toCoin(coins, index)]; it reads the parent
    record, so it is declared with it. *)
Definition toCoin (e : CoinEntry.t) (coins : t) (index : Z)
  : result (Coin * CoinEntry.t) :=
  '(output, e') ← CoinEntry.toOutput e;
  Ok (mkCoin (version coins) (height coins) (value output) (script output)
             (coinbase coins) (hash coins) index, e').

(** [getOutput]: [None] is [undefined]; the entry caches its output. *)
Definition getOutput (c : t) (index : Z) : result (option Output * t) :=
  match get c index with
  | None => Ok (None, c)
  | Some entry =>
      '(output, e') ← CoinEntry.toOutput entry;
      Ok (Some output,
          set_outputs c (<[Z.to_nat index := Some e']> (outputs c)))
  end.

(** [getCoin] *)
Definition getCoin (c : t) (index : Z) : result (option Coin * t) :=
  match get c index with
  | None => Ok (None, c)
  | Some entry =>
      '(coin, e') ← toCoin entry c index;
      Ok (Some coin,
          set_outputs c (<[Z.to_nat index := Some e']> (outputs c)))
  end.

(** The loop over the first [len] slots in [getSize]. *)
Fixpoint size_outputs (outs : list (option CoinEntry.t)) (total : Z)
  : result Z :=
  match outs with
  | [] => Ok total
  | Some output :: rest =>
      if CoinEntry.spent output then size_outputs rest total
      else
        n ← CoinEntry.getSize output;
        size_outputs rest (total + n)
  | None :: rest => size_outputs rest total
  end.

(** [getSize(len, size, code)] *)
Definition getSize (c : t) (len : nat) (size code : Z) : result Z :=
  let total := 0 in
  let total := total + sizeVarint (version c) in
  let total := total + 4 in
  let total := total + sizeVarint code in
  let total := total + size in
  size_outputs (take len (outputs c)) total.

(** The inner loop of the spent field in [toRaw]:
    [for (j = 0; j < 8 && 2 + i * 8 + j < len; j++)]. *)
Fixpoint spent_byte (c : t) (len i j fuel : nat) (ch : Z) : Z :=
  match fuel with
  | O => ch
  | S fuel' =>
      if ((j <? 8) && (2 + i * 8 + j <? len))%nat then
        spent_byte c len i (S j) fuel'
          (if isUnspent c (Z.of_nat (2 + i * 8 + j))
           then Z.lor ch (Z.shiftl 1 (Z.of_nat j))
           else ch)
      else ch
  end.

(** The outer loop: [for (i = 0; i < size; i++)], [n] bytes to go. *)
Fixpoint write_spent (c : t) (len i n : nat) (bw : StaticWriter.t)
  : StaticWriter.t :=
  match n with
  | O => bw
  | S n' =>
      write_spent c len (S i) n'
        (StaticWriter.writeU8 bw (spent_byte c len i 0 8 0))
  end.

(** The loop over the first [len] slots that writes the outputs. *)
Fixpoint write_outputs (outs : list (option CoinEntry.t))
  (bw : StaticWriter.t) : result StaticWriter.t :=
  match outs with
  | [] => Ok bw
  | Some output :: rest =>
      if CoinEntry.spent output then write_outputs rest bw
      else
        bw' ← CoinEntry.toWriter output bw;
        write_outputs rest bw'
  | None :: rest => write_outputs rest bw
  end.

(** [toRaw] *)
Definition toRaw (c : t) : result Buffer :=
  let len := length c in
  let size := (Z.of_nat len + 5) / 8 in
  code ← header c (Z.of_nat len) size;
  total ← getSize c len size code;
  let bw := StaticWriter.new total in
  let bw := StaticWriter.writeVarint bw (version c) in
  let bw := StaticWriter.writeU32 bw (height c) in
  let bw := StaticWriter.writeVarint bw code in
  let bw := write_spent c len 0 (Z.to_nat size) bw in
  bw ← write_outputs (take len (outputs c)) bw;
  StaticWriter.render bw.

(** The inner loop of [fromRaw]: [for (j = 0; j < 8; j++)]. *)
Fixpoint read_bits (ch : Z) (j fuel : nat)
  (outs : list (option CoinEntry.t)) (br : BufferReader.t)
  : result (list (option CoinEntry.t) * BufferReader.t) :=
  match fuel with
  | O => Ok (outs, br)
  | S fuel' =>
      if Z.land ch (Z.shiftl 1 (Z.of_nat j)) =? 0 then
        read_bits ch (S j) fuel' (outs ++ [None]) br
      else
        '(entry, br') ← CoinEntry.fromReader br;
        read_bits ch (S j) fuel' (outs ++ [Some entry]) br'
  end.

(** The outer loop of [fromRaw]: [for (i = 0; i < size; i++)], with
    [ch = br.data[offset++]]. *)
Fixpoint read_spent (offset n : nat)
  (outs : list (option CoinEntry.t)) (br : BufferReader.t)
  : result (list (option CoinEntry.t) * BufferReader.t) :=
  match n with
  | O => Ok (outs, br)
  | S n' =>
      let ch := byte_at (BufferReader.data br) offset in
      '(outs', br') ← read_bits ch 0 8 outs br;
      read_spent (S offset) n' outs' br'
  end.

(** [Coins.prototype.fromRaw(data, hash)] *)
Definition fromRaw (c : t) (data : Buffer) (hash : string) : result t :=
  let br := BufferReader.new data in
  '(version, br) ← BufferReader.readVarint br;
  '(height, br) ← BufferReader.readU32 br;
  '(code, br) ← BufferReader.readVarint br;
  let coinbase := code_bit code 1 in
  let size := recalc_size code in
  let offset := BufferReader.offset br in
  br ← BufferReader.seek br size;
  '(first, br) ← (if code_bit code 2
                  then '(e, br') ← CoinEntry.fromReader br; Ok (Some e, br')
                  else Ok (None, br));
  '(second, br) ← (if code_bit code 4
                   then '(e, br') ← CoinEntry.fromReader br; Ok (Some e, br')
                   else Ok (None, br));
  let outs := outputs c ++ [first; second] in
  '(outs, br) ← read_spent offset (Z.to_nat size) outs br;
  Ok (cleanup (mk version hash height coinbase outs)).

(** [Coins.fromRaw(data, hash)] *)
Definition static_fromRaw (data : Buffer) (hash : string) : result t :=
  fromRaw new data hash.

(** One slot of the walk of [parseCoin], the body both of its loops
    share: at a live slot decompress the coin when [index] has reached
    0 and skip the output otherwise; at a gap return not-found when
    [index] has reached 0.  [inl] is a [return], [inr] carries the
    reader and the decremented index on. *)
Definition parse_slot (live : bool) (coin : Coin) (br : BufferReader.t)
  (index : Z) : result (option Coin + BufferReader.t * Z) :=
  if live then
    if index =? 0 then
      coin' ← BufferReader.decompress_coin coin br;
      Ok (inl (Some coin'))
    else
      '(_, br') ← BufferReader.decompress_skip br;
      Ok (inr (br', index - 1))
  else
    if index =? 0 then Ok (inl None)
    else Ok (inr (br, index - 1)).

(** [for (i = 0; i < 2; i++)] with the bit [code & (2 << i)]. *)
Fixpoint parse_first (code : Z) (i fuel : nat) (coin : Coin)
  (br : BufferReader.t) (index : Z)
  : result (option Coin + BufferReader.t * Z) :=
  match fuel with
  | O => Ok (inr (br, index))
  | S fuel' =>
      r ← parse_slot (code_bit code (Z.shiftl 2 (Z.of_nat i))) coin br index;
      match r with
      | inl found => Ok (inl found)
      | inr (br', index') => parse_first code (S i) fuel' coin br' index'
      end
  end.

(** [for (j = 0; j < 8; j++)] with the bit [ch & (1 << j)]. *)
Fixpoint parse_bits (ch : Z) (j fuel : nat) (coin : Coin)
  (br : BufferReader.t) (index : Z)
  : result (option Coin + BufferReader.t * Z) :=
  match fuel with
  | O => Ok (inr (br, index))
  | S fuel' =>
      r ← parse_slot (negb (Z.land ch (Z.shiftl 1 (Z.of_nat j)) =? 0))
             coin br index;
      match r with
      | inl found => Ok (inl found)
      | inr (br', index') => parse_bits ch (S j) fuel' coin br' index'
      end
  end.

(** [for (i = 0; i < size; i++)] with [ch = br.data[offset++]]. *)
Fixpoint parse_spent (offset n : nat) (coin : Coin)
  (br : BufferReader.t) (index : Z)
  : result (option Coin + BufferReader.t * Z) :=
  match n with
  | O => Ok (inr (br, index))
  | S n' =>
      let ch := byte_at (BufferReader.data br) offset in
      r ← parse_bits ch 0 8 coin br index;
      match r with
      | inl found => Ok (inl found)
      | inr (br', index') => parse_spent (S offset) n' coin br' index'
      end
  end.

(** [Coins.parseCoin(data, hash, index)]; [Ok None] is [undefined]. *)
Definition parseCoin (data : Buffer) (hash : string) (index : Z)
  : result (option Coin) :=
  let br := BufferReader.new data in
  let coin := new_Coin in
  let coin := mkCoin (coin_version coin) (coin_height coin)
                (coin_value coin) (coin_script coin) (coin_coinbase coin)
                hash index in
  '(version, br) ← BufferReader.readVarint br;
  '(height, br) ← BufferReader.readU32 br;
  let coin := mkCoin version height (coin_value coin) (coin_script coin)
                (coin_coinbase coin) (coin_hash coin) (coin_index coin) in
  '(code, br) ← BufferReader.readVarint br;
  let coin := mkCoin (coin_version coin) (coin_height coin)
                (coin_value coin) (coin_script coin) (code_bit code 1)
                (coin_hash coin) (coin_index coin) in
  let size := recalc_size code in
  if 2 + size * 8 <=? index then Ok None
  else
    let offset := BufferReader.offset br in
    br ← BufferReader.seek br size;
    r ← parse_first code 0 2 coin br index;
    match r with
    | inl found => Ok found
    | inr (br, index) =>
        r ← parse_spent offset (Z.to_nat size) coin br index;
        match r with
        | inl found => Ok found
        | inr _ => Ok None
        end
    end.

(** [Coins.prototype.fromTX(tx, height)] *)
Definition fromTX (c : t) (tx : TX) (height : Z) : t :=
  let pushed :=
    (fun output : Output =>
       if isUnspendable (script output) then None
       else Some (CoinEntry.fromOutput output)) <$> tx_outputs tx in
  cleanup (mk (tx_version tx) (tx_hash tx) height (tx_isCoinbase tx)
              (outputs c ++ pushed)).

(** [Coins.fromTX(tx, height)] *)
Definition static_fromTX (tx : TX) (height : Z) : t :=
  fromTX new tx height.
End WithCodec.

End Coins.

(** ** What the container relies on from its collaborators *)

(** Values the codec is used at: non-negative safe integers. *)
Definition safe_integer (n : Z) : Prop := 0 <= n < 2 ^ 53.

(** Outputs the compressor is used at: the value is a safe integer and
    the script fits a buffer. *)
Definition valid_output (o : Output) : Prop :=
  safe_integer (value o) /\ Z.of_nat (length (script o)) < 2 ^ 32.

(** The contract of the varint routines and of the compressor: a varint
    that was written is read back, wherever it lies in a buffer; the size
    routines count the bytes the writers write; a compressed output is
    skipped whole and decompresses to the output it came from; and both
    [skip] and [output] depend only on the bytes that [skip] passes. *)
Class CodecLaws (C : Codec) : Prop := {
  varint_read_bytes : forall n pre post,
    safe_integer n ->
    varint_read (pre ++ varint_bytes n ++ post) (length pre)
    = Ok (n, length (varint_bytes n));
  sizeVarint_bytes : forall n,
    safe_integer n -> sizeVarint n = Z.of_nat (length (varint_bytes n));
  compress_size_bytes : forall o,
    valid_output o -> compress_size o = Z.of_nat (length (compress_bytes o));
  skip_compress : forall o,
    valid_output o ->
    skip_at (compress_bytes o) 0 = Ok (length (compress_bytes o));
  decompress_compress : forall o,
    valid_output o -> decompress_at (compress_bytes o) 0 = Ok o;
  skip_within : forall data off n,
    skip_at data off = Ok n -> (off + n <= length data)%nat;
  skip_local : forall data off n pre post,
    skip_at data off = Ok n ->
    skip_at (pre ++ slice data off n ++ post) (length pre) = Ok n;
  decompress_local : forall data off n pre post,
    skip_at data off = Ok n ->
    decompress_at (pre ++ slice data off n ++ post) (length pre)
    = decompress_at data off
}.

(** ** A codec after the spec

    The varint and the script templates as the spec words them; it shows
    that the contract above can be met, and serves the concrete examples. *)

Module Reference.

(** Modelled from the spec: [utils/encoding] is missing.  The varint is
    base 128 with 7 data bits per byte, the continuation bit in the high
    bit, the most significant group first, each non-terminal group
    stored less one.  [acc] holds the groups already produced, which
    follow the current one in the output. *)
Fixpoint varint_groups (fuel : nat) (n : Z) (len : nat) (acc : list byte)
  : list byte :=
  let b := byte_of_Z (Z.lor (Z.land n 127) (if len is O then 0 else 128)) in
  match fuel with
  | O => b :: acc
  | S fuel' =>
      if n <=? 127 then b :: acc
      else varint_groups fuel' (Z.shiftr n 7 - 1) (S len) (b :: acc)
  end.

Definition varint_bytes (n : Z) : list byte := varint_groups 9 n 0 [].

Fixpoint varint_count (fuel : nat) (n : Z) (size : Z) : Z :=
  match fuel with
  | O => size + 1
  | S fuel' =>
      if n <=? 127 then size + 1
      else varint_count fuel' (Z.shiftr n 7 - 1) (size + 1)
  end.

Definition sizeVarint (n : Z) : Z := varint_count 9 n 0.

(** The count of groups of a varint. *)
Fixpoint group_count (fuel : nat) (n : Z) : nat :=
  match fuel with
  | O => 1
  | S fuel' => if n <=? 127 then 1 else S (group_count fuel' (Z.shiftr n 7 - 1))
  end.

(** Modelled from the spec: the read loop
    [n = (n << 7) | (byte & 0x7F); if (byte & 0x80) n++; else break]. *)
Fixpoint varint_loop (bytes : list byte) (n : Z) (count : nat)
  : result (Z * nat) :=
  match bytes with
  | [] => Err DecodeError
  | b :: rest =>
      let ch := byte_to_Z b in
      let n := Z.lor (Z.shiftl n 7) (Z.land ch 127) in
      if Z.land ch 128 =? 0 then Ok (n, S count)
      else varint_loop rest (n + 1) (S count)
  end.

Definition varint_read (data : Buffer) (off : nat) : result (Z * nat) :=
  varint_loop (drop off data) 0 0.

(** Big-endian numbers of the curve arithmetic. *)
Definition be_to_Z (bytes : list byte) : Z :=
  foldl (fun acc b => acc * 256 + byte_to_Z b) 0 bytes.

Fixpoint Z_to_be (count : nat) (z : Z) : list byte :=
  match count with
  | O => []
  | S count' => Z_to_be count' (z / 256) ++ [byte_of_Z z]
  end.

Fixpoint powmod (b : Z) (e : positive) (m : Z) : Z :=
  match e with
  | xH => b mod m
  | xO e' => let r := powmod b e' m in r * r mod m
  | xI e' => let r := powmod b e' m in (r * r mod m) * b mod m
  end.

(** The field prime of secp256k1. *)
Definition curve_p : Z := 2 ^ 256 - 2 ^ 32 - 977.

(** Modelled from the spec: curve recovery for the prefixes 0x04 and
    0x05: the [y] with [y^2 = x^3 + 7] of the given parity, when [x] is
    the abscissa of a point of the curve. *)
Definition recover_y (odd : bool) (x : Z) : option Z :=
  let y2 := (x * x * x + 7) mod curve_p in
  let y := powmod y2 (Z.to_pos ((curve_p + 1) / 4)) curve_p in
  if (x <? curve_p) && (y * y mod curve_p =? y2) then
    Some (if Bool.eqb (Z.odd y) odd then y else curve_p - y)
  else None.

(** Modelled from the spec: the script a prefix and its payload stand
    for (the table of script templates), the canonical form. *)
Definition expand_script (prefix : Z) (payload : list byte)
  : result (list byte) :=
  if prefix =? 0 then Ok ([x76; xa9; x14] ++ payload ++ [x88; xac])
  else if prefix =? 1 then Ok ([xa9; x14] ++ payload ++ [x87])
  else if (prefix =? 2) || (prefix =? 3) then
    Ok ([x21; byte_of_Z prefix] ++ payload ++ [xac])
  else if (prefix =? 4) || (prefix =? 5) then
    match recover_y (prefix =? 5) (be_to_Z payload) with
    | Some y => Ok ([x41; x04] ++ payload ++ Z_to_be 32 y ++ [xac])
    | None => Err DecodeError
    end
  else if prefix <? 16 then Err DecodeError
  else Ok payload.

(** The length of the payload that follows a prefix. *)
Definition payload_length (prefix : Z) : nat :=
  if prefix <? 2 then 20%nat
  else if prefix <? 16 then 32%nat
  else Z.to_nat (prefix - 16).

(** A prefix and a payload are the compressed form of a script. *)
Definition fits (s : list byte) (c : Z * list byte) : bool :=
  (length c.2 =? payload_length c.1)%nat
  && match expand_script c.1 c.2 with
     | Ok s' => bool_decide (s' = s)
     | Err _ => false
     end.

(** Modelled from the spec: the template a script falls under, as a
    prefix and a payload: the hash of a pay-to-pubkey-hash or
    pay-to-script-hash script, the abscissa of the key of a pay-to-pubkey
    script; a script that is none of the templates is written raw under
    the prefix [length + 0x10]. *)
Definition classify_script (s : list byte) : Z * list byte :=
  let candidates :=
    [(0, take 20 (drop 3 s)); (1, take 20 (drop 2 s));
     (2, take 32 (drop 2 s)); (3, take 32 (drop 2 s));
     (4, take 32 (drop 2 s)); (5, take 32 (drop 2 s))] in
  match List.find (fits s) candidates with
  | Some c => c
  | None => (Z.of_nat (length s) + 16, s)
  end.

(** Modelled from the spec: [compress.output] writes the value, then the
    script prefix, then the payload. *)
Definition compress_bytes (o : Output) : list byte :=
  let '(prefix, payload) := classify_script (script o) in
  varint_bytes (value o) ++ varint_bytes prefix ++ payload.

Definition compress_size (o : Output) : Z :=
  let '(prefix, payload) := classify_script (script o) in
  sizeVarint (value o) + sizeVarint prefix + Z.of_nat (length payload).

(** The value and the prefix at the head of a compressed output, and
    what follows them. *)
Definition read_parts (bytes : list byte) : result (Z * Z * nat * list byte) :=
  '(v, n1) ← varint_loop bytes 0 0;
  '(prefix, n2) ← varint_loop (drop n1 bytes) 0 0;
  Ok (v, prefix, (n1 + n2)%nat, drop n2 (drop n1 bytes)).

(** Modelled from the spec: [decompress.output] reads value, prefix and
    payload and reconstitutes the script; a reserved prefix, a payload
    longer than what is left and a failed curve recovery are decode
    errors. *)
Definition decompress_bytes (bytes : list byte) : result Output :=
  '(v, prefix, _, rest) ← read_parts bytes;
  let payload := take (payload_length prefix) rest in
  if (length payload =? payload_length prefix)%nat then
    s ← expand_script prefix payload;
    Ok (mkOutput v s)
  else Err DecodeError.

Definition decompress_at (data : Buffer) (off : nat) : result Output :=
  decompress_bytes (drop off data).

(** Modelled from the spec: [decompress.skip] passes one compressed
    output without building it and returns the count of bytes. *)
Definition skip_bytes (bytes : list byte) : result nat :=
  '(v, prefix, n, rest) ← read_parts bytes;
  if (payload_length prefix <=? length rest)%nat
  then Ok (n + payload_length prefix)%nat
  else Err DecodeError.

Definition skip_at (data : Buffer) (off : nat) : result nat :=
  skip_bytes (drop off data).

(** Modelled from the spec: a script is unspendable when it is provably
    never redeemable; the spec's instance is the [OP_RETURN] prefix. *)
Definition isUnspendable (s : list byte) : bool :=
  match s with
  | x6a :: _ => true
  | _ => false
  end.

#[export] Instance codec : Codec :=
  Build_Codec varint_bytes sizeVarint varint_read compress_bytes
    compress_size decompress_at skip_at isUnspendable.

End Reference.

(** ** Predicates of the statements *)

(** The array of outputs does not end in a gap. *)
Definition no_trailing_gap (c : Coins.t) : Prop :=
  last (Coins.outputs c) <> Some None.

(** The last element of the array is an entry that is not marked spent. *)
Definition last_live (c : Coins.t) : Prop :=
  exists e, last (Coins.outputs c) = Some (Some e) /\ CoinEntry.spent e = false.

(** One mutation of a record: the methods that change [outputs]. *)
Inductive mutation `{Codec} (c : Coins.t) : Coins.t -> Prop :=
  | mutation_add index entry c' :
      Coins.add c index entry = Ok c' -> mutation c c'
  | mutation_addOutput index output c' :
      Coins.addOutput c index output = Ok c' -> mutation c c'
  | mutation_addCoin coin c' :
      Coins.addCoin c coin = Ok c' -> mutation c c'
  | mutation_spend index : mutation c (Coins.spend c index).2
  | mutation_remove index : mutation c (Coins.remove c index).2
  | mutation_cleanup : mutation c (Coins.cleanup c).

(** ** The walk over the slots of a serialized record

    [fromRaw] and [parseCoin] visit the slots of a record in the same
    order: the two slots of the header code, then eight slots per byte of
    the spent field.  The walks below visit a list of presence bits; the
    loops of the two functions are instances of them. *)

(** [(ch & (1 << j)) !== 0] *)
Definition bit_set (ch : Z) (j : nat) : bool :=
  negb (Z.land ch (Z.shiftl 1 (Z.of_nat j)) =? 0).

(** The presence bits of the eight slots of a byte. *)
Definition byte_bits (ch : Z) : list bool := bit_set ch <$> seq 0 8.

(** The presence bits of [n] bytes of the spent field from [offset] on. *)
Definition spent_bits (data : Buffer) (offset n : nat) : list bool :=
  seq offset n ≫= (fun i => byte_bits (byte_at data i)).

Section Walks.
Context `{Codec}.

(** The slots [fromRaw] pushes for a list of presence bits, reading the
    compressed outputs from [pos] on, and the position it ends at. *)
Fixpoint decode_walk (data : Buffer) (bits : list bool) (pos : nat)
  : result (list (option CoinEntry.t) * nat) :=
  match bits with
  | [] => Ok ([], pos)
  | true :: rest =>
      sz ← skip_at data pos;
      '(slots, pos') ← decode_walk data rest (pos + sz);
      Ok (Some (CoinEntry.mk pos sz (Some data) None false) :: slots, pos')
  | false :: rest =>
      '(slots, pos') ← decode_walk data rest pos;
      Ok (None :: slots, pos')
  end.

(** The walk of [parseCoin] over a list of presence bits. *)
Fixpoint parse_walk (bits : list bool) (coin : Coin) (br : BufferReader.t)
  (index : Z) : result (option Coin + BufferReader.t * Z) :=
  match bits with
  | [] => Ok (inr (br, index))
  | live :: rest =>
      r ← Coins.parse_slot live coin br index;
      match r with
      | inl found => Ok (inl found)
      | inr (br', index') => parse_walk rest coin br' index'
      end
  end.

End Walks.

(** The three reads both [fromRaw] and [parseCoin] start with: version,
    height and header code, and the offset of the spent field. *)
Definition read_header `{Codec} (data : Buffer) : result (Z * Z * Z * nat) :=
  '(version, br) ← BufferReader.readVarint (BufferReader.new data);
  '(height, br) ← BufferReader.readU32 br;
  '(code, br) ← BufferReader.readVarint br;
  Ok (version, height, code, BufferReader.offset br).

(** The presence bits of all slots of a serialized record. *)
Definition slot_bits (data : Buffer) (code : Z) (offset : nat) : list bool :=
  [Coins.code_bit code 2; Coins.code_bit code 4]
  ++ spent_bits data offset (Z.to_nat (Coins.recalc_size code)).

(** What a caller sees of [getCoin]: the coin, or [None] for not-found. *)
Definition found_coin (r : result (option Coin * Coins.t))
  : result (option Coin) :=
  match r with
  | Ok (found, _) => Ok found
  | Err e => Err e
  end.

(** ** The bytes of a record and the records that can be serialized *)

Section Serialized.
Context `{Codec}.

(** The bytes [toWriter] writes for an entry: the compressed output of a
    materialized entry, the slice of its buffer for one read from a
    buffer. *)
Definition entry_bytes (e : CoinEntry.t) : list byte :=
  match CoinEntry.raw e with
  | None =>
      match CoinEntry.output e with
      | Some o => compress_bytes o
      | None => []
      end
  | Some data => slice data (CoinEntry.offset e) (CoinEntry.size e)
  end.

(** A slot holds an entry that is not marked spent. *)
Definition is_live (slot : option CoinEntry.t) : bool :=
  match slot with
  | Some e => negb (CoinEntry.spent e)
  | None => false
  end.

Definition live_bytes (slot : option CoinEntry.t) : list byte :=
  match slot with
  | Some e => if CoinEntry.spent e then [] else entry_bytes e
  | None => []
  end.

(** The compressed outputs of the unspent entries, in index order. *)
Definition tail_bytes (slots : list (option CoinEntry.t)) : list byte :=
  slots ≫= live_bytes.

(** The spent field [toRaw] writes. *)
Definition spent_field (c : Coins.t) (len size : nat) : list byte :=
  (fun i => byte_of_Z (Coins.spent_byte c len i 0 8 0)) <$> seq 0 size.

(** An entry as the constructors make it: built from an output whose
    value is a safe integer ([fromOutput], [fromCoin]), or pointing at one
    compressed output of a buffer ([fromReader]), its output, when
    materialized, being the one decompressed from there ([toOutput]). *)
Definition wf_entry (e : CoinEntry.t) : Prop :=
  match CoinEntry.raw e with
  | None => exists o, CoinEntry.output e = Some o /\ valid_output o
  | Some data =>
      skip_at data (CoinEntry.offset e) = Ok (CoinEntry.size e)
      /\ forall o, CoinEntry.output e = Some o ->
                   decompress_at data (CoinEntry.offset e) = Ok o
  end.

(** The live entries of a list of slots are well-formed. *)
Definition wf_slots (slots : list (option CoinEntry.t)) : Prop :=
  forall (i : nat) e,
    slots !! i = Some (Some e) -> CoinEntry.spent e = false -> wf_entry e.

(** A record as it can be constructed and stored: a 32-bit version, the
    height of a confirmed transaction, an array within the bound of
    JavaScript arrays, and well-formed unspent entries. *)
Definition legal (c : Coins.t) : Prop :=
  0 <= Coins.version c < 2 ^ 32
  /\ 0 <= Coins.height c < 2 ^ 32
  /\ Z.of_nat (length (Coins.outputs c)) < 2 ^ 32
  /\ wf_slots (Coins.outputs c).

(** The output an entry stands for, as [toOutput] returns it. *)
Definition entry_output (e : CoinEntry.t) : result Output :=
  fst <$> CoinEntry.toOutput e.

End Serialized.

(** Two slots that [toRaw] does not tell apart: they hold an unspent
    entry or not alike, and unspent entries they both hold have the same
    [getSize] and the same [toWriter]. *)
Definition same_bytes `{Codec} (slot slot' : option CoinEntry.t) : Prop :=
  is_live slot' = is_live slot
  /\ forall e e',
       slot = Some e -> slot' = Some e' -> CoinEntry.spent e = false ->
       CoinEntry.getSize e' = CoinEntry.getSize e
       /\ forall bw, CoinEntry.toWriter e' bw = CoinEntry.toWriter e bw.

(** The size [toRaw] gives the spent field and the header code it writes
    for a record that is not fully spent. *)
Definition spent_size (c : Coins.t) : Z := (Z.of_nat (Coins.length c) + 5) / 8.

Definition header_code (c : Coins.t) : Z :=
  8 * (spent_size c
       - (if negb (Coins.isUnspent c 0) && negb (Coins.isUnspent c 1)
          then 1 else 0))
  + Z.b2z (Coins.coinbase c)
  + 2 * Z.b2z (Coins.isUnspent c 0)
  + 4 * Z.b2z (Coins.isUnspent c 1).

(** The bytes [toRaw] writes for a record that is not fully spent: the
    header (version, height, header code), the spent field and the
    compressed outputs. *)
Definition header_bytes `{Codec} (c : Coins.t) : list byte :=
  varint_bytes (Coins.version c) ++ StaticWriter.u32_bytes (Coins.height c)
  ++ varint_bytes (header_code c).

Definition record_bytes `{Codec} (c : Coins.t) : list byte :=
  header_bytes c
  ++ spent_field c (Coins.length c) (Z.to_nat (spent_size c))
  ++ tail_bytes (take (Coins.length c) (Coins.outputs c)).

(** The first [n] slots of a record, a slot past the array being a gap. *)
Definition source_slots (c : Coins.t) (n : nat) : list (option CoinEntry.t) :=
  (fun k => mjoin (Coins.outputs c !! k)) <$> seq 0 n.

(** How [fromRaw] renders a slot of the record that [data] serializes: a
    gap for a gap or a spent entry; for an unspent entry an entry that
    points at the bytes of that entry in [data], is not materialized and
    is not spent. *)
Definition placed `{Codec} (data : Buffer) (src slot : option CoinEntry.t)
  : Prop :=
  if is_live src then
    exists e e',
      src = Some e /\ slot = Some e'
      /\ CoinEntry.raw e' = Some data
      /\ CoinEntry.output e' = None
      /\ CoinEntry.spent e' = false
      /\ skip_at data (CoinEntry.offset e') = Ok (CoinEntry.size e')
      /\ slice data (CoinEntry.offset e') (CoinEntry.size e') = entry_bytes e
      /\ decompress_at data (CoinEntry.offset e') = entry_output e
  else slot = None.

(** ** Records of the examples *)

(** A pay-to-pubkey-hash output of 50 BTC. *)
Definition example_output : Output :=
  mkOutput 5000000000 ([x76; xa9; x14] ++ replicate 20 xab ++ [x88; xac]).

(** A coinbase record with one output. *)
Definition example_single : Coins.t :=
  Coins.mk 1 NULL_HASH 100 true [Some (CoinEntry.fromOutput example_output)].

(** A record of nine outputs of which only index 8 is unspent. *)
Definition example_nine : Coins.t :=
  Coins.mk 1 NULL_HASH 100 false
    (replicate 8 None ++ [Some (CoinEntry.fromOutput example_output)]).

(** A record of three outputs, the first two spent. *)
Definition example_three : Coins.t :=
  Coins.mk 1 NULL_HASH 100 false
    [Some (CoinEntry.set_spent (CoinEntry.fromOutput example_output));
     None;
     Some (CoinEntry.fromOutput example_output)].

(** An [OP_RETURN] output. *)
Definition example_nulldata : Output := mkOutput 0 [x6a; x01; x00].

Definition example_tx : TX :=
  mkTX 1 NULL_HASH false [example_output; example_nulldata].

(** The bytes of [example_single] under the codec after the spec:
    version 1, height 100, header code 3, then the value and the hash
    under the prefix 0x00. *)
Definition example_single_bytes : Buffer :=
  [x01; x64; x00; x00; x00; x03; x91; xcf; x96; xe3; x00; x00]
  ++ replicate 20 xab.

(** The same record in a buffer that no [toRaw] writes: a spent field of
    one byte that describes no output. *)
Definition example_padded_bytes : Buffer :=
  [x01; x64; x00; x00; x00; x0b; x00; x91; xcf; x96; xe3; x00; x00]
  ++ replicate 20 xab.

(** The record [fromRaw] decodes from [example_single_bytes]: one entry
    that points at the 26 bytes of the compressed output behind the
    header; the same record once its output is materialized; and the
    record decoded from [example_padded_bytes], in which the entry lies
    one byte further. *)
Definition example_decoded : Coins.t :=
  Coins.mk 1 NULL_HASH 100 true
    [Some (CoinEntry.mk 6 26 (Some example_single_bytes) None false)].

Definition example_materialized : Coins.t :=
  Coins.mk 1 NULL_HASH 100 true
    [Some (CoinEntry.mk 6 26 (Some example_single_bytes)
             (Some example_output) false)].

Definition example_decoded_padded : Coins.t :=
  Coins.mk 1 NULL_HASH 100 true
    [Some (CoinEntry.mk 7 26 (Some example_padded_bytes) None false)].

(** A transaction of which the two outputs are unspendable. *)
Definition example_tx_nulldata : TX :=
  mkTX 1 NULL_HASH true [example_nulldata; example_nulldata].

(** Options that give every field, and options of which the hash is a
    number. *)
Definition example_options : Coins.Options :=
  Coins.mkOptions (JsNumber 2) (JsString "ff") (JsNumber 7) (JsBoolean false)
    (JsArray [None; Some (CoinEntry.fromOutput example_output); None]).

Definition example_options_bad_hash : Coins.Options :=
  Coins.mkOptions JsUndefined (JsNumber 1) JsUndefined JsUndefined JsUndefined.

(** * Properties *)

(** ** The monad and the number conversions *)

Lemma bind_Ok {A B : Type} (r : result A) (k : A -> result B) (b : B) :
  r ≫= k = Ok b <-> exists a, r = Ok a /\ k a = Ok b.
Proof.
  destruct r as [a|e]; simpl; split.
  - intros Hk. exists a. done.
  - intros (a' & [= <-] & Hk). done.
  - done.
  - intros (a' & [=] & _).
Qed.

Lemma ToInt32_small (z : Z) : - 2 ^ 31 <= z < 2 ^ 31 -> ToInt32 z = z.
Proof. intros Hz. unfold ToInt32. rewrite Z.mod_small; lia. Qed.

Lemma ToInt32_mod (z : Z) : ToInt32 z mod 2 ^ 32 = z mod 2 ^ 32.
Proof.
  unfold ToInt32.
  rewrite <- Zminus_mod_idemp_l, Z.mod_mod by lia.
  rewrite Zminus_mod_idemp_l. f_equal. lia.
Qed.

Lemma land_low_mod (z m : Z) :
  0 <= m < 2 ^ 32 -> Z.land z m = Z.land (z mod 2 ^ 32) m.
Proof.
  intros Hm.
  rewrite <- (Z.land_ones z 32) by lia.
  rewrite <- Z.land_assoc. f_equal.
  rewrite Z.land_comm, Z.land_ones by lia.
  rewrite Z.mod_small; lia.
Qed.

Lemma land_ToInt32 (z m : Z) :
  0 <= m < 2 ^ 32 -> Z.land (ToInt32 z) m = Z.land z m.
Proof.
  intros Hm.
  rewrite (land_low_mod (ToInt32 z)), (land_low_mod z) by done.
  by rewrite ToInt32_mod.
Qed.

(** ** Reading the container *)

Section Container.

Implicit Types (c : Coins.t) (index : Z) (e entry : CoinEntry.t).

Lemma get_Some c index e :
  Coins.get c index = Some e
  <-> 0 <= index /\ Coins.outputs c !! Z.to_nat index = Some (Some e).
Proof.
  unfold Coins.get, js_index.
  destruct (Z.leb_spec (Z.of_nat (length (Coins.outputs c))) index) as [Hle|Hlt].
  - split; [done|]. intros [H0 Hl].
    apply lookup_lt_Some in Hl. lia.
  - destruct (Z.ltb_spec index 0) as [Hneg|Hpos].
    + simpl. split; [done|]. lia.
    + destruct (Coins.outputs c !! Z.to_nat index) as [[e'|]|] eqn:Hl;
        simpl; split; try done; try (intros [= ->]; done);
        try (intros [_ [=]]; congruence).
Qed.

Lemma get_None c index :
  Coins.get c index = None
  <-> index < 0 \/ Coins.outputs c !! Z.to_nat index = Some None
      \/ Coins.outputs c !! Z.to_nat index = None.
Proof.
  destruct (Coins.get c index) as [e|] eqn:Hg.
  - apply get_Some in Hg as [H0 Hl]. split; [done|].
    intros [?|[?|?]]; [lia|congruence..].
  - split; [|done]. intros _.
    destruct (Z.ltb_spec index 0) as [Hneg|Hpos]; [by left|right].
    destruct (Coins.outputs c !! Z.to_nat index) as [[e|]|] eqn:Hl; auto.
    assert (Coins.get c index = Some e) by (apply get_Some; done).
    congruence.
Qed.

Lemma isUnspent_get c index :
  Coins.isUnspent c index
  = match Coins.get c index with
    | Some e => negb (CoinEntry.spent e)
    | None => false
    end.
Proof. unfold Coins.isUnspent, Coins.get. by case_match. Qed.

Lemma has_get c index :
  Coins.has c index = bool_decide (is_Some (Coins.get c index)).
Proof. unfold Coins.has, Coins.get. case_match; [|done]. by cbv. Qed.

Lemma isUnspent_true c index :
  Coins.isUnspent c index = true
  <-> exists e, 0 <= index
                /\ Coins.outputs c !! Z.to_nat index = Some (Some e)
                /\ CoinEntry.spent e = false.
Proof.
  rewrite isUnspent_get. split.
  - destruct (Coins.get c index) as [e|] eqn:Hg; [|done].
    apply get_Some in Hg as [H0 Hl]. intros Hs. exists e.
    by destruct (CoinEntry.spent e).
  - intros (e & H0 & Hl & Hs).
    assert (Coins.get c index = Some e) as -> by (apply get_Some; done).
    by rewrite Hs.
Qed.

Lemma isUnspent_nat c (i : nat) :
  Coins.isUnspent c (Z.of_nat i)
  = match Coins.outputs c !! i with
    | Some (Some e) => negb (CoinEntry.spent e)
    | _ => false
    end.
Proof.
  rewrite isUnspent_get.
  destruct (Coins.get c (Z.of_nat i)) as [e|] eqn:Hg.
  - apply get_Some in Hg as [_ Hl]. rewrite Nat2Z.id in Hl. by rewrite Hl.
  - apply get_None in Hg as [?|[Hl|Hl]]; [lia|..];
      rewrite Nat2Z.id in Hl; by rewrite Hl.
Qed.

(** *** [length] *)

Lemma length_from_le c (len : nat) : (Coins.length_from c len <= len)%nat.
Proof. induction len as [|len IH]; simpl; [lia|]. case_match; lia. Qed.

Lemma length_from_unspent c (len : nat) :
  (0 < Coins.length_from c len)%nat ->
  Coins.isUnspent c (Z.of_nat (Coins.length_from c len - 1)) = true.
Proof.
  induction len as [|len IH]; simpl; [lia|].
  destruct (Coins.isUnspent c (Z.of_nat len)) eqn:Hu; [|done].
  intros _. by replace (S len - 1)%nat with len by lia.
Qed.

Lemma length_from_spent c (len i : nat) :
  (Coins.length_from c len <= i < len)%nat ->
  Coins.isUnspent c (Z.of_nat i) = false.
Proof.
  induction len as [|len IH]; simpl; [lia|].
  destruct (Coins.isUnspent c (Z.of_nat len)) eqn:Hu; [lia|].
  intros Hi. destruct (decide (i = len)) as [->|Hne]; [done|].
  apply IH. lia.
Qed.

Lemma length_le c : (Coins.length c <= length (Coins.outputs c))%nat.
Proof. apply length_from_le. Qed.

(** No slot at or past [length()] is unspent. *)
Lemma isUnspent_ge_length c (i : nat) :
  (Coins.length c <= i)%nat -> Coins.isUnspent c (Z.of_nat i) = false.
Proof.
  intros Hi.
  destruct (decide (i < length (Coins.outputs c))%nat) as [Hlt|Hge].
  - by apply (length_from_spent c (length (Coins.outputs c))).
  - rewrite isUnspent_nat, lookup_ge_None_2; [done|lia].
Qed.

(** The slot below [length()] is unspent. *)
Lemma isUnspent_last c :
  (0 < Coins.length c)%nat ->
  Coins.isUnspent c (Z.of_nat (Coins.length c - 1)) = true.
Proof. apply length_from_unspent. Qed.

Lemma length_eq_outputs c :
  Coins.length c = length (Coins.outputs c)
  <-> Coins.outputs c = []
      \/ Coins.isUnspent c (Z.of_nat (length (Coins.outputs c) - 1)) = true.
Proof.
  split.
  - intros Heq. destruct (Coins.outputs c) as [|o outs] eqn:Ho; [by left|].
    right. rewrite <- Heq. apply isUnspent_last.
    rewrite Heq. simpl. lia.
  - intros [Hnil|Hu].
    + unfold Coins.length. by rewrite Hnil.
    + pose proof (length_le c) as Hle.
      destruct (decide (Coins.length c = length (Coins.outputs c)))
        as [|Hne]; [done|].
      rewrite isUnspent_ge_length in Hu; [done|lia].
Qed.

(** *** [cleanup] *)

Lemma cleanup_len_le outs (len : nat) : (Coins.cleanup_len outs len <= len)%nat.
Proof. induction len as [|len IH]; simpl; [lia|]. repeat case_match; lia. Qed.

Lemma cleanup_len_entry outs (len : nat) :
  (0 < Coins.cleanup_len outs len)%nat ->
  exists e, outs !! (Coins.cleanup_len outs len - 1)%nat = Some (Some e).
Proof.
  induction len as [|len IH]; simpl; [lia|].
  destruct (outs !! len) as [[e|]|] eqn:Hl; [|done..].
  intros _. exists e. by replace (S len - 1)%nat with len by lia.
Qed.

Lemma cleanup_len_gap outs (len i : nat) :
  (Coins.cleanup_len outs len <= i < len)%nat ->
  outs !! i = Some None \/ outs !! i = None.
Proof.
  induction len as [|len IH]; simpl; [lia|].
  destruct (outs !! len) as [[e|]|] eqn:Hl; [lia|..]; intros Hi;
    (destruct (decide (i = len)) as [->|Hne]; [by auto|apply IH; lia]).
Qed.

Lemma cleanup_len_fixed outs (len : nat) e :
  outs !! (len - 1)%nat = Some (Some e) -> (0 < len)%nat ->
  Coins.cleanup_len outs len = len.
Proof.
  destruct len as [|len]; [lia|]. simpl.
  replace (len - 0)%nat with len by lia. by intros ->.
Qed.

Lemma cleanup_lookup c (i : nat) :
  Coins.outputs (Coins.cleanup c) !! i
  = if decide (i < Coins.cleanup_len (Coins.outputs c)
                     (length (Coins.outputs c)))%nat
    then Coins.outputs c !! i else None.
Proof.
  unfold Coins.cleanup. simpl. case_decide.
  - by rewrite lookup_take_lt.
  - rewrite lookup_take_ge; [done|lia].
Qed.

(** Trimming removes only gaps: reading a slot is not affected. *)
Lemma get_cleanup c index :
  Coins.get (Coins.cleanup c) index = Coins.get c index.
Proof.
  destruct (Coins.get c index) as [e|] eqn:Hg.
  - apply get_Some in Hg as [H0 Hl]. apply get_Some. split; [done|].
    rewrite cleanup_lookup. case_decide as Hi; [done|].
    pose proof (lookup_lt_Some _ _ _ Hl).
    destruct (cleanup_len_gap (Coins.outputs c) (length (Coins.outputs c))
                (Z.to_nat index)) as [?|?]; [lia|congruence..].
  - apply get_None. apply get_None in Hg as [?|[Hl|Hl]]; [by left|..];
      right; rewrite cleanup_lookup; case_decide; auto.
Qed.

Lemma isUnspent_cleanup c index :
  Coins.isUnspent (Coins.cleanup c) index = Coins.isUnspent c index.
Proof. by rewrite !isUnspent_get, get_cleanup. Qed.

End Container.

(** ** The shape of the array under the mutations *)

Section Mutations.

Implicit Types (c : Coins.t) (index : Z) (e entry : CoinEntry.t).

Lemma last_insert_entry (outs : list (option CoinEntry.t)) (i : nat) e :
  last outs <> Some None -> last (<[i := Some e]> outs) <> Some None.
Proof.
  rewrite !last_lookup, length_insert. intros Hl.
  destruct (decide (i = pred (length outs))) as [->|Hne].
  - destruct outs as [|o outs]; [done|].
    rewrite list_lookup_insert_eq; [done|simpl; lia].
  - by rewrite list_lookup_insert_ne.
Qed.

Lemma cleanup_no_trailing_gap c : no_trailing_gap (Coins.cleanup c).
Proof.
  unfold no_trailing_gap. rewrite last_lookup, cleanup_lookup.
  unfold Coins.cleanup. simpl. rewrite length_take.
  pose proof (cleanup_len_le (Coins.outputs c) (length (Coins.outputs c))).
  set (k := Coins.cleanup_len _ _) in *.
  replace (k `min` length (Coins.outputs c))%nat with k by lia.
  case_decide as Hk; [|done].
  destruct (cleanup_len_entry (Coins.outputs c) (length (Coins.outputs c)))
    as [e He]; [fold k; lia|].
  fold k in He. replace (pred k) with (k - 1)%nat by lia. by rewrite He.
Qed.

Lemma spend_outputs c index :
  (Coins.spend c index).2 = c
  \/ exists e, (Coins.spend c index).2
               = Coins.set_outputs c
                   (<[Z.to_nat index := Some e]> (Coins.outputs c)).
Proof.
  unfold Coins.spend. destruct (Coins.get c index) as [e|]; [|by left].
  destruct (CoinEntry.spent e); [by left|right]. by eexists.
Qed.

Lemma spend_no_trailing_gap c index :
  no_trailing_gap c -> no_trailing_gap (Coins.spend c index).2.
Proof.
  intros Hc. destruct (spend_outputs c index) as [->|[e ->]]; [done|].
  by apply last_insert_entry.
Qed.

Lemma remove_no_trailing_gap c index :
  no_trailing_gap c -> no_trailing_gap (Coins.remove c index).2.
Proof.
  intros Hc. unfold Coins.remove.
  destruct (Coins.get c index); [apply cleanup_no_trailing_gap|done].
Qed.

Lemma add_Ok c index entry c' :
  Coins.add c index entry = Ok c' ->
  0 <= index
  /\ Coins.get c index = None
  /\ c' = Coins.set_outputs c
            (<[Z.to_nat index := Some entry]>
               (Coins.outputs c
                ++ replicate (Z.to_nat index + 1 - length (Coins.outputs c))
                     None)).
Proof.
  unfold Coins.add, assert.
  destruct (Z.leb_spec 0 index) as [H0|]; [simpl|done].
  case_bool_decide as Hs; [done|simpl]. intros [= <-].
  split; [done|]. split; [|done].
  apply get_None. right.
  unfold js_index in Hs. destruct (Z.ltb_spec index 0); [lia|].
  destruct (Coins.outputs c !! Z.to_nat index) as [[e|]|] eqn:Hl; auto.
  exfalso. apply Hs. rewrite lookup_app_l by by eapply lookup_lt_Some.
  rewrite Hl. by eexists.
Qed.

Lemma add_no_trailing_gap c index entry c' :
  no_trailing_gap c -> Coins.add c index entry = Ok c' ->
  no_trailing_gap c'.
Proof.
  intros Hc (H0 & _ & ->)%add_Ok. unfold no_trailing_gap. simpl.
  destruct (decide (Z.to_nat index < length (Coins.outputs c))%nat)
    as [Hlt|Hge].
  - replace (Z.to_nat index + 1 - length (Coins.outputs c))%nat
      with O by lia.
    simpl. rewrite app_nil_r. by apply last_insert_entry.
  - rewrite last_lookup, length_insert, length_app, length_replicate.
    replace (pred _) with (Z.to_nat index) by lia.
    rewrite list_lookup_insert_eq; [done|].
    rewrite length_app, length_replicate. lia.
Qed.

Lemma last_live_isUnspent c :
  last_live c
  <-> Coins.isUnspent c (Z.of_nat (length (Coins.outputs c) - 1)) = true.
Proof.
  unfold last_live. rewrite last_lookup, isUnspent_nat.
  replace (pred (length (Coins.outputs c)))
    with (length (Coins.outputs c) - 1)%nat by lia.
  destruct (Coins.outputs c !! _) as [[e|]|]; split;
    try done; try (by intros (? & [=] & _)).
  - intros (e' & [= <-] & ->). done.
  - intros Hs. exists e. by destruct (CoinEntry.spent e).
Qed.

End Mutations.

(** ** Spending and removing *)

Section Spend.

Implicit Types (c : Coins.t) (index : Z) (e entry : CoinEntry.t).

Lemma spend_unspent c index :
  Coins.isUnspent c index = true ->
  exists e, Coins.get c index = Some e
            /\ CoinEntry.spent e = false
            /\ Coins.spend c index
               = (Some (CoinEntry.set_spent e),
                  Coins.set_outputs c
                    (<[Z.to_nat index := Some (CoinEntry.set_spent e)]>
                       (Coins.outputs c))).
Proof.
  rewrite isUnspent_get. unfold Coins.spend.
  destruct (Coins.get c index) as [e|]; [|done].
  destruct (CoinEntry.spent e) eqn:Hs; [done|]. intros _. by exists e.
Qed.

Lemma spend_not_unspent c index :
  Coins.isUnspent c index = false -> Coins.spend c index = (None, c).
Proof.
  rewrite isUnspent_get. unfold Coins.spend.
  destruct (Coins.get c index) as [e|]; [|done].
  by destruct (CoinEntry.spent e).
Qed.

Lemma get_insert c index e e' :
  Coins.get c index = Some e ->
  Coins.get (Coins.set_outputs c
               (<[Z.to_nat index := Some e']> (Coins.outputs c))) index
  = Some e'.
Proof.
  intros [H0 Hl]%get_Some. apply get_Some. split; [done|]. simpl.
  apply list_lookup_insert_eq. by eapply lookup_lt_Some.
Qed.

(** C8. [spend(i); spend(i)] leaves the record as a single [spend(i)]
    does and the second call returns the no-op sentinel ([None]).  The
    call on an unspent entry marks it spent and returns the entry; the
    call on an absent or already spent slot returns the sentinel and
    changes nothing. *)
Theorem C8_spend_idempotent c index :
  let first := Coins.spend c index in
  let second := Coins.spend first.2 index in
  second.2 = first.2
  /\ second.1 = None
  /\ if Coins.isUnspent c index then
       exists e, Coins.get c index = Some e
                 /\ first.1 = Some (CoinEntry.set_spent e)
                 /\ Coins.get first.2 index = Some (CoinEntry.set_spent e)
                 /\ Coins.isUnspent first.2 index = false
     else first = (None, c).
Proof.
  simpl. destruct (Coins.isUnspent c index) eqn:Hu.
  - destruct (spend_unspent c index Hu) as (e & Hg & Hs & ->). simpl.
    pose proof (get_insert c index e (CoinEntry.set_spent e) Hg) as Hg'.
    assert (Coins.isUnspent
              (Coins.set_outputs c
                 (<[Z.to_nat index := Some (CoinEntry.set_spent e)]>
                    (Coins.outputs c))) index = false) as Hu'.
    { by rewrite isUnspent_get, Hg'. }
    rewrite (spend_not_unspent _ _ Hu'). simpl.
    split; [done|]. split; [done|]. by exists e.
  - rewrite (spend_not_unspent c index Hu). simpl.
    by rewrite (spend_not_unspent c index Hu).
Qed.

(** C10. [spend(i)] on an unspent entry changes nothing but the spent
    flag of that entry: version, hash, height, coinbase, the length of
    [outputs] and every other slot stay, so nothing is trimmed; [remove]
    instead puts a gap in the slot and runs [cleanup], which trims the
    trailing gaps. *)
Theorem C10_spend_frame c index :
  Coins.isUnspent c index = true ->
  let c' := (Coins.spend c index).2 in
  Coins.version c' = Coins.version c
  /\ Coins.hash c' = Coins.hash c
  /\ Coins.height c' = Coins.height c
  /\ Coins.coinbase c' = Coins.coinbase c
  /\ length (Coins.outputs c') = length (Coins.outputs c)
  /\ (forall j : nat, j <> Z.to_nat index ->
        Coins.outputs c' !! j = Coins.outputs c !! j)
  /\ (exists e,
        Coins.outputs c !! Z.to_nat index = Some (Some e)
        /\ Coins.outputs c' !! Z.to_nat index
           = Some (Some (CoinEntry.mk (CoinEntry.offset e) (CoinEntry.size e)
                           (CoinEntry.raw e) (CoinEntry.output e) true)))
  /\ (Coins.remove c index).2
     = Coins.cleanup
         (Coins.set_outputs c (<[Z.to_nat index := None]> (Coins.outputs c)))
  /\ Coins.get (Coins.remove c index).2 index = None
  /\ no_trailing_gap (Coins.remove c index).2.
Proof.
  intros Hu. destruct (spend_unspent c index Hu) as (e & Hg & Hs & ->).
  simpl. pose proof Hg as [H0 Hl]%get_Some.
  pose proof (lookup_lt_Some _ _ _ Hl) as Hlt.
  repeat split; try done.
  - apply length_insert.
  - intros j Hj. by apply list_lookup_insert_ne.
  - exists e. split; [done|]. by apply list_lookup_insert_eq.
  - unfold Coins.remove. by rewrite Hg.
  - unfold Coins.remove. rewrite Hg. simpl. rewrite get_cleanup.
    apply get_None. right. left. simpl. by apply list_lookup_insert_eq.
  - unfold Coins.remove. rewrite Hg. apply cleanup_no_trailing_gap.
Qed.

Lemma C10_spend_frame_example :
  Coins.isUnspent example_three 2 = true
  /\ length (Coins.outputs (Coins.spend example_three 2).2) = 3%nat
  /\ length (Coins.outputs (Coins.remove example_three 2).2) = 1%nat.
Proof.
  split; [reflexivity|].
  destruct (C10_spend_frame example_three 2 eq_refl)
    as (_ & _ & _ & _ & Hlen & _ & _ & Hrm & _).
  split; [exact Hlen|]. rewrite Hrm. reflexivity.
Defined.

End Spend.

(** ** The cleanup invariant *)

Section CleanupInvariant.

Context `{Codec}.

(** C6, as the code has it.  A mutation ([add], [addOutput], [addCoin],
    [spend], [remove], [cleanup]) of a record whose [outputs] does not
    end in a gap yields a record whose [outputs] does not end in a gap:
    the last element, when there is one, is an entry, possibly one that
    is marked spent.  [length()] is at most [outputs.length], and they
    are equal exactly when [outputs] is empty or its last entry is not
    marked spent. *)
Theorem C6_mutation_no_trailing_gap (c c' : Coins.t) :
  no_trailing_gap c ->
  mutation c c' ->
  no_trailing_gap c'
  /\ (Coins.length c' <= length (Coins.outputs c'))%nat
  /\ (length (Coins.outputs c') = Coins.length c'
      <-> Coins.outputs c' = [] \/ last_live c').
Proof.
  intros Hc Hm. split; [|split].
  - destruct Hm as [index entry c' Ha|index output c' Ha|coin c' Ha
                   |index|index|].
    + by eapply add_no_trailing_gap.
    + unfold Coins.addOutput in Ha. apply bind_Ok in Ha as (_ & _ & Ha).
      by eapply add_no_trailing_gap.
    + unfold Coins.addCoin in Ha. apply bind_Ok in Ha as (_ & _ & Ha).
      by eapply add_no_trailing_gap.
    + by apply spend_no_trailing_gap.
    + by apply remove_no_trailing_gap.
    + apply cleanup_no_trailing_gap.
  - apply length_le.
  - rewrite last_live_isUnspent, <- length_eq_outputs. split; congruence.
Qed.

End CleanupInvariant.

Lemma C6_mutation_no_trailing_gap_example :
  no_trailing_gap (Coins.spend example_single 0).2
  /\ (Coins.length (Coins.spend example_single 0).2 <= 1)%nat.
Proof.
  destruct (C6_mutation_no_trailing_gap (H := Reference.codec)
              example_single (Coins.spend example_single 0).2)
    as (Hgap & Hle & _).
  - discriminate.
  - constructor.
  - split; [exact Hgap|exact Hle].
Defined.

(** C6 as stated fails: after [spend(0)] on a record whose only output is
    unspent, [outputs.length] is 1 and [length()] is 0, and the last
    element of [outputs] is marked spent. *)
Lemma C6_spend_last_counterexample :
  let c' := (Coins.spend example_single 0).2 in
  mutation (H := Reference.codec) example_single c'
  /\ length (Coins.outputs c') = 1%nat
  /\ Coins.length c' = 0%nat
  /\ ~ (length (Coins.outputs c') = Coins.length c' /\ last_live c').
Proof.
  simpl. split; [apply (mutation_spend example_single 0)|].
  split; [reflexivity|]. split; [reflexivity|].
  intros [Hlen _]. discriminate Hlen.
Qed.

(** ** The header code *)

Lemma land_mod_pow2 (z m k : Z) :
  0 <= k -> 0 <= m < 2 ^ k -> Z.land z m = Z.land (z mod 2 ^ k) m.
Proof.
  intros Hk Hm.
  rewrite <- (Z.land_ones z k) by lia.
  rewrite <- Z.land_assoc. f_equal.
  rewrite Z.land_comm, Z.land_ones by lia.
  rewrite Z.mod_small; lia.
Qed.

Lemma recalc_size_shift (code : Z) :
  0 <= code < 2 ^ 34 ->
  Coins.recalc_size code
  = Z.shiftr code 3 + (if Z.land code 6 =? 0 then 1 else 0).
Proof.
  intros Hc. unfold Coins.recalc_size.
  rewrite land_ToInt32 by lia.
  rewrite Z.quot_div_nonneg, Z.shiftr_div_pow2 by lia.
  change (2 ^ 3) with 8.
  assert (0 <= code / 8 < 2 ^ 31) as Hq.
  { split; [apply Z.div_pos; lia|apply Z.div_lt_upper_bound; lia]. }
  rewrite ToInt32_small by lia.
  case_match; lia.
Qed.

(** The low three bits of a header code. *)
Lemma land_code_low (high : Z) (cb first second : bool) (m : Z) :
  0 <= m < 8 ->
  Z.land (8 * high + Z.b2z cb + 2 * Z.b2z first + 4 * Z.b2z second) m
  = Z.land (Z.b2z cb + 2 * Z.b2z first + 4 * Z.b2z second) m.
Proof.
  intros Hm. rewrite (land_mod_pow2 _ m 3) by (simpl; lia).
  f_equal. change (2 ^ 3) with 8. symmetry.
  apply (Z.mod_unique _ 8 high); [|lia].
  left. destruct cb, first, second; simpl; lia.
Qed.

Lemma header_Ok (c : Coins.t) (len size : Z) :
  len <> 0 ->
  (Coins.isUnspent c 0 = false -> Coins.isUnspent c 1 = false -> size <> 0) ->
  Coins.header c len size
  = Ok (8 * (size - (if negb (Coins.isUnspent c 0) && negb (Coins.isUnspent c 1)
                     then 1 else 0))
        + Z.b2z (Coins.coinbase c)
        + 2 * Z.b2z (Coins.isUnspent c 0)
        + 4 * Z.b2z (Coins.isUnspent c 1)).
Proof.
  intros Hlen Hsize. unfold Coins.header, assert.
  destruct (Z.eqb_spec len 0) as [|_]; [done|]. simpl.
  destruct (Coins.isUnspent c 0), (Coins.isUnspent c 1), (Coins.coinbase c);
    simpl; try (f_equal; lia);
    (destruct (Z.eqb_spec size 0) as [Hz|_];
     [by apply Hsize in Hz|simpl; f_equal; lia]).
Qed.

(** A record with an unspent output above the first two has at least
    three slots in use. *)
Lemma length_ge_3 (c : Coins.t) :
  Coins.length c <> 0%nat ->
  Coins.isUnspent c 0 = false -> Coins.isUnspent c 1 = false ->
  (3 <= Coins.length c)%nat.
Proof.
  intros Hlen H0 H1.
  pose proof (isUnspent_last c ltac:(lia)) as Hu.
  destruct (Coins.length c) as [|[|[|n]]]; [done|..|lia].
  - change (Z.of_nat (1 - 1)) with 0 in Hu. congruence.
  - change (Z.of_nat (2 - 1)) with 1 in Hu. congruence.
Qed.

Lemma spent_size_bounds (c : Coins.t) :
  Z.of_nat (length (Coins.outputs c)) < 2 ^ 32 ->
  0 <= spent_size c < 2 ^ 30
  /\ (Coins.length c <> 0%nat ->
      Coins.isUnspent c 0 = false -> Coins.isUnspent c 1 = false ->
      1 <= spent_size c).
Proof.
  intros Hmax. pose proof (length_le c) as Hle. unfold spent_size.
  change (2 ^ 32) with 4294967296 in Hmax. change (2 ^ 30) with 1073741824.
  split; [split|].
  - apply Z.div_pos; lia.
  - apply Z.div_lt_upper_bound; lia.
  - intros Hlen H0 H1. pose proof (length_ge_3 c Hlen H0 H1).
    apply Z.div_le_lower_bound; lia.
Qed.

(** The header code of a record that is not fully spent, and what the
    decoder reads off it. *)
Lemma header_code_spec (c : Coins.t) :
  Z.of_nat (length (Coins.outputs c)) < 2 ^ 32 ->
  Coins.length c <> 0%nat ->
  Coins.header c (Z.of_nat (Coins.length c)) (spent_size c)
  = Ok (header_code c)
  /\ 0 <= header_code c < 2 ^ 34
  /\ Z.shiftr (header_code c) 3
     = spent_size c
       - (if negb (Coins.isUnspent c 0) && negb (Coins.isUnspent c 1)
          then 1 else 0)
  /\ Z.land (header_code c) 6
     = 2 * Z.b2z (Coins.isUnspent c 0) + 4 * Z.b2z (Coins.isUnspent c 1)
  /\ Coins.recalc_size (header_code c) = spent_size c
  /\ Coins.code_bit (header_code c) 1 = Coins.coinbase c
  /\ Coins.code_bit (header_code c) 2 = Coins.isUnspent c 0
  /\ Coins.code_bit (header_code c) 4 = Coins.isUnspent c 1.
Proof.
  intros Hmax Hlen.
  destruct (spent_size_bounds c Hmax) as [HS Hthree].
  specialize (Hthree Hlen).
  change (2 ^ 30) with 1073741824 in HS.
  assert (0 <= header_code c < 2 ^ 34) as Hcode.
  { change (2 ^ 34) with 17179869184. unfold header_code.
    destruct (Coins.coinbase c), (Coins.isUnspent c 0), (Coins.isUnspent c 1);
      simpl in *; lia. }
  assert (Z.shiftr (header_code c) 3
          = spent_size c
            - (if negb (Coins.isUnspent c 0) && negb (Coins.isUnspent c 1)
               then 1 else 0)) as Hshift.
  { rewrite Z.shiftr_div_pow2 by lia. change (2 ^ 3) with 8.
    unfold header_code. symmetry.
    apply (Z.div_unique _ 8 _
      (Z.b2z (Coins.coinbase c) + 2 * Z.b2z (Coins.isUnspent c 0)
       + 4 * Z.b2z (Coins.isUnspent c 1))); [|lia].
    destruct (Coins.coinbase c), (Coins.isUnspent c 0), (Coins.isUnspent c 1);
      simpl; lia. }
  assert (forall m, 0 <= m < 8 ->
            Z.land (header_code c) m
            = Z.land (Z.b2z (Coins.coinbase c)
                      + 2 * Z.b2z (Coins.isUnspent c 0)
                      + 4 * Z.b2z (Coins.isUnspent c 1)) m) as Hland.
  { intros m Hm. by apply land_code_low. }
  split; [|split; [done|split; [done|split; [|split; [|split; [|split]]]]]].
  - apply header_Ok; [lia|]. intros H0 H1. specialize (Hthree H0 H1). lia.
  - rewrite Hland by lia.
    by destruct (Coins.coinbase c), (Coins.isUnspent c 0),
      (Coins.isUnspent c 1).
  - rewrite (recalc_size_shift _ Hcode), Hshift, Hland by lia.
    by destruct (Coins.coinbase c), (Coins.isUnspent c 0),
      (Coins.isUnspent c 1); simpl; lia.
  - unfold Coins.code_bit. rewrite land_ToInt32, Hland by (simpl; lia).
    by destruct (Coins.coinbase c), (Coins.isUnspent c 0),
      (Coins.isUnspent c 1).
  - unfold Coins.code_bit. rewrite land_ToInt32, Hland by (simpl; lia).
    by destruct (Coins.coinbase c), (Coins.isUnspent c 0),
      (Coins.isUnspent c 1).
  - unfold Coins.code_bit. rewrite land_ToInt32, Hland by (simpl; lia).
    by destruct (Coins.coinbase c), (Coins.isUnspent c 0),
      (Coins.isUnspent c 1).
Qed.

(** C3. When neither output 0 nor output 1 is unspent the high part of
    the header code is [S - 1] (so [S >= 1]; [header] asserts that [S] is
    not zero), otherwise it is [S]; the decoder takes [code >> 3] and adds
    1 exactly when [(code & 6) == 0]; so decoding the code of a record
    gives back the [S] it was encoded with. *)
Theorem C3_header_offset_correction (c : Coins.t) :
  Z.of_nat (length (Coins.outputs c)) < 2 ^ 32 ->
  Coins.length c <> 0%nat ->
  let len := Z.of_nat (Coins.length c) in
  let S := (len + 5) / 8 in
  exists code,
    Coins.header c len S = Ok code
    /\ Coins.recalc_size code = S
    /\ Coins.recalc_size code
       = Z.shiftr code 3 + (if Z.land code 6 =? 0 then 1 else 0)
    /\ if negb (Coins.isUnspent c 0) && negb (Coins.isUnspent c 1)
       then 1 <= S /\ Z.shiftr code 3 = S - 1 /\ Z.land code 6 = 0
            /\ Coins.header c len 0 = Err (AssertionError None)
       else Z.shiftr code 3 = S /\ Z.land code 6 <> 0.
Proof.
  intros Hmax Hlen len S.
  destruct (header_code_spec c Hmax Hlen)
    as (Hh & Hcode & Hshift & Hland & Hrec & _).
  destruct (spent_size_bounds c Hmax) as [_ Hthree].
  specialize (Hthree Hlen).
  assert (S = spent_size c) as HS by reflexivity. clearbody S. subst S.
  exists (header_code c). split; [done|]. split; [done|].
  split; [by apply recalc_size_shift|].
  rewrite Hshift, Hland.
  destruct (Coins.isUnspent c 0) eqn:Hf, (Coins.isUnspent c 1) eqn:Hs; simpl.
  - split; lia.
  - split; lia.
  - split; lia.
  - split; [by apply Hthree|]. split; [done|]. split; [done|].
    unfold Coins.header, assert. rewrite Hf, Hs. simpl.
    destruct (Z.eqb_spec len 0); [subst len; lia|done].
Qed.

Lemma C3_header_offset_correction_example :
  exists code,
    Coins.header example_three 3 1 = Ok code /\ Coins.recalc_size code = 1.
Proof.
  destruct (C3_header_offset_correction example_three)
    as (code & Hh & Hr & _).
  - simpl. lia.
  - discriminate.
  - exists code. split; [exact Hh|exact Hr].
Defined.

(** ** Failures *)

Section Failures.

Context `{Codec}.

(** C5. For a record with [length() == 0], [toRaw] fails with the
    assertion message of [header], raised before the writer exists, so
    no byte is written. *)
Theorem C5_toRaw_fully_spent (c : Coins.t) :
  Coins.length c = 0%nat ->
  Coins.toRaw c
  = Err (AssertionError (Some "Cannot serialize fully-spent coins."))
  /\ forall size,
       Coins.header c 0 size
       = Err (AssertionError (Some "Cannot serialize fully-spent coins.")).
Proof.
  intros Hlen. split.
  - unfold Coins.toRaw. rewrite Hlen. reflexivity.
  - reflexivity.
Qed.

Lemma fromTX_get (c : Coins.t) (tx : TX) (height : Z) (i : nat) :
  Coins.get (Coins.fromTX c tx height)
    (Z.of_nat (length (Coins.outputs c) + i))
  = mjoin ((fun output : Output =>
              if isUnspendable (script output) then None
              else Some (CoinEntry.fromOutput output)) <$> tx_outputs tx !! i).
Proof.
  unfold Coins.fromTX. rewrite get_cleanup.
  set (f := fun output : Output => _).
  set (c' := Coins.mk _ _ _ _ _).
  assert (Coins.outputs c' !! (length (Coins.outputs c) + i)%nat
          = f <$> tx_outputs tx !! i) as Hl.
  { subst c'. simpl. by rewrite lookup_app_r, list_lookup_fmap,
      Nat.add_comm, Nat.add_sub by lia. }
  destruct (tx_outputs tx !! i) as [o|]; simpl in *.
  - destruct (f o) as [e|] eqn:Hf.
    + apply get_Some. rewrite Nat2Z.id. split; [lia|done].
    + apply get_None. rewrite Nat2Z.id. auto.
  - apply get_None. rewrite Nat2Z.id. auto.
Qed.

(** C9. An output whose script is unspendable is rejected by [addOutput]
    and by [addCoin] with an assertion, and [fromTX] leaves its slot a
    gap: no entry can be read at its index, for every transaction and
    every position of the output. *)
Theorem C9_unspendable_never_stored (output : Output) :
  isUnspendable (script output) = true ->
  (forall c index,
      Coins.addOutput c index output = Err (AssertionError None))
  /\ (forall c coin,
        coin_script coin = script output ->
        Coins.addCoin c coin = Err (AssertionError None))
  /\ (forall c tx height i,
        tx_outputs tx !! i = Some output ->
        let slot := Z.of_nat (length (Coins.outputs c) + i) in
        Coins.get (Coins.fromTX c tx height) slot = None
        /\ Coins.has (Coins.fromTX c tx height) slot = false
        /\ Coins.isUnspent (Coins.fromTX c tx height) slot = false)
  /\ (forall tx height i,
        tx_outputs tx !! i = Some output ->
        Coins.get (Coins.static_fromTX tx height) (Z.of_nat i) = None).
Proof.
  intros Hu. split; [|split; [|split]].
  - intros c index. unfold Coins.addOutput. by rewrite Hu.
  - intros c coin Hs. unfold Coins.addCoin. by rewrite Hs, Hu.
  - intros c tx height i Hi slot.
    assert (Coins.get (Coins.fromTX c tx height) slot = None) as Hg.
    { subst slot. rewrite fromTX_get, Hi. simpl. by rewrite Hu. }
    by rewrite has_get, isUnspent_get, Hg.
  - intros tx height i Hi. unfold Coins.static_fromTX.
    pose proof (fromTX_get Coins.new tx height i) as Hg.
    simpl in Hg. rewrite Hg, Hi. simpl. by rewrite Hu.
Qed.

End Failures.

Lemma C5_toRaw_fully_spent_example :
  Coins.toRaw (H := Reference.codec) (Coins.spend example_single 0).2
  = Err (AssertionError (Some "Cannot serialize fully-spent coins.")).
Proof.
  apply (C5_toRaw_fully_spent (H := Reference.codec)
           (Coins.spend example_single 0).2).
  reflexivity.
Defined.

Lemma C9_unspendable_never_stored_example :
  Coins.addOutput (H := Reference.codec) Coins.new 0 example_nulldata
  = Err (AssertionError None)
  /\ Coins.get (Coins.static_fromTX (H := Reference.codec) example_tx 100) 1
     = None.
Proof.
  destruct (C9_unspendable_never_stored (H := Reference.codec)
              example_nulldata eq_refl) as (Hadd & _ & _ & Htx).
  split; [apply Hadd|]. apply (Htx example_tx 100 1%nat). reflexivity.
Defined.

(** ** The loops of [fromRaw] and [parseCoin] as walks *)

Section WalkLemmas.
Context `{Codec}.

Implicit Types (data : Buffer) (bits : list bool) (br : BufferReader.t).

Lemma decode_walk_app data bits1 bits2 (pos : nat) :
  decode_walk data (bits1 ++ bits2) pos
  = '(slots1, pos1) ← decode_walk data bits1 pos;
    '(slots2, pos2) ← decode_walk data bits2 pos1;
    Ok (slots1 ++ slots2, pos2).
Proof.
  revert pos. induction bits1 as [|[] bits1 IH]; intros pos; simpl.
  - by destruct (decode_walk data bits2 pos) as [[slots2 pos2]|].
  - destruct (skip_at data pos) as [sz|]; [simpl|done]. rewrite IH.
    destruct (decode_walk data bits1 (pos + sz)) as [[slots1 pos1]|];
      [simpl|done].
    by destruct (decode_walk data bits2 pos1) as [[slots2 pos2]|].
  - rewrite IH.
    destruct (decode_walk data bits1 pos) as [[slots1 pos1]|]; [simpl|done].
    by destruct (decode_walk data bits2 pos1) as [[slots2 pos2]|].
Qed.

Lemma decode_walk_length data bits (pos : nat) slots (pos' : nat) :
  decode_walk data bits pos = Ok (slots, pos') ->
  length slots = length bits.
Proof.
  revert pos slots. induction bits as [|[] bits IH]; intros pos slots; simpl.
  - by intros [= <- _].
  - destruct (skip_at data pos) as [sz|]; [simpl|done].
    destruct (decode_walk data bits (pos + sz)) as [[slots1 pos1]|] eqn:Hw;
      [simpl|done].
    intros [= <- <-]. simpl. f_equal. by eapply IH.
  - destruct (decode_walk data bits pos) as [[slots1 pos1]|] eqn:Hw;
      [simpl|done].
    intros [= <- <-]. simpl. f_equal. by eapply IH.
Qed.

(** The inner loop of [fromRaw] walks the bits of its byte. *)
Lemma read_bits_walk (ch : Z) (j fuel : nat) outs br :
  Coins.read_bits ch j fuel outs br
  = '(slots, pos) ← decode_walk (BufferReader.data br)
                      (bit_set ch <$> seq j fuel) (BufferReader.offset br);
    Ok (outs ++ slots, BufferReader.mk (BufferReader.data br) pos).
Proof.
  revert j outs br. induction fuel as [|fuel IH]; intros j outs [data pos].
  - simpl. by rewrite app_nil_r.
  - simpl. unfold bit_set at 1.
    destruct (Z.land ch (Z.shiftl 1 (Z.of_nat j)) =? 0); simpl.
    + rewrite IH. simpl.
      destruct (decode_walk data _ pos) as [[slots pos']|]; [simpl|done].
      by rewrite <- app_assoc.
    + unfold CoinEntry.fromReader, BufferReader.decompress_skip. simpl.
      destruct (skip_at data pos) as [sz|]; [simpl|done].
      rewrite IH. simpl.
      destruct (decode_walk data _ (pos + sz)) as [[slots pos']|];
        [simpl|done].
      by rewrite <- app_assoc.
Qed.

Lemma spent_bits_S data (offset n : nat) :
  spent_bits data offset (S n)
  = byte_bits (byte_at data offset) ++ spent_bits data (S offset) n.
Proof. reflexivity. Qed.

(** The outer loop of [fromRaw] walks the bits of the spent field. *)
Lemma read_spent_walk (offset n : nat) outs br :
  Coins.read_spent offset n outs br
  = '(slots, pos) ← decode_walk (BufferReader.data br)
                      (spent_bits (BufferReader.data br) offset n)
                      (BufferReader.offset br);
    Ok (outs ++ slots, BufferReader.mk (BufferReader.data br) pos).
Proof.
  revert offset outs br. induction n as [|n IH]; intros offset outs [data pos].
  - simpl. by rewrite app_nil_r.
  - rewrite spent_bits_S.
    change (Coins.read_spent offset (S n) outs (BufferReader.mk data pos))
      with ('(outs', br') ← Coins.read_bits (byte_at data offset) 0 8 outs
                              (BufferReader.mk data pos);
            Coins.read_spent (S offset) n outs' br').
    rewrite read_bits_walk. cbn [BufferReader.data BufferReader.offset].
    rewrite decode_walk_app. fold (byte_bits (byte_at data offset)).
    destruct (decode_walk data (byte_bits _) pos) as [[slots1 pos1]|];
      [|done].
    cbn [mbind result_bind]. rewrite IH.
    cbn [BufferReader.data BufferReader.offset].
    destruct (decode_walk data (spent_bits _ _ _) pos1) as [[slots2 pos2]|];
      [|done].
    cbn [mbind result_bind]. by rewrite <- app_assoc.
Qed.

Lemma parse_walk_app bits1 bits2 coin br index :
  parse_walk (bits1 ++ bits2) coin br index
  = r ← parse_walk bits1 coin br index;
    match r with
    | inl found => Ok (inl found)
    | inr (br', index') => parse_walk bits2 coin br' index'
    end.
Proof.
  revert br index. induction bits1 as [|b bits1 IH]; intros br index; simpl.
  - done.
  - destruct (Coins.parse_slot b coin br index) as [[found|[br' index']]|];
      simpl; [done| |done].
    apply IH.
Qed.

Lemma parse_bits_walk (ch : Z) (j fuel : nat) coin br index :
  Coins.parse_bits ch j fuel coin br index
  = parse_walk (bit_set ch <$> seq j fuel) coin br index.
Proof.
  revert j br index. induction fuel as [|fuel IH]; intros j br index; simpl.
  - done.
  - fold (bit_set ch j).
    destruct (Coins.parse_slot _ coin br index) as [[found|[br' index']]|];
      simpl; [done| |done].
    apply IH.
Qed.

Lemma parse_walk_data bits coin br index br' index' :
  parse_walk bits coin br index = Ok (inr (br', index')) ->
  BufferReader.data br' = BufferReader.data br.
Proof.
  revert br index. induction bits as [|b bits IH]; intros br index; simpl.
  - by intros [= <- _].
  - unfold Coins.parse_slot, BufferReader.decompress_skip,
      BufferReader.decompress_coin.
    destruct b, (index =? 0); simpl.
    + by destruct (decompress_at _ _).
    + destruct (skip_at _ _) as [sz|]; [simpl|done].
      intros Hw. by apply IH in Hw.
    + done.
    + apply IH.
Qed.

Lemma parse_spent_walk (offset n : nat) coin br index :
  Coins.parse_spent offset n coin br index
  = parse_walk (spent_bits (BufferReader.data br) offset n) coin br index.
Proof.
  revert offset br index. induction n as [|n IH]; intros offset br index.
  - done.
  - rewrite spent_bits_S, parse_walk_app.
    change (Coins.parse_spent offset (S n) coin br index)
      with (r ← Coins.parse_bits (byte_at (BufferReader.data br) offset) 0 8
                  coin br index;
            match r with
            | inl found => Ok (inl found)
            | inr (br', index') =>
                Coins.parse_spent (S offset) n coin br' index'
            end).
    rewrite parse_bits_walk. fold (byte_bits (byte_at (BufferReader.data br) offset)).
    destruct (parse_walk (byte_bits _) coin br index)
      as [[found|[br' index']]|] eqn:Hw; [done| |done].
    cbn [mbind result_bind].
    rewrite IH. by rewrite (parse_walk_data _ _ _ _ _ _ Hw).
Qed.

Lemma parse_first_walk (code : Z) coin br index :
  Coins.parse_first code 0 2 coin br index
  = parse_walk [Coins.code_bit code 2; Coins.code_bit code 4] coin br index.
Proof.
  simpl. change (Z.shiftl 2 (Z.of_nat 0)) with 2.
  change (Z.shiftl 2 (Z.of_nat 1)) with 4.
  destruct (Coins.parse_slot _ coin br index) as [[found|[br' index']]|];
    simpl; [done| |done].
  by destruct (Coins.parse_slot _ coin br' index') as [[found|[br2 index2]]|].
Qed.

End WalkLemmas.

(** ** [fromRaw] and [parseCoin] as walks over the slots *)

Section Decoding.
Context `{Codec}.

Implicit Types (data : Buffer) (bits : list bool) (br : BufferReader.t).

Ltac walk_step :=
  cbn [mbind result_bind BufferReader.data BufferReader.offset decode_walk].

Lemma readVarint_data br n br' :
  BufferReader.readVarint br = Ok (n, br') ->
  BufferReader.data br' = BufferReader.data br.
Proof.
  unfold BufferReader.readVarint.
  destruct (varint_read _ _) as [[n' sz]|]; [simpl|done]. by intros [= _ <-].
Qed.

Lemma readU32_data br n br' :
  BufferReader.readU32 br = Ok (n, br') ->
  BufferReader.data br' = BufferReader.data br.
Proof.
  unfold BufferReader.readU32.
  destruct (slice _ _ _) as [|b0 [|b1 [|b2 [|b3 [|b4 rest]]]]]; try done.
  by intros [= _ <-].
Qed.

Lemma seek_data br off br' :
  BufferReader.seek br off = Ok br' ->
  BufferReader.data br' = BufferReader.data br.
Proof.
  unfold BufferReader.seek. case_match; [|done]. by intros [= <-].
Qed.

Lemma fromRaw_walk (c : Coins.t) data (hash : string) :
  Coins.fromRaw c data hash
  = '(version, height, code, offset) ← read_header data;
    br ← BufferReader.seek (BufferReader.mk data offset)
           (Coins.recalc_size code);
    '(slots, _) ← decode_walk data (slot_bits data code offset)
                    (BufferReader.offset br);
    Ok (Coins.cleanup
          (Coins.mk version hash height (Coins.code_bit code 1)
             (Coins.outputs c ++ slots))).
Proof.
  unfold Coins.fromRaw, read_header.
  destruct (BufferReader.readVarint (BufferReader.new data))
    as [[version br1]|] eqn:H1; [|done].
  cbn [mbind result_bind].
  destruct (BufferReader.readU32 br1) as [[height br2]|] eqn:H2; [|done].
  cbn [mbind result_bind].
  destruct (BufferReader.readVarint br2) as [[code br3]|] eqn:H3; [|done].
  cbn [mbind result_bind].
  assert (BufferReader.data br3 = data) as Hd3.
  { rewrite (readVarint_data _ _ _ H3), (readU32_data _ _ _ H2).
    by rewrite (readVarint_data _ _ _ H1). }
  replace (BufferReader.mk data (BufferReader.offset br3)) with br3
    by (destruct br3; simpl in *; by subst).
  destruct (BufferReader.seek br3 (Coins.recalc_size code)) as [br4|] eqn:H4;
    [|done].
  cbn [mbind result_bind].
  assert (BufferReader.data br4 = data) as Hd4
    by (by rewrite (seek_data _ _ _ H4)).
  destruct br4 as [data4 pos4]. simpl in Hd4. subst data4.
  cbn [BufferReader.offset]. unfold slot_bits.
  set (n := Z.to_nat (Coins.recalc_size code)).
  set (cb := Coins.code_bit code 1).
  change ([Coins.code_bit code 2; Coins.code_bit code 4] ++ spent_bits data (BufferReader.offset br3) n)
    with (Coins.code_bit code 2 :: Coins.code_bit code 4
          :: spent_bits data (BufferReader.offset br3) n).
  unfold CoinEntry.fromReader, BufferReader.decompress_skip.
  destruct (Coins.code_bit code 2), (Coins.code_bit code 4); walk_step;
    repeat (destruct (skip_at data _) as [?|]; [walk_step|reflexivity]);
    rewrite read_spent_walk; walk_step;
    (destruct (decode_walk data _ _) as [[slots pos]|]; [|reflexivity]);
    walk_step; rewrite <- app_assoc; reflexivity.
Qed.

Lemma parseCoin_walk data (hash : string) (index : Z) :
  Coins.parseCoin data hash index
  = '(version, height, code, offset) ← read_header data;
    if 2 + Coins.recalc_size code * 8 <=? index then Ok None
    else
      br ← BufferReader.seek (BufferReader.mk data offset)
             (Coins.recalc_size code);
      r ← parse_walk (slot_bits data code offset)
            (mkCoin version height 0 [] (Coins.code_bit code 1) hash index)
            br index;
      match r with
      | inl found => Ok found
      | inr _ => Ok None
      end.
Proof.
  unfold Coins.parseCoin, read_header.
  destruct (BufferReader.readVarint (BufferReader.new data))
    as [[version br1]|] eqn:H1; [|done].
  cbn [mbind result_bind].
  destruct (BufferReader.readU32 br1) as [[height br2]|] eqn:H2; [|done].
  cbn [mbind result_bind].
  destruct (BufferReader.readVarint br2) as [[code br3]|] eqn:H3; [|done].
  cbn [mbind result_bind].
  assert (BufferReader.data br3 = data) as Hd3.
  { rewrite (readVarint_data _ _ _ H3), (readU32_data _ _ _ H2).
    by rewrite (readVarint_data _ _ _ H1). }
  replace (BufferReader.mk data (BufferReader.offset br3)) with br3
    by (destruct br3; simpl in *; by subst).
  case_match; [done|].
  destruct (BufferReader.seek br3 (Coins.recalc_size code)) as [br4|] eqn:H4;
    [|done].
  cbn [mbind result_bind].
  assert (BufferReader.data br4 = data) as Hd4
    by (by rewrite (seek_data _ _ _ H4)).
  unfold slot_bits. rewrite parse_walk_app, parse_first_walk.
  cbn [new_Coin coin_version coin_height coin_value coin_script
       coin_coinbase coin_hash coin_index].
  destruct (parse_walk [_; _] _ br4 index) as [[found|[br5 index5]]|] eqn:Hw;
    [done| |done].
  cbn [mbind result_bind]. rewrite parse_spent_walk.
  by rewrite (parse_walk_data _ _ _ _ _ _ Hw), Hd4.
Qed.

(** Where [fromRaw] finds the entries, [parseCoin] finds the coin. *)
Lemma parse_walk_decode data bits coin (pos : nat) index slots (pos' : nat) :
  decode_walk data bits pos = Ok (slots, pos') ->
  parse_walk bits coin (BufferReader.mk data pos) index
  = if decide (0 <= index < Z.of_nat (length bits)) then
      match slots !! Z.to_nat index with
      | Some (Some e) =>
          coin' ← BufferReader.decompress_coin coin
                    (BufferReader.mk data (CoinEntry.offset e));
          Ok (inl (Some coin'))
      | _ => Ok (inl None)
      end
    else Ok (inr (BufferReader.mk data pos', index - Z.of_nat (length bits))).
Proof.
  revert pos index slots.
  induction bits as [|b bits IH]; intros pos index slots.
  - simpl. intros [= <- <-]. case_decide; [lia|]. do 3 f_equal. lia.
  - cbn [decode_walk parse_walk]. unfold Coins.parse_slot.
    destruct b.
    + destruct (skip_at data pos) as [sz|] eqn:Hs; [|done].
      cbn [mbind result_bind].
      destruct (decode_walk data bits (pos + sz)) as [[slots1 pos1]|] eqn:Hw;
        [|done].
      cbn [mbind result_bind]. intros [= <- <-].
      destruct (Z.eqb_spec index 0) as [->|Hne].
      * rewrite decide_True by (simpl; lia). simpl.
        by destruct (BufferReader.decompress_coin _ _).
      * unfold BufferReader.decompress_skip.
        cbn [BufferReader.data BufferReader.offset]. rewrite Hs.
        cbn [mbind result_bind]. rewrite (IH _ _ _ Hw).
        cbn [length]. repeat case_decide; try lia.
        -- replace (Z.to_nat index) with (S (Z.to_nat (index - 1))) by lia.
           done.
        -- do 3 f_equal. lia.
    + destruct (decode_walk data bits pos) as [[slots1 pos1]|] eqn:Hw;
        [|done].
      cbn [mbind result_bind]. intros [= <- <-].
      destruct (Z.eqb_spec index 0) as [->|Hne].
      * rewrite decide_True by (simpl; lia). done.
      * cbn [mbind result_bind]. rewrite (IH _ _ _ Hw).
        cbn [length]. repeat case_decide; try lia.
        -- replace (Z.to_nat index) with (S (Z.to_nat (index - 1))) by lia.
           done.
        -- do 3 f_equal. lia.
Qed.

(** The entries [fromRaw] builds point into the buffer and are neither
    materialized nor spent. *)
Lemma decode_walk_entry data bits (pos : nat) slots (pos' : nat) (k : nat) e :
  decode_walk data bits pos = Ok (slots, pos') ->
  slots !! k = Some (Some e) ->
  CoinEntry.raw e = Some data /\ CoinEntry.output e = None
  /\ CoinEntry.spent e = false
  /\ skip_at data (CoinEntry.offset e) = Ok (CoinEntry.size e).
Proof.
  revert pos slots k. induction bits as [|[] bits IH]; intros pos slots k.
  - simpl. by intros [= <- <-].
  - cbn [decode_walk]. destruct (skip_at data pos) as [sz|] eqn:Hs; [|done].
    cbn [mbind result_bind].
    destruct (decode_walk data bits (pos + sz)) as [[slots1 pos1]|] eqn:Hw;
      [|done].
    cbn [mbind result_bind]. intros [= <- <-].
    destruct k as [|k]; simpl.
    + by intros [= <-].
    + by eapply IH.
  - cbn [decode_walk].
    destruct (decode_walk data bits pos) as [[slots1 pos1]|] eqn:Hw; [|done].
    cbn [mbind result_bind]. intros [= <- <-].
    destruct k as [|k]; simpl; [done|]. by eapply IH.
Qed.

End Decoding.

(** ** The fast path against the full decoding *)

Section FastPath.
Context `{Codec}.

Implicit Types (data : Buffer) (bits : list bool) (br : BufferReader.t).

Lemma seek_Ok br (off : Z) br' :
  BufferReader.seek br off = Ok br' ->
  0 <= Z.of_nat (BufferReader.offset br) + off
       <= Z.of_nat (length (BufferReader.data br))
  /\ br' = BufferReader.mk (BufferReader.data br)
             (Z.to_nat (Z.of_nat (BufferReader.offset br) + off)).
Proof.
  unfold BufferReader.seek.
  destruct (Z.leb_spec 0 (Z.of_nat (BufferReader.offset br) + off));
    destruct (Z.leb_spec (Z.of_nat (BufferReader.offset br) + off)
                (Z.of_nat (length (BufferReader.data br))));
    simpl; try done.
  intros [= <-]. split; [lia|done].
Qed.

Lemma length_byte_bits (ch : Z) : length (byte_bits ch) = 8%nat.
Proof. reflexivity. Qed.

Lemma length_spent_bits data (offset n : nat) :
  length (spent_bits data offset n) = (8 * n)%nat.
Proof.
  revert offset. induction n as [|n IH]; intros offset; [done|].
  rewrite spent_bits_S, length_app, length_byte_bits, IH. lia.
Qed.

Lemma length_slot_bits data (code : Z) (offset : nat) :
  length (slot_bits data code offset)
  = (2 + 8 * Z.to_nat (Coins.recalc_size code))%nat.
Proof. unfold slot_bits. by rewrite length_app, length_spent_bits. Qed.

(** What [getCoin] returns for an entry that points into a buffer. *)
Lemma getCoin_raw_entry (c : Coins.t) (index : Z) e data :
  Coins.get c index = Some e ->
  CoinEntry.raw e = Some data -> CoinEntry.output e = None ->
  found_coin (Coins.getCoin c index)
  = o ← decompress_at data (CoinEntry.offset e);
    Ok (Some (mkCoin (Coins.version c) (Coins.height c) (value o) (script o)
                (Coins.coinbase c) (Coins.hash c) index)).
Proof.
  intros Hg Hraw Hout.
  unfold Coins.getCoin, Coins.toCoin, CoinEntry.toOutput, CoinEntry.reader,
    BufferReader.decompress_output.
  rewrite Hg, Hout, Hraw. simpl.
  by destruct (decompress_at data (CoinEntry.offset e)).
Qed.

Lemma getCoin_absent (c : Coins.t) (index : Z) :
  Coins.get c index = None -> found_coin (Coins.getCoin c index) = Ok None.
Proof. intros Hg. unfold Coins.getCoin. by rewrite Hg. Qed.

(** On a buffer that [fromRaw] decodes, [parseCoin] returns what [getCoin]
    returns on the decoded record, provided the size of the spent field
    the header code stands for is not negative. *)
Lemma parseCoin_getCoin data (hash : string) (index : Z) (c' : Coins.t) :
  Coins.static_fromRaw data hash = Ok c' ->
  (forall version height code offset,
      read_header data = Ok (version, height, code, offset) ->
      0 <= Coins.recalc_size code) ->
  Coins.parseCoin data hash index = found_coin (Coins.getCoin c' index).
Proof.
  unfold Coins.static_fromRaw. rewrite fromRaw_walk, parseCoin_walk.
  destruct (read_header data) as [[[[version height] code] offset]|] eqn:Hh;
    [|done].
  cbn [mbind result_bind]. intros Hdec Hsize.
  specialize (Hsize _ _ _ _ eq_refl).
  destruct (BufferReader.seek _ _) as [br|] eqn:Hseek; [|done].
  cbn [mbind result_bind] in *.
  apply seek_Ok in Hseek as [_ ->]. cbn [BufferReader.offset] in Hdec.
  cbn [BufferReader.data BufferReader.offset].
  set (pos := Z.to_nat (Z.of_nat offset + Coins.recalc_size code)) in *.
  destruct (decode_walk data _ pos) as [[slots pos']|] eqn:Hw; [|done].
  cbn [mbind result_bind] in Hdec. injection Hdec as <-.
  pose proof (decode_walk_length _ _ _ _ _ Hw) as Hlen.
  rewrite length_slot_bits in Hlen.
  set (X := Coins.mk _ _ _ _ _) in *.
  assert (forall e, Coins.get (Coins.cleanup X) index = Some e
                    <-> 0 <= index /\ slots !! Z.to_nat index = Some (Some e))
    as Hget.
  { intros e. rewrite get_cleanup, get_Some. done. }
  destruct (Z.leb_spec (2 + Coins.recalc_size code * 8) index) as [Hge|Hlt].
  { rewrite getCoin_absent; [done|].
    rewrite get_cleanup. apply get_None. right. right.
    apply lookup_ge_None_2. subst X. simpl. lia. }
  rewrite (parse_walk_decode _ _ _ _ _ _ _ Hw), length_slot_bits.
  case_decide as Hin.
  - destruct (slots !! Z.to_nat index) as [[e|]|] eqn:Hl.
    + destruct (decode_walk_entry _ _ _ _ _ _ _ Hw Hl) as (Hraw & Hout & _).
      rewrite (getCoin_raw_entry _ _ e data);
        [|apply Hget; split; [lia|done]|done..].
      unfold BufferReader.decompress_coin. simpl.
      by destruct (decompress_at data (CoinEntry.offset e)).
    + rewrite getCoin_absent; [done|].
      rewrite get_cleanup. apply get_None. auto.
    + rewrite getCoin_absent; [done|].
      rewrite get_cleanup. apply get_None. auto.
  - cbn [mbind result_bind]. rewrite getCoin_absent; [done|].
    rewrite get_cleanup. apply get_None. left. lia.
Qed.

(** Past the slots the header code stands for, [parseCoin] answers
    not-found from the header alone. *)
Lemma parseCoin_past_end data (hash : string) (index : Z)
  (version height code : Z) (offset : nat) :
  read_header data = Ok (version, height, code, offset) ->
  2 + 8 * Coins.recalc_size code <= index ->
  Coins.parseCoin data hash index = Ok None.
Proof.
  intros Hh Hge. rewrite parseCoin_walk, Hh. cbn [mbind result_bind].
  destruct (Z.leb_spec (2 + Coins.recalc_size code * 8) index); [done|lia].
Qed.

End FastPath.

(** ** Bytes and bits *)

Lemma byte_to_Z_range (b : byte) : 0 <= byte_to_Z b < 256.
Proof.
  unfold byte_to_Z. pose proof (Byte.to_N_bounded b). lia.
Qed.

Lemma byte_to_of_Z (z : Z) : byte_to_Z (byte_of_Z z) = z mod 256.
Proof.
  unfold byte_to_Z, byte_of_Z.
  pose proof (Z.mod_pos_bound z 256 ltac:(lia)) as Hm.
  pose proof (Byte.to_of_N_option_map (Z.to_N (z mod 256))) as Ho.
  destruct (Byte.of_N (Z.to_N (z mod 256))) as [b|] eqn:Hb; simpl in Ho.
  - destruct (N.leb_spec (Z.to_N (z mod 256)) 255); [|done].
    injection Ho as ->. lia.
  - destruct (N.leb_spec (Z.to_N (z mod 256)) 255); [done|lia].
Qed.

Lemma byte_of_to_Z (b : byte) : byte_of_Z (byte_to_Z b) = b.
Proof.
  unfold byte_of_Z. pose proof (byte_to_Z_range b).
  rewrite Z.mod_small by lia. unfold byte_to_Z.
  by rewrite N2Z.id, Byte.of_to_N.
Qed.

Lemma testbit_small (a n k : Z) :
  0 <= a < 2 ^ n -> 0 <= n <= k -> Z.testbit a k = false.
Proof.
  intros Ha Hk. rewrite <- (Z.mod_small a (2 ^ n)) by done.
  by apply Z.mod_pow2_bits_high.
Qed.

Lemma small_testbit (a n : Z) :
  0 <= n -> 0 <= a -> (forall k, n <= k -> Z.testbit a k = false) ->
  a < 2 ^ n.
Proof.
  intros Hn Ha Hbits.
  assert (a mod 2 ^ n = a) as <-.
  { apply Z.bits_inj'. intros k Hk. rewrite Z.testbit_mod_pow2 by done.
    destruct (Z.ltb_spec k n); [done|]. simpl. symmetry. by apply Hbits. }
  apply Z.mod_pos_bound. by apply Z.pow_pos_nonneg.
Qed.

(** [(ch & (1 << j)) !== 0] tests bit [j] of [ch]. *)
Lemma bit_set_testbit (ch : Z) (j : nat) :
  bit_set ch j = Z.testbit ch (Z.of_nat j).
Proof.
  unfold bit_set. rewrite Z.shiftl_1_l.
  destruct (Z.testbit ch (Z.of_nat j)) eqn:Hb.
  - destruct (Z.eqb_spec (Z.land ch (2 ^ Z.of_nat j)) 0) as [Hz|]; [|done].
    assert (Z.testbit (Z.land ch (2 ^ Z.of_nat j)) (Z.of_nat j) = true) as Ht.
    { rewrite Z.land_spec, Hb, Z.pow2_bits_true; [done|lia]. }
    rewrite Hz, Z.bits_0 in Ht. done.
  - assert (Z.land ch (2 ^ Z.of_nat j) = 0) as ->; [|done].
    apply Z.bits_inj'. intros k Hk.
    rewrite Z.land_spec, Z.bits_0, Z.pow2_bits_eqb by lia.
    destruct (Z.eqb_spec (Z.of_nat j) k) as [<-|]; [by rewrite Hb|].
    apply andb_false_r.
Qed.

(** The byte the inner loop of the spent field builds: bit [k] is the
    state of output [2 + 8i + k]. *)
Lemma spent_byte_bits (c : Coins.t) (len i fuel j : nat) (ch : Z) :
  (j + fuel = 8)%nat ->
  0 <= ch ->
  (forall k, Z.of_nat j <= k -> Z.testbit ch k = false) ->
  let r := Coins.spent_byte c len i j fuel ch in
  0 <= r
  /\ (forall k, 8 <= k -> Z.testbit r k = false)
  /\ (forall k : nat, (j <= k < 8)%nat ->
        Z.testbit r (Z.of_nat k)
        = (2 + i * 8 + k <? len)%nat
          && Coins.isUnspent c (Z.of_nat (2 + i * 8 + k)))
  /\ (forall k, 0 <= k < Z.of_nat j -> Z.testbit r k = Z.testbit ch k).
Proof.
  revert j ch. induction fuel as [|fuel IH]; intros j ch Hj Hch Hhigh.
  - simpl. split; [done|]. split; [|split].
    + intros k Hk. apply Hhigh. lia.
    + intros k Hk. lia.
    + done.
  - cbn [Coins.spent_byte].
    destruct (Nat.ltb_spec j 8) as [Hj8|]; [|lia].
    destruct (Nat.ltb_spec (2 + i * 8 + j) len) as [Hlt|Hge]; simpl andb; cbv iota.
    + set (ch' := if Coins.isUnspent c (Z.of_nat (2 + i * 8 + j))
                  then Z.lor ch (Z.shiftl 1 (Z.of_nat j)) else ch).
      assert (0 <= ch') as Hch'.
      { subst ch'. case_match; [|done]. apply Z.lor_nonneg. split; [done|].
        rewrite Z.shiftl_1_l. apply Z.pow_nonneg. lia. }
      assert (forall k, Z.testbit ch' k
                = if decide (k = Z.of_nat j)
                  then Coins.isUnspent c (Z.of_nat (2 + i * 8 + j))
                  else Z.testbit ch k) as Hbits.
      { intros k. subst ch'.
        destruct (Coins.isUnspent c (Z.of_nat (2 + i * 8 + j))).
        - rewrite Z.lor_spec, Z.shiftl_1_l, Z.pow2_bits_eqb by lia.
          case_decide as Hk.
          + subst k. rewrite Z.eqb_refl. apply orb_true_r.
          + destruct (Z.eqb_spec (Z.of_nat j) k); [congruence|].
            apply orb_false_r.
        - case_decide as Hk; [|done]. subst k. apply Hhigh. lia. }
      destruct (IH (S j) ch') as (Hr0 & Hr8 & Hrk & Hrl); [lia|done|..].
      { intros k Hk. rewrite Hbits. case_decide; [lia|]. apply Hhigh. lia. }
      split; [done|]. split; [done|]. split.
      * intros k Hk. destruct (decide (k = j)) as [->|Hne].
        -- rewrite Hrl by lia. rewrite Hbits, decide_True by done.
           match goal with
           | |- context [(?a <? len)%nat] =>
               replace (a <? len)%nat with true
                 by (symmetry; apply Nat.ltb_lt; lia)
           end.
           reflexivity.
        -- apply Hrk. lia.
      * intros k Hk. rewrite Hrl by lia. rewrite Hbits.
        case_decide; [lia|done].
    + split; [done|]. split; [|split].
      * intros k Hk. apply Hhigh. lia.
      * intros k Hk. rewrite Hhigh by lia.
        match goal with
        | |- context [(?a <? len)%nat] =>
            replace (a <? len)%nat with false
              by (symmetry; apply Nat.ltb_ge; lia)
        end.
        reflexivity.
      * done.
Qed.

(** ** The bytes [toRaw] writes *)

Section Encoding.
Context {codec : Codec} {laws : CodecLaws codec}.

Implicit Types (c : Coins.t) (e : CoinEntry.t) (bw : StaticWriter.t).

Lemma write_write bw (a b : list byte) :
  StaticWriter.write (StaticWriter.write bw a) b = StaticWriter.write bw (a ++ b).
Proof. unfold StaticWriter.write. simpl. by rewrite app_assoc. Qed.

Lemma length_slice (data : Buffer) (start n : nat) :
  (start + n <= length data)%nat -> length (slice data start n) = n.
Proof. intros Hle. unfold slice. rewrite length_take, length_drop. lia. Qed.

Lemma write_spent_bytes c (len i n : nat) bw :
  Coins.write_spent c len i n bw
  = StaticWriter.write bw
      ((fun i => byte_of_Z (Coins.spent_byte c len i 0 8 0)) <$> seq i n).
Proof.
  revert i bw. induction n as [|n IH]; intros i bw.
  - simpl. unfold StaticWriter.write. rewrite app_nil_r. by destruct bw.
  - cbn [Coins.write_spent seq fmap list_fmap]. rewrite IH.
    unfold StaticWriter.writeU8. by rewrite write_write.
Qed.

(** The size and the bytes of a well-formed entry. *)
Lemma wf_entry_getSize e :
  wf_entry e -> CoinEntry.getSize e = Ok (Z.of_nat (length (entry_bytes e))).
Proof.
  unfold wf_entry, CoinEntry.getSize, entry_bytes.
  destruct (CoinEntry.raw e) as [data|].
  - intros [Hskip _]. rewrite length_slice; [done|].
    by eapply skip_within.
  - intros (o & -> & Hv). by rewrite compress_size_bytes.
Qed.

Lemma wf_entry_toWriter e bw :
  wf_entry e ->
  CoinEntry.toWriter e bw = Ok (StaticWriter.write bw (entry_bytes e)).
Proof.
  unfold wf_entry, CoinEntry.toWriter, entry_bytes, StaticWriter.copy.
  destruct (CoinEntry.raw e) as [data|].
  - intros _. do 3 f_equal. lia.
  - by intros (o & -> & Hv).
Qed.

Lemma wf_slots_cons slot slots :
  wf_slots (slot :: slots)
  <-> (forall e, slot = Some e -> CoinEntry.spent e = false -> wf_entry e)
      /\ wf_slots slots.
Proof.
  unfold wf_slots. split.
  - intros Hwf. split.
    + intros e ->. by apply (Hwf 0%nat).
    + intros i e. by apply (Hwf (S i)).
  - intros [Hhd Htl] [|i] e; simpl; [|by apply Htl].
    intros [= ->]. by apply Hhd.
Qed.

Lemma wf_slots_take (n : nat) slots : wf_slots slots -> wf_slots (take n slots).
Proof.
  intros Hwf i e Hl. apply (Hwf i).
  by apply lookup_take_Some in Hl as [? _].
Qed.

Lemma tail_bytes_cons slot slots :
  tail_bytes (slot :: slots) = live_bytes slot ++ tail_bytes slots.
Proof. reflexivity. Qed.

Lemma tail_bytes_app slots1 slots2 :
  tail_bytes (slots1 ++ slots2) = tail_bytes slots1 ++ tail_bytes slots2.
Proof. unfold tail_bytes. apply bind_app. Qed.

Lemma size_outputs_bytes slots (total : Z) :
  wf_slots slots ->
  Coins.size_outputs slots total
  = Ok (total + Z.of_nat (length (tail_bytes slots))).
Proof.
  revert total. induction slots as [|[e|] slots IH]; intros total Hwf.
  - simpl. f_equal. lia.
  - apply wf_slots_cons in Hwf as [Hhd Htl].
    rewrite tail_bytes_cons, length_app. cbn [Coins.size_outputs live_bytes].
    destruct (CoinEntry.spent e) eqn:Hs.
    + rewrite IH by done. simpl. done.
    + rewrite wf_entry_getSize by by apply Hhd. cbn [mbind result_bind].
      rewrite IH by done. f_equal. lia.
  - apply wf_slots_cons in Hwf as [_ Htl]. simpl. by apply IH.
Qed.

Lemma write_outputs_bytes slots bw :
  wf_slots slots ->
  Coins.write_outputs slots bw
  = Ok (StaticWriter.write bw (tail_bytes slots)).
Proof.
  revert bw. induction slots as [|[e|] slots IH]; intros bw Hwf.
  - simpl. unfold StaticWriter.write. rewrite app_nil_r. by destruct bw.
  - apply wf_slots_cons in Hwf as [Hhd Htl].
    rewrite tail_bytes_cons. cbn [Coins.write_outputs live_bytes].
    destruct (CoinEntry.spent e) eqn:Hs.
    + by rewrite IH.
    + rewrite wf_entry_toWriter by by apply Hhd. cbn [mbind result_bind].
      rewrite IH by done. by rewrite write_write.
  - apply wf_slots_cons in Hwf as [_ Htl]. simpl. by apply IH.
Qed.

Lemma safe_integer_u32 (n : Z) : 0 <= n < 2 ^ 32 -> safe_integer n.
Proof. unfold safe_integer. change (2 ^ 32) with 4294967296.
  change (2 ^ 53) with 9007199254740992. lia. Qed.

Lemma safe_integer_code (n : Z) : 0 <= n < 2 ^ 34 -> safe_integer n.
Proof. unfold safe_integer. change (2 ^ 34) with 17179869184.
  change (2 ^ 53) with 9007199254740992. lia. Qed.

Lemma length_spent_field c (len size : nat) :
  length (spent_field c len size) = size.
Proof. unfold spent_field. by rewrite length_fmap, length_seq. Qed.

Lemma legal_length_bounds c :
  legal c -> Coins.length c <> 0%nat ->
  0 <= spent_size c
  /\ safe_integer (Coins.version c)
  /\ safe_integer (header_code c).
Proof.
  intros (Hv & Hh & Hmax & Hwf) Hlen.
  destruct (spent_size_bounds c Hmax) as [[HS _] _].
  destruct (header_code_spec c Hmax Hlen) as (_ & Hcode & _).
  split; [done|]. split; [by apply safe_integer_u32|by apply safe_integer_code].
Qed.

(** [toRaw] on a legal record that is not fully spent writes the header,
    the spent field and the compressed outputs of the unspent entries. *)
Lemma toRaw_bytes c :
  legal c -> Coins.length c <> 0%nat -> Coins.toRaw c = Ok (record_bytes c).
Proof.
  intros Hlegal Hlen.
  destruct (legal_length_bounds c Hlegal Hlen) as (HS & Hsv & Hsc).
  destruct Hlegal as (Hv & Hh & Hmax & Hwf).
  destruct (header_code_spec c Hmax Hlen) as (Hhead & _).
  unfold Coins.toRaw. fold (spent_size c). rewrite Hhead.
  cbn [mbind result_bind]. unfold Coins.getSize.
  rewrite size_outputs_bytes by by apply wf_slots_take.
  cbn [mbind result_bind].
  unfold StaticWriter.writeVarint, StaticWriter.writeU32.
  rewrite write_spent_bytes, write_outputs_bytes by by apply wf_slots_take.
  cbn [mbind result_bind]. rewrite !write_write.
  unfold StaticWriter.render, StaticWriter.write, StaticWriter.new, assert.
  cbn [StaticWriter.written StaticWriter.total app].
  fold (spent_field c (Coins.length c) (Z.to_nat (spent_size c))).
  set (tail := tail_bytes (take (Coins.length c) (Coins.outputs c))).
  rewrite !length_app, length_spent_field.
  rewrite !sizeVarint_bytes by done.
  match goal with
  | |- context [?a =? ?b] => destruct (Z.eqb_spec a b) as [_|Hne]
  end.
  - cbn [mbind result_bind]. unfold record_bytes, header_bytes.
    by rewrite <- !app_assoc.
  - exfalso. apply Hne. unfold StaticWriter.u32_bytes. cbn [length]. lia.
Qed.

(** Reading back a 32-bit number. *)
Lemma readU32_bytes (n : Z) (pre post : list byte) :
  0 <= n < 2 ^ 32 ->
  BufferReader.readU32
    (BufferReader.mk (pre ++ StaticWriter.u32_bytes n ++ post) (length pre))
  = Ok (n, BufferReader.mk (pre ++ StaticWriter.u32_bytes n ++ post)
             (length pre + 4)).
Proof.
  intros Hn. unfold BufferReader.readU32, slice.
  cbn [BufferReader.data BufferReader.offset].
  rewrite drop_app_length. unfold StaticWriter.u32_bytes.
  cbn [app take]. rewrite !byte_to_of_Z. do 2 f_equal.
  change (2 ^ 32) with 4294967296 in Hn.
  change (2 ^ 8) with 256. change (2 ^ 16) with 65536.
  change (2 ^ 24) with 16777216.
  replace (n / 65536) with (n / 256 / 256)
    by (rewrite Z.div_div by lia; reflexivity).
  replace (n / 16777216) with (n / 256 / 256 / 256)
    by (rewrite !Z.div_div by lia; reflexivity).
  assert (0 <= n / 256 / 256 / 256 < 256) as Hq.
  { split; [repeat apply Z.div_pos; lia|].
    rewrite !Z.div_div by lia. apply Z.div_lt_upper_bound; lia. }
  rewrite (Z.mod_small (n / 256 / 256 / 256) 256) by done.
  pose proof (Z.div_mod n 256 ltac:(lia)) as H0.
  pose proof (Z.div_mod (n / 256) 256 ltac:(lia)) as H1.
  pose proof (Z.div_mod (n / 256 / 256) 256 ltac:(lia)) as H2.
  set (q3 := n / 256 / 256 / 256) in *. set (r2 := (n / 256 / 256) mod 256) in *.
  set (q2 := n / 256 / 256) in *. set (r1 := (n / 256) mod 256) in *.
  set (q1 := n / 256) in *. set (r0 := n mod 256) in *.
  clearbody q3 r2 q2 r1 q1 r0. lia.
Qed.

(** Reading the header of a serialized record gives back version, height
    and header code. *)
Lemma read_header_bytes c (rest : list byte) :
  legal c -> Coins.length c <> 0%nat ->
  read_header (header_bytes c ++ rest)
  = Ok (Coins.version c, Coins.height c, header_code c,
        length (header_bytes c)).
Proof.
  intros Hlegal Hlen.
  destruct (legal_length_bounds c Hlegal Hlen) as (HS & Hsv & Hsc).
  destruct Hlegal as (Hv & Hh & Hmax & Hwf).
  unfold read_header, header_bytes, BufferReader.readVarint, BufferReader.new.
  cbn [BufferReader.data BufferReader.offset].
  rewrite <- !app_assoc.
  set (vb := varint_bytes (Coins.version c)).
  set (hb := StaticWriter.u32_bytes (Coins.height c)).
  set (cb := varint_bytes (header_code c)).
  pose proof (varint_read_bytes (Coins.version c) [] (hb ++ cb ++ rest) Hsv)
    as Hr1.
  cbn [app length] in Hr1. fold vb in Hr1. rewrite Hr1.
  cbn [mbind result_bind].
  pose proof (readU32_bytes (Coins.height c) vb (cb ++ rest) Hh) as Hr2.
  fold hb in Hr2. cbn [Nat.add]. rewrite Hr2. cbn [mbind result_bind].
  cbn [BufferReader.data BufferReader.offset].
  pose proof (varint_read_bytes (header_code c) (vb ++ hb) rest Hsc) as Hr3.
  fold cb in Hr3. rewrite <- !app_assoc, length_app in Hr3.
  change (length hb) with 4%nat in Hr3. rewrite Hr3.
  cbn [mbind result_bind BufferReader.offset].
  do 2 f_equal. rewrite !length_app. change (length hb) with 4%nat. lia.
Qed.

(** ** Decoding the bytes of a record *)

Lemma byte_bits_spent_byte c (i : nat) :
  byte_bits (Coins.spent_byte c (Coins.length c) i 0 8 0)
  = (fun k => Coins.isUnspent c (Z.of_nat k)) <$> seq (2 + 8 * i) 8.
Proof.
  destruct (spent_byte_bits c (Coins.length c) i 8 0 0)
    as (_ & _ & Hbits & _); [done|done|..].
  { intros k _. apply Z.bits_0. }
  unfold byte_bits.
  replace (seq (2 + 8 * i) 8) with (Nat.add (2 + 8 * i) <$> seq 0 8)
    by (rewrite fmap_add_seq; f_equal; lia).
  rewrite <- list_fmap_compose.
  apply list_fmap_ext. intros j k [-> Hk]%lookup_seq. simpl in Hk.
  rewrite bit_set_testbit, Hbits by lia. unfold compose.
  replace (2 + i * 8 + (0 + j))%nat with (2 + 8 * i + (0 + j))%nat by lia.
  set (m := (2 + 8 * i + (0 + j))%nat).
  destruct (Nat.ltb_spec m (Coins.length c)) as [|Hge]; [done|].
  by rewrite isUnspent_ge_length.
Qed.

Lemma spent_byte_range c (len i : nat) :
  0 <= Coins.spent_byte c len i 0 8 0 < 256.
Proof.
  destruct (spent_byte_bits c len i 8 0 0) as (H0 & H8 & _); [done|done|..].
  { intros k _. apply Z.bits_0. }
  split; [done|]. by apply (small_testbit _ 8).
Qed.

Lemma spent_bits_encoded c (data : Buffer) (off n i0 : nat) :
  (forall i, (i0 <= i < i0 + n)%nat ->
     byte_at data (off + i)
     = Coins.spent_byte c (Coins.length c) i 0 8 0) ->
  spent_bits data (off + i0) n
  = (fun k => Coins.isUnspent c (Z.of_nat k)) <$> seq (2 + 8 * i0) (8 * n).
Proof.
  revert i0. induction n as [|n IH]; intros i0 Hbytes.
  - by rewrite Nat.mul_0_r.
  - rewrite spent_bits_S, Hbytes by lia.
    replace (S (off + i0)) with (off + S i0)%nat by lia.
    rewrite IH by (intros i Hi; apply Hbytes; lia).
    rewrite byte_bits_spent_byte, <- fmap_app. f_equal.
    replace (8 * S n)%nat with (8 + 8 * n)%nat by lia.
    rewrite seq_app. do 2 f_equal. lia.
Qed.

Lemma byte_at_spent_field c (pre rest : list byte) (len size i : nat) :
  (i < size)%nat ->
  byte_at (pre ++ spent_field c len size ++ rest) (length pre + i)
  = Coins.spent_byte c len i 0 8 0.
Proof.
  intros Hi. unfold byte_at.
  rewrite lookup_app_r, Nat.add_comm, Nat.add_sub by lia.
  rewrite lookup_app_l by (rewrite length_spent_field; lia).
  unfold spent_field. rewrite list_lookup_fmap, lookup_seq_lt by done.
  simpl. rewrite byte_to_of_Z. apply Z.mod_small, spent_byte_range.
Qed.

Lemma is_live_source c (k : nat) :
  is_live (mjoin (Coins.outputs c !! k)) = Coins.isUnspent c (Z.of_nat k).
Proof.
  rewrite isUnspent_nat. by destruct (Coins.outputs c !! k) as [[e|]|].
Qed.

(** The presence bits of a serialized record are the states of the slots
    of the record. *)
Lemma slot_bits_encoded c (rest : list byte) :
  legal c -> Coins.length c <> 0%nat ->
  slot_bits
    (header_bytes c
     ++ spent_field c (Coins.length c) (Z.to_nat (spent_size c)) ++ rest)
    (header_code c) (length (header_bytes c))
  = is_live <$> source_slots c (2 + 8 * Z.to_nat (spent_size c)).
Proof.
  intros (Hv & Hh & Hmax & Hwf) Hlen.
  destruct (header_code_spec c Hmax Hlen)
    as (_ & _ & _ & _ & Hrec & _ & Hb2 & Hb4).
  unfold slot_bits, source_slots. rewrite Hrec, Hb2, Hb4.
  rewrite <- list_fmap_compose.
  rewrite (list_fmap_ext _ (fun k => Coins.isUnspent c (Z.of_nat k)))
    by (intros i k _; apply is_live_source).
  rewrite (seq_app 2 _ 0), fmap_app. f_equal.
  rewrite <- (Nat.add_0_r (length (header_bytes c))).
  rewrite (spent_bits_encoded c); [by rewrite Nat.mul_0_r|].
  intros i Hi. apply byte_at_spent_field. lia.
Qed.

Lemma wf_slots_source c (n : nat) :
  wf_slots (Coins.outputs c) -> wf_slots (source_slots c n).
Proof.
  intros Hwf i e. unfold source_slots.
  rewrite list_lookup_fmap.
  destruct (seq 0 n !! i) as [k|] eqn:Hk; [|done]. simpl.
  destruct (Coins.outputs c !! k) as [[e'|]|] eqn:Hl; try done.
  intros [= ->]. by eapply Hwf.
Qed.

Lemma tail_bytes_dead slots :
  (forall (i : nat) slot, slots !! i = Some slot -> is_live slot = false) ->
  tail_bytes slots = [].
Proof.
  induction slots as [|slot slots IH]; intros Hdead; [done|].
  rewrite tail_bytes_cons, IH by (intros i; apply (Hdead (S i))).
  specialize (Hdead 0%nat slot eq_refl). rewrite app_nil_r.
  destruct slot as [e|]; [|done]. simpl in *.
  by destruct (CoinEntry.spent e).
Qed.

Lemma source_slots_take c (n : nat) :
  (n <= length (Coins.outputs c))%nat ->
  source_slots c n = take n (Coins.outputs c).
Proof.
  intros Hn. apply list_eq. intros i. unfold source_slots.
  rewrite list_lookup_fmap.
  destruct (decide (i < n)%nat) as [Hi|Hi].
  - rewrite lookup_seq_lt, lookup_take_lt by done. simpl.
    destruct (Coins.outputs c !! i) eqn:Hl; [done|].
    apply lookup_ge_None in Hl. lia.
  - by rewrite lookup_seq_ge, lookup_take_ge by lia.
Qed.

Lemma source_slots_split c (n : nat) :
  (Coins.length c <= n)%nat ->
  source_slots c n
  = take (Coins.length c) (Coins.outputs c)
    ++ ((fun k => mjoin (Coins.outputs c !! k))
          <$> seq (Coins.length c) (n - Coins.length c)).
Proof.
  intros Hn. rewrite <- source_slots_take by apply length_le.
  unfold source_slots.
  replace n with (Coins.length c + (n - Coins.length c))%nat at 1 by lia.
  by rewrite seq_app, fmap_app.
Qed.

Lemma tail_bytes_source c (n : nat) :
  (Coins.length c <= n)%nat ->
  tail_bytes (source_slots c n)
  = tail_bytes (take (Coins.length c) (Coins.outputs c)).
Proof.
  intros Hn. rewrite source_slots_split, tail_bytes_app by done.
  rewrite (tail_bytes_dead (_ <$> _)); [by rewrite app_nil_r|].
  intros i slot. rewrite list_lookup_fmap.
  destruct (seq _ _ !! i) as [k|] eqn:Hk; [|done].
  apply lookup_seq in Hk as [-> _]. simpl. intros [= <-].
  rewrite is_live_source. apply isUnspent_ge_length. lia.
Qed.

(** The bytes of a well-formed entry are skipped whole, wherever they lie
    in a buffer, and decompress to the output of the entry. *)
Lemma wf_entry_skip e (pre post : list byte) :
  wf_entry e ->
  skip_at (pre ++ entry_bytes e ++ post) (length pre)
  = Ok (length (entry_bytes e)).
Proof.
  unfold wf_entry, entry_bytes.
  destruct (CoinEntry.raw e) as [data|].
  - intros [Hskip _]. rewrite length_slice by by eapply skip_within.
    by apply skip_local.
  - intros (o & -> & Hv).
    pose proof (skip_local (compress_bytes o) 0 _ pre post
                  (skip_compress o Hv)) as Hs.
    unfold slice in Hs. by rewrite drop_0, firstn_all in Hs.
Qed.

Lemma entry_output_raw e data :
  CoinEntry.raw e = Some data ->
  (forall o, CoinEntry.output e = Some o ->
             decompress_at data (CoinEntry.offset e) = Ok o) ->
  entry_output e = decompress_at data (CoinEntry.offset e).
Proof.
  intros Hraw Hout.
  unfold entry_output, CoinEntry.toOutput, CoinEntry.reader,
    BufferReader.decompress_output.
  destruct (CoinEntry.output e) as [o|]; [by rewrite (Hout o)|].
  rewrite Hraw. simpl. by destruct (decompress_at data (CoinEntry.offset e)).
Qed.

Lemma wf_entry_decompress e (pre post : list byte) :
  wf_entry e ->
  decompress_at (pre ++ entry_bytes e ++ post) (length pre) = entry_output e.
Proof.
  intros Hwf. pose proof Hwf as Hwf'. revert Hwf'.
  unfold wf_entry, entry_bytes.
  destruct (CoinEntry.raw e) as [data|] eqn:Hraw.
  - intros [Hskip Hout]. rewrite (entry_output_raw e data) by done.
    by apply decompress_local.
  - intros (o & Ho & Hv). rewrite Ho.
    pose proof (decompress_local (compress_bytes o) 0 _ pre post
                  (skip_compress o Hv)) as Hd.
    unfold slice in Hd. rewrite drop_0, firstn_all in Hd.
    rewrite Hd, decompress_compress by done.
    unfold entry_output, CoinEntry.toOutput. by rewrite Ho.
Qed.

(** Walking the compressed outputs of a list of slots renders each slot. *)
Lemma decode_walk_encoded (data : Buffer) srcs (pre post : list byte) :
  wf_slots srcs ->
  data = pre ++ tail_bytes srcs ++ post ->
  exists slots,
    decode_walk data (is_live <$> srcs) (length pre)
    = Ok (slots, (length pre + length (tail_bytes srcs))%nat)
    /\ Forall2 (placed data) srcs slots.
Proof.
  revert pre. induction srcs as [|src srcs IH]; intros pre Hwf Hdata.
  - exists []. split; [|constructor]. simpl. do 2 f_equal. lia.
  - apply wf_slots_cons in Hwf as [Hhd Htl].
    rewrite tail_bytes_cons in *. cbn [fmap list_fmap decode_walk].
    destruct (is_live src) eqn:Hlive.
    + destruct src as [e|]; [|done]. simpl in Hlive.
      destruct (CoinEntry.spent e) eqn:Hs; [done|].
      specialize (Hhd e eq_refl Hs).
      cbn [live_bytes] in *. rewrite Hs in *.
      rewrite <- app_assoc in Hdata.
      assert (skip_at data (length pre) = Ok (length (entry_bytes e)))
        as Hskip by (subst data; by apply wf_entry_skip).
      rewrite Hskip. cbn [mbind result_bind].
      destruct (IH (pre ++ entry_bytes e)) as (slots & Hw & Hpl); [done|..].
      { by rewrite <- app_assoc. }
      rewrite length_app in Hw. rewrite Hw. cbn [mbind result_bind].
      eexists. split.
      * do 2 f_equal. rewrite length_app. lia.
      * constructor; [|done]. unfold placed. simpl. rewrite Hs. simpl.
        exists e. eexists. split; [done|]. split; [done|].
        cbn [CoinEntry.raw CoinEntry.output CoinEntry.spent CoinEntry.offset
             CoinEntry.size].
        repeat split; try done.
        -- subst data. unfold slice.
           by rewrite drop_app_length, take_app_length.
        -- subst data. by apply wf_entry_decompress.
    + assert (live_bytes src = []) as Hnil.
      { destruct src as [e|]; [|done]. simpl in *.
        by destruct (CoinEntry.spent e). }
      rewrite Hnil in *. cbn [app] in *.
      destruct (IH pre) as (slots & Hw & Hpl); [done..|].
      rewrite Hw. cbn [mbind result_bind].
      eexists. split; [done|]. constructor; [|done].
      unfold placed. by rewrite Hlive.
Qed.

(** ** Decoding what [toRaw] wrote *)

Lemma spent_slots_bound c :
  (Coins.length c <= 2 + 8 * Z.to_nat (spent_size c))%nat.
Proof.
  unfold spent_size.
  pose proof (Z.mod_pos_bound (Z.of_nat (Coins.length c) + 5) 8 ltac:(lia)).
  pose proof (Z.div_mod (Z.of_nat (Coins.length c) + 5) 8 ltac:(lia)).
  assert (0 <= (Z.of_nat (Coins.length c) + 5) / 8)
    by (apply Z.div_pos; lia).
  lia.
Qed.

(** [fromRaw] on the bytes of a legal record renders the slots of the
    record. *)
Lemma fromRaw_encoded c (hash : string) :
  legal c -> Coins.length c <> 0%nat ->
  exists slots,
    Coins.static_fromRaw (record_bytes c) hash
    = Ok (Coins.cleanup
            (Coins.mk (Coins.version c) hash (Coins.height c)
               (Coins.coinbase c) slots))
    /\ Forall2 (placed (record_bytes c))
         (source_slots c (2 + 8 * Z.to_nat (spent_size c))) slots.
Proof.
  intros Hlegal Hlen.
  destruct (legal_length_bounds c Hlegal Hlen) as (HS & _ & _).
  pose proof Hlegal as (Hv & Hh & Hmax & Hwf).
  destruct (header_code_spec c Hmax Hlen)
    as (_ & _ & _ & _ & Hrec & Hb1 & _).
  set (n := (2 + 8 * Z.to_nat (spent_size c))%nat).
  destruct (decode_walk_encoded (record_bytes c) (source_slots c n)
              (header_bytes c
               ++ spent_field c (Coins.length c) (Z.to_nat (spent_size c)))
              []) as (slots & Hw & Hpl).
  { by apply wf_slots_source. }
  { rewrite tail_bytes_source by apply spent_slots_bound.
    unfold record_bytes. by rewrite app_nil_r, <- app_assoc. }
  exists slots. split; [|done].
  assert (read_header (record_bytes c)
          = Ok (Coins.version c, Coins.height c, header_code c,
                length (header_bytes c))) as Hrh
    by (unfold record_bytes; by apply read_header_bytes).
  assert (slot_bits (record_bytes c) (header_code c)
            (length (header_bytes c))
          = is_live <$> source_slots c n) as Hsb
    by (unfold record_bytes; by apply slot_bits_encoded).
  unfold Coins.static_fromRaw. rewrite fromRaw_walk, Hrh.
  cbn [mbind result_bind].
  rewrite Hrec, Hb1. unfold BufferReader.seek.
  cbn [BufferReader.data BufferReader.offset].
  rewrite length_app, length_spent_field in Hw.
  assert (Z.of_nat (length (header_bytes c)) + spent_size c
          <= Z.of_nat (length (record_bytes c))) as Hfit.
  { unfold record_bytes. rewrite !length_app, length_spent_field. lia. }
  destruct (Z.leb_spec 0 (Z.of_nat (length (header_bytes c)) + spent_size c));
    [|lia].
  destruct (Z.leb_spec (Z.of_nat (length (header_bytes c)) + spent_size c)
              (Z.of_nat (length (record_bytes c)))); [|lia].
  cbn [andb mbind result_bind BufferReader.offset].
  replace (Z.to_nat (Z.of_nat (length (header_bytes c)) + spent_size c))
    with (length (header_bytes c) + Z.to_nat (spent_size c))%nat by lia.
  rewrite Hsb, Hw. cbn [mbind result_bind]. done.
Qed.

Lemma placed_lookup (data : Buffer) srcs slots (i : nat) :
  Forall2 (placed data) srcs slots ->
  match srcs !! i with
  | Some src =>
      exists slot, slots !! i = Some slot /\ placed data src slot
  | None => slots !! i = None
  end.
Proof.
  intros Hpl. destruct (srcs !! i) as [src|] eqn:Hs.
  - by eapply Forall2_lookup_l.
  - apply lookup_ge_None. apply lookup_ge_None in Hs.
    by rewrite <- (Forall2_length _ _ _ Hpl).
Qed.

Lemma source_slots_lookup c (n i : nat) :
  source_slots c n !! i
  = if decide (i < n)%nat then Some (mjoin (Coins.outputs c !! i)) else None.
Proof.
  unfold source_slots. rewrite list_lookup_fmap. case_decide.
  - by rewrite lookup_seq_lt.
  - by rewrite lookup_seq_ge by lia.
Qed.

(** The decoded record has the unspent outputs of the record. *)
Lemma decoded_isUnspent c (data : Buffer) (n : nat) slots
  (v h : Z) (hash : string) (cb : bool) (index : Z) :
  (Coins.length c <= n)%nat ->
  Forall2 (placed data) (source_slots c n) slots ->
  Coins.isUnspent (Coins.cleanup (Coins.mk v hash h cb slots)) index
  = Coins.isUnspent c index.
Proof.
  intros Hn Hpl. rewrite isUnspent_cleanup.
  destruct (Z.ltb_spec index 0) as [Hneg|Hpos].
  { rewrite !isUnspent_get.
    assert (forall c', Coins.get c' index = None) as Hnone
      by (intros c'; apply get_None; by left).
    by rewrite !Hnone. }
  rewrite <- (Z2Nat.id index) by done. rewrite (isUnspent_nat (Coins.mk _ _ _ _ _)).
  cbn [Coins.outputs].
  pose proof (placed_lookup data _ _ (Z.to_nat index) Hpl) as Hl.
  rewrite source_slots_lookup in Hl. case_decide as Hi.
  - destruct Hl as (slot & -> & Hslot). unfold placed in Hslot.
    rewrite is_live_source in Hslot.
    destruct (Coins.isUnspent c (Z.of_nat (Z.to_nat index))).
    + destruct Hslot as (e & e' & _ & -> & _ & _ & -> & _). done.
    + by subst slot.
  - rewrite Hl. symmetry. apply isUnspent_ge_length. lia.
Qed.

(** The entry the decoded record holds for an unspent output. *)
Lemma decoded_entry c (data : Buffer) (n : nat) slots
  (v h : Z) (hash : string) (cb : bool) (index : Z) e :
  Forall2 (placed data) (source_slots c n) slots ->
  Coins.get c index = Some e -> CoinEntry.spent e = false ->
  (Z.to_nat index < n)%nat ->
  exists e',
    Coins.get (Coins.cleanup (Coins.mk v hash h cb slots)) index = Some e'
    /\ CoinEntry.raw e' = Some data
    /\ CoinEntry.output e' = None
    /\ CoinEntry.spent e' = false
    /\ skip_at data (CoinEntry.offset e') = Ok (CoinEntry.size e')
    /\ slice data (CoinEntry.offset e') (CoinEntry.size e') = entry_bytes e
    /\ decompress_at data (CoinEntry.offset e') = entry_output e.
Proof.
  intros Hpl [H0 Hl]%get_Some Hs Hi.
  pose proof (placed_lookup data _ _ (Z.to_nat index) Hpl) as Hp.
  rewrite source_slots_lookup, decide_True in Hp by done.
  destruct Hp as (slot & Hslot & Hplaced). unfold placed in Hplaced.
  rewrite Hl in Hplaced. simpl in Hplaced. rewrite Hs in Hplaced.
  destruct Hplaced as (e1 & e' & [= <-] & -> & Hfacts).
  exists e'. split; [|done]. rewrite get_cleanup. by apply get_Some.
Qed.

Lemma getOutput_entry c (index : Z) e :
  Coins.get c index = Some e ->
  fst <$> Coins.getOutput c index = Some <$> entry_output e.
Proof.
  intros Hg. unfold Coins.getOutput, entry_output. rewrite Hg.
  by destruct (CoinEntry.toOutput e) as [[o e']|].
Qed.

(** ** Re-encoding a decoded record *)

(** [length()], the header code and the spent field depend on the record
    through [isUnspent] (and the coinbase flag) only. *)
Lemma length_ext c c' :
  (forall k : nat,
      Coins.isUnspent c' (Z.of_nat k) = Coins.isUnspent c (Z.of_nat k)) ->
  Coins.length c' = Coins.length c.
Proof.
  intros Hext.
  destruct (Nat.lt_trichotomy (Coins.length c') (Coins.length c))
    as [Hlt|[Heq|Hgt]]; [|done|].
  - pose proof (isUnspent_last c ltac:(lia)) as Hu.
    rewrite <- Hext, isUnspent_ge_length in Hu; [done|lia].
  - pose proof (isUnspent_last c' ltac:(lia)) as Hu.
    rewrite Hext, isUnspent_ge_length in Hu; [done|lia].
Qed.

Lemma spent_byte_ext c c' (len i j fuel : nat) (ch : Z) :
  (forall k : nat,
      Coins.isUnspent c' (Z.of_nat k) = Coins.isUnspent c (Z.of_nat k)) ->
  Coins.spent_byte c' len i j fuel ch = Coins.spent_byte c len i j fuel ch.
Proof.
  intros Hext. revert j ch. induction fuel as [|fuel IH]; intros j ch; [done|].
  cbn [Coins.spent_byte]. rewrite Hext. case_match; [|done]. apply IH.
Qed.

Lemma spent_field_ext c c' (len size : nat) :
  (forall k : nat,
      Coins.isUnspent c' (Z.of_nat k) = Coins.isUnspent c (Z.of_nat k)) ->
  spent_field c' len size = spent_field c len size.
Proof.
  intros Hext. unfold spent_field. apply list_fmap_ext. intros _ i _.
  by rewrite (spent_byte_ext c c').
Qed.

Lemma header_code_ext c c' :
  (forall k : nat,
      Coins.isUnspent c' (Z.of_nat k) = Coins.isUnspent c (Z.of_nat k)) ->
  Coins.coinbase c' = Coins.coinbase c ->
  header_code c' = header_code c.
Proof.
  intros Hext Hcb. unfold header_code, spent_size.
  pose proof (Hext 0%nat) as H0. pose proof (Hext 1%nat) as H1.
  change (Z.of_nat 0) with 0 in H0. change (Z.of_nat 1) with 1 in H1.
  by rewrite (length_ext c c' Hext), Hcb, H0, H1.
Qed.

(** A rendered slot writes the bytes of the slot it renders. *)
Lemma placed_tail_bytes (data : Buffer) srcs slots :
  Forall2 (placed data) srcs slots -> tail_bytes slots = tail_bytes srcs.
Proof.
  induction 1 as [|src slot srcs slots Hpl _ IH]; [done|].
  rewrite !tail_bytes_cons, IH. f_equal.
  unfold placed in Hpl. destruct (is_live src) eqn:Hlive.
  - destruct Hpl as (e & e' & -> & -> & Hraw & _ & Hs & _ & Hslice & _).
    simpl in Hlive. simpl. rewrite Hs.
    destruct (CoinEntry.spent e); [done|].
    unfold entry_bytes at 1. by rewrite Hraw.
  - subst slot. destruct src as [e|]; [|done]. simpl in *.
    by destruct (CoinEntry.spent e).
Qed.

(** The entries of a decoded record are well-formed: each points at a
    compressed output of the buffer. *)
Lemma decoded_wf_slots (data : Buffer) bits (pos : nat) slots (pos' : nat) :
  decode_walk data bits pos = Ok (slots, pos') -> wf_slots slots.
Proof.
  intros Hw i e Hl _.
  destruct (decode_walk_entry _ _ _ _ _ _ _ Hw Hl) as (Hraw & Hout & _ & Hs).
  unfold wf_entry. rewrite Hraw. split; [done|]. intros o. by rewrite Hout.
Qed.

Lemma placed_wf_slots (data : Buffer) srcs slots :
  Forall2 (placed data) srcs slots -> wf_slots slots.
Proof.
  intros Hpl i e' Hl _.
  destruct (Forall2_lookup_r _ _ _ _ _ Hpl Hl) as (src & _ & Hp).
  unfold placed in Hp. destruct (is_live src); [|done].
  destruct Hp as (e & e1 & _ & [= <-] & Hraw & Hout & _ & Hs & _).
  unfold wf_entry. rewrite Hraw. split; [done|]. intros o. by rewrite Hout.
Qed.

(** In a decoded record no entry is marked spent, so [outputs.length] is
    [length()]. *)
Lemma decoded_length (data : Buffer) srcs slots
  (v h : Z) (hash : string) (cb : bool) :
  Forall2 (placed data) srcs slots ->
  let c' := Coins.cleanup (Coins.mk v hash h cb slots) in
  length (Coins.outputs c') = Coins.length c'.
Proof.
  intros Hpl c'. symmetry. apply length_eq_outputs.
  pose proof (cleanup_no_trailing_gap (Coins.mk v hash h cb slots)) as Hgap.
  fold c' in Hgap. unfold no_trailing_gap in Hgap.
  destruct (Coins.outputs c') as [|o outs] eqn:Ho; [by left|right].
  rewrite <- Ho in *. apply last_live_isUnspent. unfold last_live.
  destruct (last (Coins.outputs c')) as [[e'|]|] eqn:Hlast.
  - exists e'. split; [done|].
    rewrite last_lookup in Hlast. subst c'. rewrite cleanup_lookup in Hlast.
    case_decide; [|done]. cbn [Coins.outputs] in Hlast.
    destruct (Forall2_lookup_r _ _ _ _ _ Hpl Hlast) as (src & _ & Hp).
    unfold placed in Hp. destruct (is_live src); [|done].
    by destruct Hp as (e & e1 & _ & [= <-] & _ & _ & Hs & _).
  - done.
  - rewrite last_None in Hlast. rewrite Hlast in Ho. done.
Qed.

(** ** The round trips *)

(** What encoding a legal record and decoding the bytes yields. *)
Lemma roundtrip_facts c (hash : string) :
  legal c -> Coins.length c <> 0%nat ->
  exists slots,
    let data := record_bytes c in
    let c' := Coins.cleanup
                (Coins.mk (Coins.version c) hash (Coins.height c)
                   (Coins.coinbase c) slots) in
    Coins.toRaw c = Ok data
    /\ Coins.static_fromRaw data hash = Ok c'
    /\ Forall2 (placed data)
         (source_slots c (2 + 8 * Z.to_nat (spent_size c))) slots
    /\ (forall index, Coins.isUnspent c' index = Coins.isUnspent c index)
    /\ Coins.length c' = Coins.length c
    /\ length (Coins.outputs c') = Coins.length c
    /\ legal c'.
Proof.
  intros Hlegal Hlen.
  destruct (fromRaw_encoded c hash Hlegal Hlen) as (slots & Hdec & Hpl).
  exists slots. intros data c'.
  assert (forall index, Coins.isUnspent c' index = Coins.isUnspent c index)
    as Hext.
  { intros index. subst c'. eapply decoded_isUnspent; [|done].
    apply spent_slots_bound. }
  assert (Coins.length c' = Coins.length c) as Hlen'
    by (apply length_ext; intros k; apply Hext).
  assert (length (Coins.outputs c') = Coins.length c) as Hout.
  { rewrite <- Hlen'. subst c'. by eapply decoded_length. }
  split; [by apply toRaw_bytes|]. split; [done|]. split; [done|].
  split; [done|]. split; [done|]. split; [done|].
  destruct Hlegal as (Hv & Hh & Hmax & Hwf).
  split; [done|]. split; [done|]. split.
  - rewrite Hout. pose proof (length_le c). lia.
  - subst c'. unfold Coins.cleanup. cbn [Coins.outputs Coins.set_outputs].
    apply wf_slots_take. by eapply placed_wf_slots.
Qed.

(** C1. For every legal record that is not fully spent, [toRaw] returns a
    buffer, and [fromRaw] on that buffer, with a hash injected, returns a
    record with the same version, height and coinbase flag and the
    injected hash, in which an index is unspent exactly when it is in the
    original, and in which [getOutput] at an unspent index gives what it
    gives in the original: the same (value, script), the script in the
    form the decompressor reconstructs. *)
Theorem C1_toRaw_fromRaw_roundtrip c (hash : string) :
  legal c -> Coins.length c <> 0%nat ->
  exists data c',
    Coins.toRaw c = Ok data
    /\ Coins.static_fromRaw data hash = Ok c'
    /\ Coins.version c' = Coins.version c
    /\ Coins.height c' = Coins.height c
    /\ Coins.coinbase c' = Coins.coinbase c
    /\ Coins.hash c' = hash
    /\ (forall index, Coins.isUnspent c' index = Coins.isUnspent c index)
    /\ (forall index,
          Coins.isUnspent c index = true ->
          fst <$> Coins.getOutput c' index = fst <$> Coins.getOutput c index)
    /\ (forall index e o,
          Coins.get c index = Some e -> CoinEntry.spent e = false ->
          CoinEntry.output e = Some o ->
          fst <$> Coins.getOutput c' index = Ok (Some o)).
Proof.
  intros Hlegal Hlen.
  destruct (roundtrip_facts c hash Hlegal Hlen)
    as (slots & Hraw & Hdec & Hpl & Hext & _).
  eexists _, _. split; [exact Hraw|]. split; [exact Hdec|].
  do 4 (split; [done|]). split; [done|].
  assert (forall index e,
            Coins.get c index = Some e -> CoinEntry.spent e = false ->
            fst <$> Coins.getOutput
                      (Coins.cleanup
                         (Coins.mk (Coins.version c) hash (Coins.height c)
                            (Coins.coinbase c) slots)) index
            = Some <$> entry_output e) as Hout.
  { intros index e Hg Hs.
    assert (Z.to_nat index < 2 + 8 * Z.to_nat (spent_size c))%nat as Hi.
    { pose proof (spent_slots_bound c).
      assert (Coins.isUnspent c index = true) as Hu
        by (by rewrite isUnspent_get, Hg, Hs).
      destruct (decide (Z.to_nat index < Coins.length c)%nat); [lia|].
      apply get_Some in Hg as [H0 _].
      rewrite <- (Z2Nat.id index), isUnspent_ge_length in Hu by lia. done. }
    destruct (decoded_entry c _ _ _ (Coins.version c) (Coins.height c) hash
                (Coins.coinbase c) index e Hpl Hg Hs Hi)
      as (e' & Hg' & Hraw' & Hout' & _ & _ & _ & Hdecomp).
    rewrite (getOutput_entry _ _ _ Hg'). f_equal.
    rewrite (entry_output_raw e' (record_bytes c)); [done..|].
    intros o. by rewrite Hout'. }
  split.
  - intros index (e & H0 & Hl & Hs)%isUnspent_true.
    assert (Coins.get c index = Some e) as Hg by (by apply get_Some).
    by rewrite (Hout index e), (getOutput_entry c index e).
  - intros index e o Hg Hs Ho. rewrite (Hout index e) by done.
    unfold entry_output, CoinEntry.toOutput. by rewrite Ho.
Qed.

(** C2. For the buffer [toRaw] returns for a legal record, [fromRaw]
    decodes it and, at every index, [parseCoin] returns the coin that
    [getCoin] returns on the decoded record, or both return not-found
    ([None]).  The coin is the output of the record at that index with
    version, height, coinbase flag, hash and index.  At an index of
    [2 + 8 S] or more [parseCoin] returns not-found whatever follows the
    header, so without walking the tail. *)
Theorem C2_parseCoin_consistent c (hash : string) (index : Z) :
  legal c -> Coins.length c <> 0%nat ->
  exists data c',
    Coins.toRaw c = Ok data
    /\ Coins.static_fromRaw data hash = Ok c'
    /\ Coins.parseCoin data hash index = found_coin (Coins.getCoin c' index)
    /\ (Coins.isUnspent c index = false ->
        Coins.parseCoin data hash index = Ok None)
    /\ (forall e o,
          Coins.get c index = Some e -> CoinEntry.spent e = false ->
          entry_output e = Ok o ->
          Coins.parseCoin data hash index
          = Ok (Some (mkCoin (Coins.version c) (Coins.height c) (value o)
                        (script o) (Coins.coinbase c) hash index)))
    /\ (2 + 8 * spent_size c <= index ->
        forall tail : list byte,
          Coins.parseCoin (header_bytes c ++ tail) hash index = Ok None).
Proof.
  intros Hlegal Hlen.
  destruct (roundtrip_facts c hash Hlegal Hlen)
    as (slots & Hraw & Hdec & Hpl & Hext & _).
  pose proof Hlegal as (Hv & Hh & Hmax & Hwf).
  destruct (legal_length_bounds c Hlegal Hlen) as (HS & _ & _).
  destruct (header_code_spec c Hmax Hlen) as (_ & _ & _ & _ & Hrec & _).
  set (c' := Coins.cleanup _) in *.
  assert (Coins.parseCoin (record_bytes c) hash index
          = found_coin (Coins.getCoin c' index)) as Hparse.
  { apply parseCoin_getCoin; [done|].
    intros version height code offset. unfold record_bytes.
    rewrite read_header_bytes by done. intros [= _ _ <- _]. by rewrite Hrec. }
  eexists _, _. split; [exact Hraw|]. split; [exact Hdec|].
  split; [done|]. split; [|split].
  - intros Hu. rewrite Hparse. apply getCoin_absent.
    specialize (Hext index). rewrite Hu, isUnspent_get in Hext.
    destruct (Coins.get c' index) as [e'|] eqn:Hg'; [|done].
    subst c'. rewrite get_cleanup in Hg'. apply get_Some in Hg' as [H0 Hl].
    cbn [Coins.outputs] in Hl.
    destruct (Forall2_lookup_r _ _ _ _ _ Hpl Hl) as (src & _ & Hp).
    unfold placed in Hp. destruct (is_live src); [|done].
    destruct Hp as (e & e1 & _ & [= <-] & _ & _ & Hs & _).
    by rewrite Hs in Hext.
  - intros e o Hg Hs Ho. rewrite Hparse.
    assert (Z.to_nat index < 2 + 8 * Z.to_nat (spent_size c))%nat as Hi.
    { pose proof (spent_slots_bound c).
      assert (Coins.isUnspent c index = true) as Hu
        by (by rewrite isUnspent_get, Hg, Hs).
      destruct (decide (Z.to_nat index < Coins.length c)%nat); [lia|].
      apply get_Some in Hg as [H0 _].
      rewrite <- (Z2Nat.id index), isUnspent_ge_length in Hu by lia. done. }
    destruct (decoded_entry c _ _ _ (Coins.version c) (Coins.height c) hash
                (Coins.coinbase c) index e Hpl Hg Hs Hi)
      as (e' & Hg' & Hraw' & Hout' & _ & _ & _ & Hdecomp).
    fold c' in Hg'.
    rewrite (getCoin_raw_entry c' index e' (record_bytes c)) by done.
    rewrite Hdecomp, Ho. done.
  - intros Hge tail.
    eapply parseCoin_past_end; [by apply read_header_bytes|].
    by rewrite Hrec.
Qed.

(** C4, as the code has it.  For the buffer [toRaw] returns for a legal
    record, [fromRaw] followed by [toRaw], with no entry materialized in
    between, returns a buffer identical to it byte for byte: every entry
    of the decoded record points into the buffer and is written by the
    copy of [raw[offset .. offset + size]]. *)
Theorem C4_fromRaw_toRaw_identity c (hash : string) :
  legal c -> Coins.length c <> 0%nat ->
  exists data c',
    Coins.toRaw c = Ok data
    /\ Coins.static_fromRaw data hash = Ok c'
    /\ (forall (i : nat) e',
          Coins.outputs c' !! i = Some (Some e') ->
          CoinEntry.output e' = None /\ CoinEntry.raw e' = Some data
          /\ forall bw,
               CoinEntry.toWriter e' bw
               = Ok (StaticWriter.write bw
                       (slice data (CoinEntry.offset e') (CoinEntry.size e'))))
    /\ Coins.toRaw c' = Ok data.
Proof.
  intros Hlegal Hlen.
  destruct (roundtrip_facts c hash Hlegal Hlen)
    as (slots & Hraw & Hdec & Hpl & Hext & Hlen' & Hout & Hlegal').
  set (c' := Coins.cleanup _) in *.
  eexists _, _. split; [exact Hraw|]. split; [exact Hdec|]. split.
  - intros i e' Hl. subst c'. rewrite cleanup_lookup in Hl.
    case_decide; [|done]. cbn [Coins.outputs] in Hl.
    destruct (Forall2_lookup_r _ _ _ _ _ Hpl Hl) as (src & _ & Hp).
    unfold placed in Hp. destruct (is_live src); [|done].
    destruct Hp as (e & e1 & _ & [= <-] & Hraw' & Hout' & _).
    split; [done|]. split; [done|]. intros bw.
    unfold CoinEntry.toWriter, StaticWriter.copy. rewrite Hraw'.
    do 3 f_equal. lia.
  - rewrite toRaw_bytes by (done || lia).
    f_equal. unfold record_bytes, header_bytes.
    assert (forall k : nat,
              Coins.isUnspent c' (Z.of_nat k) = Coins.isUnspent c (Z.of_nat k))
      as Hextn by (intros k; apply Hext).
    rewrite (header_code_ext c c' Hextn) by done.
    assert (spent_size c' = spent_size c) as ->
      by (unfold spent_size; by rewrite Hlen').
    rewrite Hlen', (spent_field_ext c c' _ _ Hextn).
    assert (tail_bytes (take (Coins.length c) (Coins.outputs c'))
            = tail_bytes (take (Coins.length c) (Coins.outputs c))) as ->;
      [|reflexivity].
    rewrite (take_ge (Coins.outputs c')) by lia.
    assert (Coins.outputs c' = take (Coins.length c) slots) as ->.
    { subst c'. unfold Coins.cleanup in *.
      cbn [Coins.outputs Coins.set_outputs] in *.
      rewrite length_take in Hout.
      pose proof (cleanup_len_le slots (length slots)).
      f_equal. lia. }
    rewrite (placed_tail_bytes (record_bytes c)
               (take (Coins.length c)
                  (source_slots c (2 + 8 * Z.to_nat (spent_size c)))))
      by by apply Forall2_take.
    rewrite source_slots_split by apply spent_slots_bound.
    rewrite take_app_length'; [done|].
    rewrite length_take. pose proof (length_le c). lia.
Qed.

(** ** The spent field *)

Lemma spent_bits_lookup (data : Buffer) (off n i j : nat) :
  (i < n)%nat -> (j < 8)%nat ->
  spent_bits data off n !! (8 * i + j)%nat
  = Some (bit_set (byte_at data (off + i)) j).
Proof.
  revert off i. induction n as [|n IH]; intros off i Hi Hj; [lia|].
  rewrite spent_bits_S. destruct i as [|i].
  - rewrite lookup_app_l by (rewrite length_byte_bits; lia).
    unfold byte_bits. rewrite list_lookup_fmap, lookup_seq_lt by lia.
    by rewrite Nat.add_0_r.
  - rewrite lookup_app_r by (rewrite length_byte_bits; lia).
    rewrite length_byte_bits.
    replace (8 * S i + j - 8)%nat with (8 * i + j)%nat by lia.
    rewrite IH by lia. do 3 f_equal. lia.
Qed.

(** The slots [fromRaw] pushes are live exactly at the set bits. *)
Lemma decode_walk_live (data : Buffer) bits (pos : nat) slots (pos' : nat) :
  decode_walk data bits pos = Ok (slots, pos') -> is_live <$> slots = bits.
Proof.
  revert pos slots. induction bits as [|[] bits IH]; intros pos slots.
  - simpl. by intros [= <- <-].
  - cbn [decode_walk]. destruct (skip_at data pos) as [sz|]; [|done].
    cbn [mbind result_bind].
    destruct (decode_walk data bits (pos + sz)) as [[slots1 pos1]|] eqn:Hw;
      [|done].
    cbn [mbind result_bind]. intros [= <- <-]. simpl. f_equal. by eapply IH.
  - cbn [decode_walk].
    destruct (decode_walk data bits pos) as [[slots1 pos1]|] eqn:Hw; [|done].
    cbn [mbind result_bind]. intros [= <- <-]. simpl. f_equal. by eapply IH.
Qed.

(** In the record [fromRaw] returns, output [2 + 8i + j] is unspent
    exactly when bit [j] of byte [i] of the spent field is set. *)
Lemma fromRaw_spent_bits (data : Buffer) (hash : string) (c' : Coins.t)
  (version height code : Z) (offset i j : nat) :
  read_header data = Ok (version, height, code, offset) ->
  Coins.static_fromRaw data hash = Ok c' ->
  (i < Z.to_nat (Coins.recalc_size code))%nat -> (j < 8)%nat ->
  Coins.isUnspent c' (Z.of_nat (2 + 8 * i + j))
  = Z.testbit (byte_at data (offset + i)) (Z.of_nat j).
Proof.
  intros Hh Hdec Hi Hj. unfold Coins.static_fromRaw in Hdec.
  rewrite fromRaw_walk, Hh in Hdec. cbn [mbind result_bind] in Hdec.
  destruct (BufferReader.seek _ _) as [br|]; [|done].
  cbn [mbind result_bind] in Hdec.
  destruct (decode_walk data _ _) as [[slots pos']|] eqn:Hw; [|done].
  cbn [mbind result_bind] in Hdec. injection Hdec as <-.
  rewrite isUnspent_cleanup, isUnspent_nat. cbn [Coins.outputs app].
  pose proof (decode_walk_live _ _ _ _ _ Hw) as Hlive.
  assert ((is_live <$> slots) !! (2 + 8 * i + j)%nat
          = Some (bit_set (byte_at data (offset + i)) j)) as Hl.
  { rewrite Hlive. unfold slot_bits.
    rewrite lookup_app_r by (simpl; lia). cbn [length].
    replace (2 + 8 * i + j - 2)%nat with (8 * i + j)%nat by lia.
    by apply spent_bits_lookup. }
  rewrite list_lookup_fmap in Hl. rewrite <- bit_set_testbit.
  destruct (slots !! (2 + 8 * i + j)%nat) as [[e|]|]; simpl in Hl;
    congruence.
Qed.

Lemma byte_bits_x40 (b : byte) :
  byte_bits (byte_to_Z b)
  = [false; false; false; false; false; false; true; false] ->
  b = x40.
Proof.
  destruct b; intros Hb; try reflexivity; vm_compute in Hb; discriminate Hb.
Qed.

(** C7. The spent field [toRaw] writes follows the header and has [S]
    bytes, and bit [j] of its byte [i] is set exactly when output
    [2 + 8i + j] of the record is unspent.  [fromRaw] on these bytes
    reads the header back, recomputes [S] from the header code, and in
    the record it returns output [2 + 8i + j], for every [i] below [S],
    is unspent exactly when bit [j] of byte [i] of the spent field that
    was written is set, which is exactly when it is unspent in the record
    that was written; no output past the [2 + 8S] slots is unspent.  On
    any buffer [fromRaw] decodes, output [2 + 8i + j] is unspent exactly
    when bit [j] of byte [i] behind the header is set.  For a record of
    nine outputs of which only index 8 is unspent the header code is 0
    (1 with the coinbase flag) and the spent field is the one byte
    [0b01000000]. *)
Theorem C7_spent_field_layout c :
  legal c -> Coins.length c <> 0%nat ->
  let S := Z.to_nat (spent_size c) in
  Coins.toRaw c
  = Ok (header_bytes c ++ spent_field c (Coins.length c) S
        ++ tail_bytes (take (Coins.length c) (Coins.outputs c)))
  /\ length (spent_field c (Coins.length c) S) = S
  /\ (forall i j : nat,
        (i < S)%nat -> (j < 8)%nat ->
        exists b,
          spent_field c (Coins.length c) S !! i = Some b
          /\ Z.testbit (byte_to_Z b) (Z.of_nat j)
             = Coins.isUnspent c (Z.of_nat (2 + 8 * i + j)))
  /\ (forall hash : string,
        let data :=
          header_bytes c ++ spent_field c (Coins.length c) S
          ++ tail_bytes (take (Coins.length c) (Coins.outputs c)) in
        exists c',
          Coins.static_fromRaw data hash = Ok c'
          /\ read_header data
             = Ok (Coins.version c, Coins.height c, header_code c,
                   length (header_bytes c))
          /\ Z.to_nat (Coins.recalc_size (header_code c)) = S
          /\ (forall i j : nat,
                (i < S)%nat -> (j < 8)%nat ->
                exists b,
                  spent_field c (Coins.length c) S !! i = Some b
                  /\ byte_at data (length (header_bytes c) + i) = byte_to_Z b
                  /\ Coins.isUnspent c' (Z.of_nat (2 + 8 * i + j))
                     = Z.testbit (byte_to_Z b) (Z.of_nat j)
                  /\ Coins.isUnspent c' (Z.of_nat (2 + 8 * i + j))
                     = Coins.isUnspent c (Z.of_nat (2 + 8 * i + j)))
          /\ (forall k : nat,
                (2 + 8 * S <= k)%nat ->
                Coins.isUnspent c' (Z.of_nat k) = false))
  /\ (forall (data : Buffer) (hash : string) (c' : Coins.t)
             (version height code : Z) (offset i j : nat),
        read_header data = Ok (version, height, code, offset) ->
        Coins.static_fromRaw data hash = Ok c' ->
        (i < Z.to_nat (Coins.recalc_size code))%nat -> (j < 8)%nat ->
        Coins.isUnspent c' (Z.of_nat (2 + 8 * i + j))
        = Z.testbit (byte_at data (offset + i)) (Z.of_nat j))
  /\ (length (Coins.outputs c) = 9%nat ->
      (forall k, Coins.isUnspent c k = bool_decide (k = 8)) ->
      Coins.header c (Z.of_nat (Coins.length c)) (spent_size c)
      = Ok (if Coins.coinbase c then 1 else 0)
      /\ spent_field c (Coins.length c) S = [x40]).
Proof.
  intros Hlegal Hlen S.
  assert (forall i j : nat,
            (i < S)%nat -> (j < 8)%nat ->
            spent_field c (Coins.length c) S !! i
            = Some (byte_of_Z (Coins.spent_byte c (Coins.length c) i 0 8 0))
            /\ byte_to_Z
                 (byte_of_Z (Coins.spent_byte c (Coins.length c) i 0 8 0))
               = Coins.spent_byte c (Coins.length c) i 0 8 0
            /\ Z.testbit (Coins.spent_byte c (Coins.length c) i 0 8 0)
                 (Z.of_nat j)
               = Coins.isUnspent c (Z.of_nat (2 + 8 * i + j))) as Hwrite.
  { intros i j Hi Hj. split; [|split].
    - unfold spent_field. by rewrite list_lookup_fmap, lookup_seq_lt.
    - rewrite byte_to_of_Z. apply Z.mod_small, spent_byte_range.
    - rewrite <- bit_set_testbit.
      assert (byte_bits (Coins.spent_byte c (Coins.length c) (0 + i) 0 8 0)
                !! j
              = Some (Coins.isUnspent c (Z.of_nat (2 + 8 * i + j)))) as Hb.
      { rewrite byte_bits_spent_byte, list_lookup_fmap, lookup_seq_lt by done.
        simpl. do 3 f_equal. }
      unfold byte_bits in Hb.
      rewrite list_lookup_fmap, lookup_seq_lt in Hb by done.
      simpl in Hb. by injection Hb. }
  split; [by apply toRaw_bytes|]. split; [apply length_spent_field|].
  split; [|split; [|split]].
  - intros i j Hi Hj. destruct (Hwrite i j Hi Hj) as (Hl & Hb & Hbit).
    eexists. split; [exact Hl|]. by rewrite Hb.
  - intros hash data.
    destruct (roundtrip_facts c hash Hlegal Hlen)
      as (slots & _ & Hdec & _ & Hext & _).
    pose proof Hlegal as (_ & _ & Hmax & _).
    destruct (header_code_spec c Hmax Hlen) as (_ & _ & _ & _ & Hrec & _).
    eexists. split; [exact Hdec|]. split; [by apply read_header_bytes|].
    split; [by rewrite Hrec|]. split.
    + intros i j Hi Hj. destruct (Hwrite i j Hi Hj) as (Hl & Hb & Hbit).
      eexists. split; [exact Hl|]. rewrite Hb, Hext, Hbit.
      split; [|done]. subst data. by apply byte_at_spent_field.
    + intros k Hk. rewrite Hext. apply isUnspent_ge_length.
      pose proof (spent_slots_bound c). lia.
  - intros data hash c' version height code offset i j.
    apply fromRaw_spent_bits.
  - intros Hnine Hu.
    assert (Coins.length c = 9%nat) as Hlen9.
    { rewrite <- Hnine. apply length_eq_outputs. right.
      rewrite Hnine, Hu. reflexivity. }
    assert (spent_size c = 1) as Hsize
      by (unfold spent_size; by rewrite Hlen9).
    destruct Hlegal as (_ & _ & Hmax & _).
    destruct (header_code_spec c Hmax Hlen) as (Hhead & _).
    split.
    + rewrite Hhead. unfold header_code. rewrite Hsize, !Hu.
      by destruct (Coins.coinbase c).
    + subst S. rewrite Hsize, Hlen9. unfold spent_field.
      change (Z.to_nat 1) with 1%nat. cbn [seq fmap list_fmap].
      f_equal. apply byte_bits_x40.
      rewrite byte_to_of_Z, Z.mod_small by apply spent_byte_range.
      rewrite <- Hlen9, byte_bits_spent_byte.
      cbn [Nat.mul Nat.add seq fmap list_fmap]. rewrite !Hu.
      reflexivity.
Qed.

End Encoding.

(** ** The legal records are closed under the operations

    A record built by [fromTX] from valid outputs is legal, and the
    mutations and the materialization of an output keep a record legal;
    so is the record [fromRaw] decodes from the bytes of a legal record
    ([roundtrip_facts]). *)

Section Legal.
Context `{Codec}.

Implicit Types (c : Coins.t) (e : CoinEntry.t).

Lemma wf_entry_fromOutput (o : Output) :
  valid_output o -> wf_entry (CoinEntry.fromOutput o).
Proof. intros Hv. exists o. done. Qed.

Lemma wf_slots_insert_gap slots (i : nat) :
  wf_slots slots -> wf_slots (<[i := None]> slots).
Proof.
  intros Hwf j e Hl. destruct (decide (i = j)) as [->|Hne].
  - destruct (decide (j < length slots)%nat).
    + by rewrite list_lookup_insert_eq in Hl.
    + rewrite list_insert_ge in Hl by lia. by apply (Hwf j).
  - rewrite list_lookup_insert_ne in Hl by done. by apply (Hwf j).
Qed.

Lemma wf_slots_insert slots (i : nat) e :
  wf_slots slots -> (CoinEntry.spent e = false -> wf_entry e) ->
  wf_slots (<[i := Some e]> slots).
Proof.
  intros Hwf He j e' Hl. destruct (decide (i = j)) as [->|Hne].
  - destruct (decide (j < length slots)%nat).
    + rewrite list_lookup_insert_eq in Hl by done. by injection Hl as <-.
    + rewrite list_insert_ge in Hl by lia. by apply (Hwf j).
  - rewrite list_lookup_insert_ne in Hl by done. by apply (Hwf j).
Qed.

Lemma legal_cleanup c : legal c -> legal (Coins.cleanup c).
Proof.
  intros (Hv & Hh & Hmax & Hwf).
  split; [exact Hv|]. split; [exact Hh|]. split.
  - unfold Coins.cleanup. cbn [Coins.outputs Coins.set_outputs].
    rewrite length_take. lia.
  - by apply wf_slots_take.
Qed.

Lemma legal_spend c (index : Z) : legal c -> legal (Coins.spend c index).2.
Proof.
  intros Hlegal. destruct (spend_outputs c index) as [->|[e Hsp]]; [done|].
  unfold Coins.spend in *.
  destruct (Coins.get c index) as [e0|]; [|done].
  destruct (CoinEntry.spent e0); [done|]. cbn [snd] in *.
  destruct Hlegal as (Hv & Hh & Hmax & Hwf).
  split; [exact Hv|]. split; [exact Hh|]. split.
  - cbn [Coins.outputs Coins.set_outputs]. by rewrite length_insert.
  - by apply wf_slots_insert.
Qed.

Lemma legal_remove c (index : Z) : legal c -> legal (Coins.remove c index).2.
Proof.
  intros Hlegal. unfold Coins.remove.
  destruct (Coins.get c index) as [e|]; [|done]. cbn [snd].
  apply legal_cleanup. destruct Hlegal as (Hv & Hh & Hmax & Hwf).
  split; [exact Hv|]. split; [exact Hh|]. split.
  - cbn [Coins.outputs Coins.set_outputs]. by rewrite length_insert.
  - by apply wf_slots_insert_gap.
Qed.

Lemma legal_add c (index : Z) e c' :
  legal c -> (CoinEntry.spent e = false -> wf_entry e) ->
  index < 2 ^ 32 - 1 ->
  Coins.add c index e = Ok c' -> legal c'.
Proof.
  intros (Hv & Hh & Hmax & Hwf) He Hindex (H0 & _ & ->)%add_Ok.
  split; [exact Hv|]. split; [exact Hh|]. split.
  - cbn [Coins.outputs Coins.set_outputs].
    rewrite length_insert, length_app, length_replicate. lia.
  - cbn [Coins.outputs Coins.set_outputs]. apply wf_slots_insert; [|done].
    intros j e' Hl. apply lookup_app_Some in Hl as [Hl|[_ Hl]].
    + by apply (Hwf j).
    + by apply lookup_replicate in Hl as [? _].
Qed.

Lemma legal_addOutput c (index : Z) (o : Output) c' :
  legal c -> valid_output o -> index < 2 ^ 32 - 1 ->
  Coins.addOutput c index o = Ok c' -> legal c'.
Proof.
  intros Hlegal Hvalid Hindex Hadd. unfold Coins.addOutput in Hadd.
  apply bind_Ok in Hadd as (_ & _ & Hadd).
  eapply legal_add; [done| |done..]. intros _.
  by apply wf_entry_fromOutput.
Qed.

Lemma legal_fromTX (tx : TX) (height : Z) :
  0 <= tx_version tx < 2 ^ 32 -> 0 <= height < 2 ^ 32 ->
  Z.of_nat (length (tx_outputs tx)) < 2 ^ 32 ->
  Forall valid_output (tx_outputs tx) ->
  legal (Coins.static_fromTX tx height).
Proof.
  intros Hv Hh Hmax Hvalid. unfold Coins.static_fromTX, Coins.fromTX.
  apply legal_cleanup. split; [exact Hv|]. split; [exact Hh|]. split.
  - cbn [Coins.outputs Coins.new app]. by rewrite length_fmap.
  - cbn [Coins.outputs Coins.new app]. intros i e Hl _.
    rewrite list_lookup_fmap in Hl.
    destruct (tx_outputs tx !! i) as [o|] eqn:Ho; [|done]. simpl in Hl.
    destruct (isUnspendable (script o)); [done|]. injection Hl as <-.
    apply wf_entry_fromOutput. by eapply Forall_lookup_1.
Qed.

Lemma legal_getOutput c (index : Z) found c' :
  legal c -> Coins.getOutput c index = Ok (found, c') -> legal c'.
Proof.
  intros Hlegal. unfold Coins.getOutput.
  destruct (Coins.get c index) as [e|] eqn:Hg; [|by intros [= _ <-]].
  destruct (CoinEntry.toOutput e) as [[o e']|] eqn:Hto; [|done].
  cbn [mbind result_bind]. intros [= _ <-].
  destruct Hlegal as (Hv & Hh & Hmax & Hwf).
  apply get_Some in Hg as [H0 Hl].
  split; [exact Hv|]. split; [exact Hh|]. split.
  - cbn [Coins.outputs Coins.set_outputs]. by rewrite length_insert.
  - cbn [Coins.outputs Coins.set_outputs]. apply wf_slots_insert; [done|].
    intros Hs. unfold CoinEntry.toOutput in Hto.
    destruct (CoinEntry.output e) as [o0|] eqn:Ho.
    { injection Hto as <- <-. by apply (Hwf (Z.to_nat index)). }
    unfold CoinEntry.reader, BufferReader.decompress_output in Hto.
    destruct (CoinEntry.raw e) as [data|] eqn:Hraw; [|done].
    cbn [mbind result_bind BufferReader.data BufferReader.offset] in Hto.
    destruct (decompress_at data (CoinEntry.offset e)) as [o1|] eqn:Hd;
      [|done].
    cbn [mbind result_bind] in Hto. injection Hto as <- <-.
    assert (wf_entry e) as Hwfe by (by apply (Hwf (Z.to_nat index))).
    unfold wf_entry in *. cbn [CoinEntry.set_output CoinEntry.raw
      CoinEntry.offset CoinEntry.size CoinEntry.output].
    rewrite Hraw in *. destruct Hwfe as [Hskip _].
    split; [done|]. by intros o' [= <-].
Qed.

End Legal.

(** * The codec after the spec meets the contract *)

Section ReferenceVarint.

Import Reference.

Lemma land_127 (x : Z) : Z.land x 127 = x mod 128.
Proof. change 127 with (Z.ones 7). by rewrite Z.land_ones. Qed.

Lemma land_128_small (x : Z) : 0 <= x < 128 -> Z.land x 128 = 0.
Proof.
  intros Hx. rewrite <- (Z.mod_small x 128), <- land_127 by done.
  by rewrite <- Z.land_assoc, Z.land_0_r.
Qed.

Lemma lor_add_disjoint (a b : Z) : Z.land a b = 0 -> Z.lor a b = a + b.
Proof.
  intros Hd. by rewrite <- Z.lxor_lor, Z.add_nocarry_lxor.
Qed.

(** A group byte gives back its seven data bits and its flag. *)
Lemma group_byte (x : Z) (continued : bool) :
  0 <= x < 128 ->
  let ch := byte_to_Z
              (byte_of_Z (Z.lor x (if continued then 128 else 0))) in
  Z.land ch 127 = x /\ Z.land ch 128 = (if continued then 128 else 0).
Proof.
  intros Hx. cbv zeta.
  rewrite byte_to_of_Z, lor_add_disjoint
    by (destruct continued; [by apply land_128_small|apply Z.land_0_r]).
  rewrite Z.mod_small by (destruct continued; lia).
  destruct continued.
  - rewrite <- lor_add_disjoint by by apply land_128_small.
    rewrite !Z.land_lor_distr_l, land_128_small, land_127 by done.
    rewrite Z.mod_small by done. split; [apply Z.lor_0_r|done].
  - rewrite Z.add_0_r, land_127, land_128_small, Z.mod_small by done. done.
Qed.

Lemma shift_group (m x : Z) :
  0 <= m -> 0 <= x < 128 -> Z.lor (Z.shiftl m 7) x = m * 128 + x.
Proof.
  intros Hm Hx. rewrite Z.shiftl_mul_pow2 by lia. change (2 ^ 7) with 128.
  apply lor_add_disjoint. apply Z.bits_inj'. intros k Hk.
  rewrite Z.land_spec, Z.bits_0.
  destruct (Z.ltb_spec k 7).
  - change 128 with (2 ^ 7). by rewrite Z.mul_pow2_bits_low.
  - rewrite (testbit_small x 7 k) by (simpl; lia). apply andb_false_r.
Qed.

Lemma varint_groups_length (fuel : nat) (n : Z) (len : nat) (acc : list byte) :
  length (varint_groups fuel n len acc)
  = (group_count fuel n + length acc)%nat.
Proof.
  revert n len acc. induction fuel as [|fuel IH]; intros n len acc; [done|].
  simpl. case_match; [done|]. rewrite IH. simpl. lia.
Qed.

Lemma varint_count_groups (fuel : nat) (n size : Z) :
  varint_count fuel n size = size + Z.of_nat (group_count fuel n).
Proof.
  revert n size. induction fuel as [|fuel IH]; intros n size; simpl; [lia|].
  case_match; [lia|]. rewrite IH. lia.
Qed.

Lemma varint_loop_step (b : byte) (rest : list byte) (m : Z) (count : nat)
  (x : Z) (continued : bool) :
  0 <= m -> 0 <= x < 128 ->
  b = byte_of_Z (Z.lor x (if continued then 128 else 0)) ->
  varint_loop (b :: rest) m count
  = if continued then varint_loop rest (m * 128 + x + 1) (S count)
    else Ok (m * 128 + x, S count).
Proof.
  intros Hm Hx ->. cbn [varint_loop].
  destruct (group_byte x continued Hx) as [-> ->].
  rewrite shift_group by done. by destruct continued.
Qed.

(** Reading the groups of [n]: the reader stops with [n] at a terminal
    group, and goes on with [n + 1] after a continued one. *)
Lemma varint_loop_groups (fuel : nat) (n : Z) (len : nat) (acc : list byte)
  (count : nat) :
  0 <= n < 128 ^ Z.of_nat (S fuel) ->
  varint_loop (varint_groups fuel n len acc) 0 count
  = if len is O then Ok (n, (count + group_count fuel n)%nat)
    else varint_loop acc (n + 1) (count + group_count fuel n).
Proof.
  revert n len acc count.
  induction fuel as [|fuel IH]; intros n len acc count Hn.
  - change (128 ^ Z.of_nat 1) with 128 in Hn. cbn [varint_groups group_count].
    rewrite (varint_loop_step _ _ 0 _ n (if len is O then false else true))
      by (try done; rewrite land_127, Z.mod_small by done; by destruct len).
    rewrite Nat.add_1_r. by destruct len.
  - cbn [varint_groups group_count].
    destruct (Z.leb_spec n 127) as [Hsmall|Hbig].
    + rewrite (varint_loop_step _ _ 0 _ n (if len is O then false else true))
        by (try done; try lia;
            rewrite land_127, Z.mod_small by lia; by destruct len).
      rewrite Nat.add_1_r. by destruct len.
    + rewrite Z.shiftr_div_pow2 by lia. change (2 ^ 7) with 128.
      pose proof (Z.div_mod n 128 ltac:(lia)) as Hdm.
      pose proof (Z.mod_pos_bound n 128 ltac:(lia)) as Hmod.
      assert (1 <= n / 128) as Hq by (apply Z.div_le_lower_bound; lia).
      assert (n / 128 < 128 ^ Z.of_nat (S fuel)) as Hq'.
      { apply Z.div_lt_upper_bound; [lia|].
        rewrite <- Z.pow_succ_r by lia. rewrite <- Nat2Z.inj_succ. apply Hn. }
      rewrite IH by lia.
      rewrite (varint_loop_step _ _ _ _ (n mod 128)
                 (if len is O then false else true))
        by (try lia; rewrite land_127; by destruct len).
      replace (n / 128 - 1 + 1) with (n / 128) by lia.
      replace (n / 128 * 128 + n mod 128) with n by lia.
      replace (S (count + group_count fuel (n / 128 - 1)))
        with (count + S (group_count fuel (n / 128 - 1)))%nat by lia.
      by destruct len.
Qed.

Lemma safe_integer_varint (n : Z) :
  safe_integer n -> 0 <= n < 128 ^ Z.of_nat 10.
Proof.
  unfold safe_integer. change (2 ^ 53) with 9007199254740992.
  change (128 ^ Z.of_nat 10) with 1180591620717411303424. lia.
Qed.

Lemma varint_loop_stop (bytes post : list byte) (m : Z) (count : nat)
  (r : Z * nat) :
  varint_loop bytes m count = Ok r ->
  varint_loop (bytes ++ post) m count = Ok r.
Proof.
  revert m count. induction bytes as [|b bytes IH]; intros m count; [done|].
  cbn [varint_loop app]. case_match; [done|]. apply IH.
Qed.

Lemma ref_varint_loop_bytes (n : Z) (post : list byte) :
  safe_integer n ->
  varint_loop (varint_bytes n ++ post) 0 0
  = Ok (n, length (varint_bytes n)).
Proof.
  intros Hn%safe_integer_varint. apply varint_loop_stop.
  unfold varint_bytes. rewrite varint_groups_length, Nat.add_0_r.
  by rewrite (varint_loop_groups 9 n 0 [] 0 Hn).
Qed.

(** The reader depends only on the bytes it consumes. *)
Lemma varint_loop_local (bytes : list byte) (m : Z) (count : nat)
  (v : Z) (count' : nat) :
  varint_loop bytes m count = Ok (v, count') ->
  exists used rest,
    bytes = used ++ rest
    /\ (count' = count + length used)%nat
    /\ forall rest', varint_loop (used ++ rest') m count = Ok (v, count').
Proof.
  revert m count. induction bytes as [|b bytes IH]; intros m count; [done|].
  cbn [varint_loop]. case_match eqn:Hflag.
  - intros [= <- <-]. exists [b], bytes. split; [done|]. split; [simpl; lia|].
    intros rest'. cbn [app varint_loop]. by rewrite Hflag.
  - intros (used & rest & -> & -> & Hloc)%IH.
    exists (b :: used), rest. split; [done|]. split; [simpl; lia|].
    intros rest'. cbn [app varint_loop]. by rewrite Hflag.
Qed.

End ReferenceVarint.

Section ReferenceCompressor.

Import Reference.

(** The prefix and payload chosen for a script expand to the script. *)
Lemma classify_fits (s : list byte) :
  let c := classify_script s in
  length c.2 = payload_length c.1
  /\ expand_script c.1 c.2 = Ok s
  /\ 0 <= c.1 <= Z.of_nat (length s) + 16.
Proof.
  unfold classify_script.
  destruct (List.find _ _) as [c|] eqn:Hfind; cbv zeta.
  - apply List.find_some in Hfind as [Hin Hfit]. unfold fits in Hfit.
    apply andb_true_iff in Hfit as [Hlen Hexp].
    apply Nat.eqb_eq in Hlen.
    destruct (expand_script c.1 c.2) as [s'|]; [|done].
    apply bool_decide_eq_true in Hexp as ->.
    split; [done|]. split; [done|].
    simpl in Hin.
    destruct Hin as [<-|[<-|[<-|[<-|[<-|[<-|[]]]]]]]; simpl; lia.
  - cbn [fst snd]. unfold payload_length, expand_script.
    repeat match goal with
           | |- context [?a =? ?b] =>
               destruct (Z.eqb_spec a b); [lia|]
           | |- context [?a <? ?b] =>
               destruct (Z.ltb_spec a b); [lia|]
           end.
    cbn [orb]. split; [lia|]. split; [done|lia].
Qed.

Lemma read_parts_bytes (v p : Z) (rest : list byte) :
  safe_integer v -> safe_integer p ->
  read_parts (varint_bytes v ++ varint_bytes p ++ rest)
  = Ok (v, p, (length (varint_bytes v) + length (varint_bytes p))%nat, rest).
Proof.
  intros Hv Hp. unfold read_parts.
  rewrite ref_varint_loop_bytes by done. cbn [mbind result_bind].
  rewrite drop_app_length, ref_varint_loop_bytes by done.
  cbn [mbind result_bind]. by rewrite drop_app_length.
Qed.

Lemma valid_output_prefix (o : Output) :
  valid_output o -> safe_integer (classify_script (script o)).1.
Proof.
  intros [_ Hlen]. destruct (classify_fits (script o)) as (_ & _ & Hp).
  unfold safe_integer. change (2 ^ 32) with 4294967296 in Hlen.
  change (2 ^ 53) with 9007199254740992. lia.
Qed.

Lemma ref_compress_size (o : Output) :
  valid_output o ->
  compress_size o = Z.of_nat (length (compress_bytes o)).
Proof.
  intros Hv. unfold compress_size, compress_bytes.
  destruct (classify_script (script o)) as [p payload].
  unfold sizeVarint, varint_bytes.
  rewrite !varint_count_groups, !length_app, !varint_groups_length.
  cbn [length]. lia.
Qed.

Lemma ref_skip_compress (o : Output) (post : list byte) :
  valid_output o ->
  skip_bytes (compress_bytes o ++ post) = Ok (length (compress_bytes o)).
Proof.
  intros Hv. pose proof (valid_output_prefix o Hv) as Hp.
  destruct (classify_fits (script o)) as (Hlen & _ & _).
  unfold skip_bytes, compress_bytes in *.
  destruct (classify_script (script o)) as [p payload]. cbn [fst snd] in *.
  rewrite <- !app_assoc, read_parts_bytes by (done || apply Hv).
  cbn [mbind result_bind]. rewrite length_app, <- Hlen.
  destruct (Nat.leb_spec (length payload) (length payload + length post));
    [|lia].
  f_equal. rewrite !length_app. lia.
Qed.

Lemma ref_decompress_compress (o : Output) (post : list byte) :
  valid_output o -> decompress_bytes (compress_bytes o ++ post) = Ok o.
Proof.
  intros Hv. pose proof (valid_output_prefix o Hv) as Hp.
  destruct (classify_fits (script o)) as (Hlen & Hexp & _).
  unfold decompress_bytes, compress_bytes in *.
  destruct (classify_script (script o)) as [p payload]. cbn [fst snd] in *.
  rewrite <- !app_assoc, read_parts_bytes by (done || apply Hv).
  cbn [mbind result_bind]. rewrite <- Hlen, take_app_length, Nat.eqb_refl.
  rewrite Hexp. cbn [mbind result_bind]. by destruct o.
Qed.

Lemma read_parts_local (bytes : list byte) (v p : Z) (n : nat)
  (rest : list byte) :
  read_parts bytes = Ok (v, p, n, rest) ->
  exists used,
    bytes = used ++ rest /\ length used = n
    /\ forall rest', read_parts (used ++ rest') = Ok (v, p, n, rest').
Proof.
  unfold read_parts.
  destruct (varint_loop bytes 0 0) as [[v1 n1]|] eqn:H1; [|done].
  cbn [mbind result_bind].
  destruct (varint_loop (drop n1 bytes) 0 0) as [[p1 n2]|] eqn:H2; [|done].
  cbn [mbind result_bind]. intros [= <- <- <- <-].
  apply varint_loop_local in H1 as (u1 & r1 & -> & -> & Hloc1).
  cbn [Nat.add] in *. rewrite drop_app_length in *.
  apply varint_loop_local in H2 as (u2 & r2 & -> & -> & Hloc2).
  cbn [Nat.add] in *. rewrite drop_app_length.
  exists (u1 ++ u2). split; [by rewrite app_assoc|].
  split; [by rewrite length_app|].
  intros rest'. rewrite <- app_assoc, Hloc1. cbn [mbind result_bind].
  rewrite drop_app_length, Hloc2. cbn [mbind result_bind].
  by rewrite drop_app_length.
Qed.

(** [skip] and [output] depend only on the bytes [skip] passes. *)
Lemma skip_bytes_local (bytes : list byte) (n : nat) :
  skip_bytes bytes = Ok n ->
  exists used rest,
    bytes = used ++ rest /\ length used = n
    /\ forall rest',
         skip_bytes (used ++ rest') = Ok n
         /\ decompress_bytes (used ++ rest') = decompress_bytes bytes.
Proof.
  unfold skip_bytes, decompress_bytes.
  destruct (read_parts bytes) as [[[[v p] k] r]|] eqn:Hparts; [|done].
  cbn [mbind result_bind].
  destruct (Nat.leb_spec (payload_length p) (length r)) as [Hle|]; [|done].
  intros [= <-].
  apply read_parts_local in Hparts as (used & -> & <- & Hloc).
  exists (used ++ take (payload_length p) r), (drop (payload_length p) r).
  split; [by rewrite <- app_assoc, take_drop|].
  split; [rewrite length_app, length_take; lia|].
  intros rest'. rewrite <- app_assoc, !Hloc. cbn [mbind result_bind].
  rewrite length_app, length_take.
  destruct (Nat.leb_spec (payload_length p)
              (payload_length p `min` length r + length rest')); [|lia].
  split; [done|].
  rewrite take_app_length' by (rewrite length_take; lia).
  by rewrite length_take.
Qed.

#[export] Instance reference_laws : CodecLaws Reference.codec.
Proof.
  split.
  - intros n pre post Hn.
    change (varint_read (pre ++ varint_bytes n ++ post) (length pre)
            = Ok (n, length (varint_bytes n))).
    unfold varint_read.
    by rewrite drop_app_length, ref_varint_loop_bytes.
  - intros n _.
    change (sizeVarint n = Z.of_nat (length (varint_bytes n))).
    unfold sizeVarint, varint_bytes.
    rewrite varint_count_groups, varint_groups_length. cbn [length]. lia.
  - apply ref_compress_size.
  - intros o Hv.
    change (skip_at (compress_bytes o) 0 = Ok (length (compress_bytes o))).
    unfold skip_at. rewrite drop_0.
    rewrite <- (app_nil_r (compress_bytes o)) at 1.
    by apply ref_skip_compress.
  - intros o Hv. change (decompress_at (compress_bytes o) 0 = Ok o).
    unfold decompress_at. rewrite drop_0.
    rewrite <- (app_nil_r (compress_bytes o)).
    by apply ref_decompress_compress.
  - intros data off n.
    change (skip_at data off = Ok n -> (off + n <= length data)%nat).
    unfold skip_at. intros Hskip.
    destruct (decide (off <= length data)%nat) as [Hoff|Hoff].
    + apply skip_bytes_local in Hskip as (used & rest & Hd & <- & _).
      assert (length (drop off data) = length (used ++ rest)) as Hl
        by by rewrite Hd.
      rewrite length_drop, length_app in Hl. lia.
    + by rewrite drop_ge in Hskip by lia.
  - intros data off n pre post.
    change (skip_at data off = Ok n ->
            skip_at (pre ++ slice data off n ++ post) (length pre) = Ok n).
    unfold skip_at, slice.
    intros (used & rest & -> & <- & Hloc)%skip_bytes_local.
    rewrite drop_app_length, take_app_length. apply Hloc.
  - intros data off n pre post.
    change (skip_at data off = Ok n ->
            decompress_at (pre ++ slice data off n ++ post) (length pre)
            = decompress_at data off).
    unfold skip_at, decompress_at, slice.
    intros (used & rest & Hd & <- & Hloc)%skip_bytes_local.
    rewrite drop_app_length, Hd, take_app_length.
    rewrite <- Hd. apply Hloc.
Qed.

End ReferenceCompressor.

(** * The examples *)

Lemma valid_example_output : valid_output example_output.
Proof. split; [unfold safe_integer|]; simpl; lia. Qed.

Lemma example_single_legal : @legal Reference.codec example_single.
Proof.
  repeat split; try (simpl; lia).
  intros [|i] e Hl _; [|done]. injection Hl as <-.
  apply wf_entry_fromOutput, valid_example_output.
Qed.

Lemma example_three_legal : @legal Reference.codec example_three.
Proof.
  repeat split; try (simpl; lia).
  intros [|[|[|i]]] e Hl Hs; try done; injection Hl as <-; [done|].
  apply wf_entry_fromOutput, valid_example_output.
Qed.

Lemma example_nine_legal : @legal Reference.codec example_nine.
Proof.
  repeat split; try (simpl; lia).
  intros i e Hl _. do 8 (destruct i as [|i]; [done|]).
  destruct i as [|i]; [|done]. injection Hl as <-.
  apply wf_entry_fromOutput, valid_example_output.
Qed.

Lemma C1_toRaw_fromRaw_roundtrip_example :
  exists data c',
    @Coins.toRaw Reference.codec example_three = Ok data
    /\ @Coins.static_fromRaw Reference.codec data NULL_HASH = Ok c'
    /\ Coins.height c' = 100
    /\ Coins.isUnspent c' 2 = true
    /\ fst <$> @Coins.getOutput Reference.codec c' 2
       = Ok (Some example_output).
Proof.
  destruct (@C1_toRaw_fromRaw_roundtrip Reference.codec reference_laws
              example_three NULL_HASH example_three_legal
              ltac:(vm_compute; discriminate))
    as (data & c' & Hraw & Hdec & _ & Hh & _ & _ & Hu & _ & Hout).
  exists data, c'. split; [exact Hraw|]. split; [exact Hdec|].
  split; [exact Hh|]. split; [by rewrite Hu|].
  by apply (Hout 2 (CoinEntry.fromOutput example_output) example_output).
Defined.

Lemma C2_parseCoin_consistent_example :
  exists data,
    @Coins.toRaw Reference.codec example_nine = Ok data
    /\ @Coins.parseCoin Reference.codec data NULL_HASH 8
       = Ok (Some (mkCoin 1 100 (value example_output)
                     (script example_output) false NULL_HASH 8))
    /\ @Coins.parseCoin Reference.codec data NULL_HASH 9 = Ok None.
Proof.
  destruct (@C2_parseCoin_consistent Reference.codec reference_laws
              example_nine NULL_HASH 8 example_nine_legal
              ltac:(vm_compute; discriminate))
    as (data & c' & Hraw & _ & _ & _ & Hfound & _).
  destruct (@C2_parseCoin_consistent Reference.codec reference_laws
              example_nine NULL_HASH 9 example_nine_legal
              ltac:(vm_compute; discriminate))
    as (data9 & c9 & Hraw9 & _ & _ & Hgap & _).
  rewrite Hraw in Hraw9. injection Hraw9 as <-.
  exists data. split; [exact Hraw|]. split.
  - by apply (Hfound (CoinEntry.fromOutput example_output) example_output).
  - by apply Hgap.
Defined.

Lemma C4_fromRaw_toRaw_identity_example :
  exists data c',
    @Coins.toRaw Reference.codec example_single = Ok data
    /\ @Coins.static_fromRaw Reference.codec data NULL_HASH = Ok c'
    /\ @Coins.toRaw Reference.codec c' = Ok data.
Proof.
  destruct (@C4_fromRaw_toRaw_identity Reference.codec reference_laws
              example_single NULL_HASH example_single_legal
              ltac:(vm_compute; discriminate))
    as (data & c' & Hraw & Hdec & _ & Hagain).
  exists data, c'. split; [exact Hraw|]. split; [exact Hdec|exact Hagain].
Defined.

(** C4 as stated fails on buffers that no [toRaw] writes.  [fromRaw]
    decodes the bytes of a record followed by one more byte, and the same
    record with a spent field that describes no output; [toRaw] on the
    decoded record, no entry materialized, writes the bytes of the record
    in both cases, which is not the input. *)
Lemma C4_noncanonical_buffer_counterexample :
  @Coins.toRaw Reference.codec example_single = Ok example_single_bytes
  /\ (exists c',
        @Coins.static_fromRaw Reference.codec (example_single_bytes ++ [x00])
          NULL_HASH = Ok c'
        /\ @Coins.toRaw Reference.codec c' = Ok example_single_bytes
        /\ example_single_bytes <> example_single_bytes ++ [x00])
  /\ (exists c',
        @Coins.static_fromRaw Reference.codec example_padded_bytes NULL_HASH
        = Ok c'
        /\ @Coins.toRaw Reference.codec c' = Ok example_single_bytes
        /\ example_single_bytes <> example_padded_bytes).
Proof.
  split; [by vm_compute|]. split.
  - eexists. split; [by vm_compute|]. split; [by vm_compute|].
    intros Heq. apply (f_equal length) in Heq. vm_compute in Heq.
    discriminate Heq.
  - eexists. split; [by vm_compute|]. split; [by vm_compute|].
    intros Heq. apply (f_equal length) in Heq. vm_compute in Heq.
    discriminate Heq.
Qed.

Lemma C7_spent_field_layout_example :
  @Coins.header example_nine 9 1 = Ok 0
  /\ @spent_field example_nine 9 1 = [x40]
  /\ exists data c',
       @Coins.toRaw Reference.codec example_nine = Ok data
       /\ byte_at data 6 = 64
       /\ @Coins.static_fromRaw Reference.codec data NULL_HASH = Ok c'
       /\ Coins.isUnspent c' 8 = true
       /\ Coins.isUnspent c' 2 = false
       /\ Coins.isUnspent c' 10 = false.
Proof.
  destruct (@C7_spent_field_layout Reference.codec reference_laws
              example_nine example_nine_legal
              ltac:(vm_compute; discriminate))
    as (Hraw & _ & _ & Hread & _ & Hscenario).
  destruct Hscenario as [Hcode Hfield]; [reflexivity|..].
  { intros k. rewrite isUnspent_get. unfold Coins.get, js_index.
    destruct (Z.leb_spec (Z.of_nat (length (Coins.outputs example_nine))) k)
      as [Hk|Hk].
    - rewrite bool_decide_eq_false_2; [done|]. simpl in Hk. lia.
    - destruct (Z.ltb_spec k 0); [by rewrite bool_decide_eq_false_2 by lia|].
      simpl in Hk.
      assert (Z.to_nat k < 9)%nat as Hlt by lia.
      destruct (Z.to_nat k) as [|[|[|[|[|[|[|[|[|n]]]]]]]]] eqn:Hn;
        try lia; simpl;
        try (rewrite bool_decide_eq_false_2 by lia; done).
      rewrite bool_decide_eq_true_2 by lia. done. }
  destruct (Hread NULL_HASH) as (c' & Hdec & _ & _ & Hbits & Hpast).
  assert (0 < Z.to_nat (spent_size example_nine))%nat as Hone
    by (vm_compute; lia).
  destruct (Hbits 0%nat 6%nat Hone ltac:(lia)) as (b6 & _ & _ & _ & Hsame6).
  destruct (Hbits 0%nat 0%nat Hone ltac:(lia)) as (b0 & _ & _ & _ & Hsame0).
  change (Z.of_nat (2 + 8 * 0 + 6)) with 8 in Hsame6.
  change (Z.of_nat (2 + 8 * 0 + 0)) with 2 in Hsame0.
  split; [exact Hcode|]. split; [exact Hfield|].
  eexists _, c'. split; [exact Hraw|]. split; [by vm_compute|].
  split; [exact Hdec|]. split; [by rewrite Hsame6|].
  split; [by rewrite Hsame0|]. apply (Hpast 10%nat). vm_compute. lia.
Defined.

(** * Further properties of the container *)

(** ** Slots read through [get] *)

Section Slots.

Implicit Types (c : Coins.t) (index : Z) (e entry : CoinEntry.t).

Lemma get_neg c index : index < 0 -> Coins.get c index = None.
Proof. intros Hneg. apply get_None. by left. Qed.

Lemma get_lookup c index :
  0 <= index -> Coins.get c index = mjoin (Coins.outputs c !! Z.to_nat index).
Proof.
  intros H0. destruct (Coins.get c index) as [e|] eqn:Hg.
  - apply get_Some in Hg as [_ ->]. done.
  - apply get_None in Hg as [?|[->| ->]]; [lia|done..].
Qed.

Lemma cleanup_slot c (k : nat) :
  mjoin (Coins.outputs (Coins.cleanup c) !! k) = mjoin (Coins.outputs c !! k).
Proof.
  pose proof (get_cleanup c (Z.of_nat k)) as Hg.
  by rewrite !get_lookup, Nat2Z.id in Hg by lia.
Qed.

Lemma has_false_get c index :
  Coins.has c index = false <-> Coins.get c index = None.
Proof.
  rewrite has_get. by destruct (Coins.get c index) as [e|].
Qed.

Lemma has_true_get c index :
  Coins.has c index = true <-> exists e, Coins.get c index = Some e.
Proof.
  rewrite has_get. destruct (Coins.get c index) as [e|].
  - split; [intros _; by exists e|]. intros _.
    apply bool_decide_eq_true. by eexists.
  - split; [done|]. by intros [e [=]].
Qed.

(** The slots of the array [add] leaves. *)
Lemma add_slot c index entry c' (k : nat) :
  Coins.add c index entry = Ok c' ->
  mjoin (Coins.outputs c' !! k)
  = if decide (k = Z.to_nat index) then Some entry
    else mjoin (Coins.outputs c !! k).
Proof.
  intros (H0 & Hg & ->)%add_Ok. cbn [Coins.outputs Coins.set_outputs].
  set (pad := replicate _ _).
  assert (Z.to_nat index < length (Coins.outputs c ++ pad))%nat as Hlen.
  { subst pad. rewrite length_app, length_replicate. lia. }
  case_decide as Hk.
  - subst k. by rewrite list_lookup_insert_eq.
  - rewrite list_lookup_insert_ne by done.
    destruct (decide (k < length (Coins.outputs c))%nat) as [Hlt|Hge].
    + by rewrite lookup_app_l.
    + rewrite (lookup_ge_None_2 (Coins.outputs c)) by lia.
      rewrite lookup_app_r by lia. subst pad.
      destruct (replicate _ _ !! _) as [o|] eqn:Hr; [|done].
      by apply lookup_replicate in Hr as [-> _].
Qed.

Lemma add_length c index entry c' :
  Coins.add c index entry = Ok c' ->
  length (Coins.outputs c')
  = (length (Coins.outputs c) `max` (Z.to_nat index + 1))%nat.
Proof.
  intros (H0 & Hg & ->)%add_Ok. cbn [Coins.outputs Coins.set_outputs].
  rewrite length_insert, length_app, length_replicate. lia.
Qed.

(** X1. When [add(index, entry)] returns, [get(index)] is the entry and
    the index is held and, for an entry not marked spent, unspent; every
    other index reads as before; the array has grown to hold the index
    and no further; version, hash, height and coinbase flag stay. *)
Theorem add_get c index entry c' :
  Coins.add c index entry = Ok c' ->
  Coins.get c' index = Some entry
  /\ Coins.has c' index = true
  /\ Coins.isUnspent c' index = negb (CoinEntry.spent entry)
  /\ (forall j, j <> index -> Coins.get c' j = Coins.get c j)
  /\ length (Coins.outputs c')
     = (length (Coins.outputs c) `max` (Z.to_nat index + 1))%nat
  /\ Coins.version c' = Coins.version c
  /\ Coins.hash c' = Coins.hash c
  /\ Coins.height c' = Coins.height c
  /\ Coins.coinbase c' = Coins.coinbase c.
Proof.
  intros Hadd. pose proof Hadd as (H0 & Hg & Hc')%add_Ok.
  assert (Coins.get c' index = Some entry) as Hget.
  { rewrite get_lookup, (add_slot c index entry) by done.
    by rewrite decide_True. }
  split; [done|]. split; [apply has_true_get; by eexists|].
  split; [by rewrite isUnspent_get, Hget|]. split.
  - intros j Hj. destruct (Z.ltb_spec j 0) as [Hneg|Hpos].
    + by rewrite !get_neg.
    + rewrite !get_lookup, (add_slot c index entry) by done.
      rewrite decide_False; [done|lia].
  - split; [by apply (add_length c index entry)|]. by subst c'.
Qed.

Lemma add_get_example :
  exists c',
    Coins.add Coins.new 2 (CoinEntry.fromOutput example_output) = Ok c'
    /\ Coins.get c' 2 = Some (CoinEntry.fromOutput example_output)
    /\ Coins.get c' 1 = None
    /\ length (Coins.outputs c') = 3%nat.
Proof.
  eexists. split; [reflexivity|].
  destruct (add_get Coins.new 2 (CoinEntry.fromOutput example_output) _
              eq_refl) as (Hg & _ & _ & Hother & Hlen & _).
  split; [exact Hg|]. split; [|exact Hlen].
  rewrite (Hother 1) by lia. reflexivity.
Defined.

Lemma add_Err_intro c index entry :
  index < 0 \/ Coins.has c index = true ->
  Coins.add c index entry = Err (AssertionError None).
Proof.
  intros Hbad. unfold Coins.add, assert.
  destruct (Z.leb_spec 0 index) as [H0|Hneg]; [|done].
  destruct Hbad as [?|Hhas]; [lia|]. cbn [mbind result_bind].
  apply has_true_get in Hhas as [e Hg]. apply get_Some in Hg as [_ Hl].
  rewrite bool_decide_eq_true_2; [done|].
  unfold js_index. destruct (Z.ltb_spec index 0); [lia|].
  rewrite lookup_app_l by by eapply lookup_lt_Some.
  rewrite Hl. by eexists.
Qed.

Lemma add_Ok_intro c index entry :
  0 <= index -> Coins.get c index = None ->
  exists c', Coins.add c index entry = Ok c'.
Proof.
  intros H0 Hg. unfold Coins.add, assert.
  destruct (Z.leb_spec 0 index) as [_|]; [|lia]. cbn [mbind result_bind].
  rewrite bool_decide_eq_false_2; [by eexists|].
  unfold js_index. destruct (Z.ltb_spec index 0); [lia|].
  intros [e He]. rewrite get_lookup in Hg by done.
  destruct (decide (Z.to_nat index < length (Coins.outputs c))%nat).
  - rewrite lookup_app_l in He by done. congruence.
  - rewrite lookup_app_r in He by lia.
    destruct (replicate _ _ !! _) as [o|] eqn:Hr; [|done].
    apply lookup_replicate in Hr as [-> _]. done.
Qed.

(** X2. [add(index, entry)] returns exactly when the index is not
    negative and [has(index)] is false; otherwise it fails by an
    assertion.  A slot whose entry is marked spent is still held, so
    [add] on it fails. *)
Theorem add_succeeds_iff c index entry :
  ((exists c', Coins.add c index entry = Ok c')
   <-> 0 <= index /\ Coins.has c index = false)
  /\ (Coins.add c index entry = Err (AssertionError None)
      <-> index < 0 \/ Coins.has c index = true)
  /\ (forall e, Coins.get c index = Some e ->
        Coins.add c index entry = Err (AssertionError None)).
Proof.
  split; [|split].
  - split.
    + intros [c' (H0 & Hg & _)%add_Ok]. split; [done|].
      by apply has_false_get.
    + intros [H0 Hhas%has_false_get]. by apply add_Ok_intro.
  - split; [|apply add_Err_intro]. intros Herr.
    destruct (Z.ltb_spec index 0) as [|H0]; [by left|right].
    destruct (Coins.has c index) eqn:Hhas; [done|].
    apply has_false_get in Hhas.
    destruct (add_Ok_intro c index entry H0 Hhas) as [c' Hc']. congruence.
  - intros e Hg. apply add_Err_intro. right. apply has_true_get. by eexists.
Qed.

End Slots.

(** ** Removing, and the arrays without a trailing gap *)

Section Removing.

Implicit Types (c : Coins.t) (index : Z) (e entry : CoinEntry.t).

Lemma set_outputs_id c : Coins.set_outputs c (Coins.outputs c) = c.
Proof. by destruct c. Qed.

(** Arrays that do not end in a gap and hold the same entries slot by
    slot are the same array. *)
Lemma no_trailing_gap_length (l1 l2 : list (option CoinEntry.t)) :
  last l2 <> Some None ->
  (forall k : nat, mjoin (l1 !! k) = mjoin (l2 !! k)) ->
  (length l2 <= length l1)%nat.
Proof.
  intros Hlast Hext.
  destruct (decide (length l2 <= length l1)%nat) as [|Hlt]; [done|].
  exfalso. apply Hlast. rewrite last_lookup.
  specialize (Hext (pred (length l2))).
  rewrite (lookup_ge_None_2 l1) in Hext by lia.
  destruct (lookup_lt_is_Some_2 l2 (pred (length l2)) ltac:(lia)) as [o Ho].
  rewrite Ho in *. by destruct o.
Qed.

Lemma no_trailing_gap_ext (l1 l2 : list (option CoinEntry.t)) :
  last l1 <> Some None -> last l2 <> Some None ->
  (forall k : nat, mjoin (l1 !! k) = mjoin (l2 !! k)) ->
  l1 = l2.
Proof.
  intros H1 H2 Hext.
  pose proof (no_trailing_gap_length l1 l2 H2 Hext).
  pose proof (no_trailing_gap_length l2 l1 H1 (fun k => eq_sym (Hext k))).
  apply list_eq_same_length with (length l1); [lia|done|].
  intros k o1 o2 Hk Ho1 Ho2. specialize (Hext k).
  rewrite Ho1, Ho2 in Hext. simpl in Hext. by subst.
Qed.

Lemma coins_ext c c' :
  no_trailing_gap c -> no_trailing_gap c' ->
  Coins.version c' = Coins.version c -> Coins.hash c' = Coins.hash c ->
  Coins.height c' = Coins.height c -> Coins.coinbase c' = Coins.coinbase c ->
  (forall k : nat,
      mjoin (Coins.outputs c' !! k) = mjoin (Coins.outputs c !! k)) ->
  c' = c.
Proof.
  intros Hc Hc' Hv Hh Hht Hcb Hext.
  pose proof (no_trailing_gap_ext _ _ Hc' Hc Hext) as Houts.
  destruct c, c'. simpl in *. by subst.
Qed.

Lemma cleanup_id c : no_trailing_gap c -> Coins.cleanup c = c.
Proof.
  intros Hc. apply coins_ext; try done.
  - apply cleanup_no_trailing_gap.
  - apply cleanup_slot.
Qed.

(** The slots of the array [remove] leaves. *)
Lemma remove_slot c index (k : nat) :
  mjoin (Coins.outputs (Coins.remove c index).2 !! k)
  = if decide (0 <= index /\ k = Z.to_nat index) then None
    else mjoin (Coins.outputs c !! k).
Proof.
  unfold Coins.remove. destruct (Coins.get c index) as [e|] eqn:Hg.
  - cbn [snd]. rewrite cleanup_slot. cbn [Coins.outputs Coins.set_outputs].
    apply get_Some in Hg as [H0 Hl].
    pose proof (lookup_lt_Some _ _ _ Hl) as Hlt.
    case_decide as Hk.
    + destruct Hk as [_ ->]. by rewrite list_lookup_insert_eq.
    + rewrite list_lookup_insert_ne; [done|]. intros <-. by apply Hk.
  - cbn [snd]. case_decide as Hk; [|done]. destruct Hk as [H0 ->].
    by rewrite <- get_lookup.
Qed.

Lemma remove_get_other c index j :
  Coins.get (Coins.remove c index).2 j
  = if decide (j = index) then None else Coins.get c j.
Proof.
  destruct (Z.ltb_spec j 0) as [Hneg|Hpos].
  - rewrite !get_neg by done. by case_decide.
  - rewrite !get_lookup, remove_slot by done.
    destruct (decide (j = index)) as [->|Hne].
    + by rewrite decide_True.
    + rewrite decide_False; [done|]. intros [H0 Heq]. apply Hne. lia.
Qed.

(** X3. [remove(index)] returns the entry [get(index)] returned, marked
    spent or not ([None] stands for the [false] it returns at a slot that
    holds none, where it changes nothing); afterwards the index is not
    held, every other index reads as before, the array is no longer than
    it was and does not end in a gap, and a second [remove(index)] finds
    nothing. *)
Theorem remove_get c index :
  let r := Coins.remove c index in
  r.1 = Coins.get c index
  /\ Coins.get r.2 index = None
  /\ Coins.has r.2 index = false
  /\ (forall j, j <> index -> Coins.get r.2 j = Coins.get c j)
  /\ (Coins.get c index = None -> r.2 = c)
  /\ (length (Coins.outputs r.2) <= length (Coins.outputs c))%nat
  /\ (forall e, Coins.get c index = Some e -> no_trailing_gap r.2)
  /\ Coins.remove r.2 index = (None, r.2).
Proof.
  intros r.
  assert (Coins.get r.2 index = None) as Hgone.
  { subst r. rewrite remove_get_other. by rewrite decide_True. }
  split; [|split; [done|split; [by apply has_false_get|split; [|split;
    [|split; [|split]]]]]].
  - subst r. unfold Coins.remove. by destruct (Coins.get c index).
  - intros j Hj. subst r. rewrite remove_get_other. by rewrite decide_False.
  - subst r. unfold Coins.remove. by intros ->.
  - subst r. unfold Coins.remove. destruct (Coins.get c index); [|done].
    cbn [snd]. unfold Coins.cleanup. cbn [Coins.outputs Coins.set_outputs].
    rewrite length_take, length_insert. lia.
  - intros e Hg. subst r. unfold Coins.remove. rewrite Hg.
    apply cleanup_no_trailing_gap.
  - unfold Coins.remove at 1. by rewrite Hgone.
Qed.

(** X4. On an array that does not end in a gap, [remove(index)] undoes
    [add(index, entry)]: it returns the entry and leaves the record as it
    was before the [add], the gaps [add] pushed to reach the index
    included. *)
Theorem add_remove c index entry c' :
  no_trailing_gap c ->
  Coins.add c index entry = Ok c' ->
  Coins.remove c' index = (Some entry, c).
Proof.
  intros Hc Hadd. pose proof Hadd as (H0 & Hg & Hc')%add_Ok.
  assert (Coins.get c' index = Some entry) as Hget.
  { rewrite get_lookup, (add_slot c index entry) by done.
    by rewrite decide_True. }
  assert ((Coins.remove c' index).1 = Some entry) as H1
    by (unfold Coins.remove; by rewrite Hget).
  assert ((Coins.remove c' index).2 = c) as H2.
  { assert ((Coins.remove c' index).2
            = Coins.cleanup
                (Coins.set_outputs c'
                   (<[Z.to_nat index := None]> (Coins.outputs c')))) as Hrm
      by (unfold Coins.remove; by rewrite Hget).
    apply coins_ext; try done; try (rewrite Hrm; by subst c').
    - rewrite Hrm. apply cleanup_no_trailing_gap.
    - intros k. rewrite remove_slot, (add_slot c index entry) by done.
      destruct (decide (k = Z.to_nat index)) as [->|Hne].
      + rewrite decide_True by done. by rewrite <- get_lookup.
      + rewrite decide_False; [done|]. by intros [_ ?]. }
  destruct (Coins.remove c' index) as [r1 r2]. simpl in *. by subst.
Qed.

Lemma add_remove_example :
  exists c',
    Coins.add example_single 4 (CoinEntry.fromOutput example_output) = Ok c'
    /\ length (Coins.outputs c') = 5%nat
    /\ Coins.remove c' 4
       = (Some (CoinEntry.fromOutput example_output), example_single).
Proof.
  eexists. split; [reflexivity|]. split; [reflexivity|].
  apply (add_remove example_single 4 (CoinEntry.fromOutput example_output));
    [discriminate|reflexivity].
Defined.

(** X5. On an array that does not end in a gap, [add] of the entry that
    [remove(index)] returned, at the same index, restores the record:
    the gaps [cleanup] trimmed after the removal are pushed again. *)
Theorem remove_add c index entry :
  no_trailing_gap c ->
  Coins.get c index = Some entry ->
  Coins.remove c index
  = (Some entry, (Coins.remove c index).2)
  /\ Coins.add (Coins.remove c index).2 index entry = Ok c.
Proof.
  intros Hc Hg. split.
  { unfold Coins.remove. by rewrite Hg. }
  pose proof Hg as [H0 Hl]%get_Some.
  set (r := (Coins.remove c index).2).
  assert (Coins.get r index = None) as Hgone.
  { subst r. rewrite remove_get_other. by rewrite decide_True. }
  destruct (add_Ok_intro r index entry H0 Hgone) as [c' Hadd].
  rewrite Hadd. f_equal. pose proof Hadd as (_ & _ & Hc')%add_Ok.
  assert (no_trailing_gap r) as Hr.
  { subst r. unfold Coins.remove. rewrite Hg. apply cleanup_no_trailing_gap. }
  assert (Coins.version r = Coins.version c /\ Coins.hash r = Coins.hash c
          /\ Coins.height r = Coins.height c
          /\ Coins.coinbase r = Coins.coinbase c) as (Hv & Hh & Hht & Hcb).
  { subst r. unfold Coins.remove. by rewrite Hg. }
  apply coins_ext; try done.
  - by apply (add_no_trailing_gap r index entry).
  - by subst c'.
  - by subst c'.
  - by subst c'.
  - by subst c'.
  - intros k. rewrite (add_slot r index entry) by done. subst r.
    rewrite remove_slot. destruct (decide (k = Z.to_nat index)) as [->|Hne].
    + by rewrite Hl.
    + rewrite decide_False; [done|]. by intros [_ ?].
Qed.

Lemma remove_add_example :
  Coins.add (Coins.remove example_three 2).2 2
    (CoinEntry.fromOutput example_output) = Ok example_three
  /\ length (Coins.outputs (Coins.remove example_three 2).2) = 1%nat.
Proof.
  split; [|reflexivity].
  apply (remove_add example_three 2 (CoinEntry.fromOutput example_output));
    [discriminate|reflexivity].
Defined.

(** X6. [cleanup] is idempotent, it changes nothing exactly when the
    array does not end in a gap, and no reader tells the record before
    from the record after: [get], [has], [isUnspent], [length] and
    [isEmpty] return the same.  It trims gaps only, so the array stays at
    least as long as [length()]. *)
Theorem cleanup_idempotent c :
  Coins.cleanup (Coins.cleanup c) = Coins.cleanup c
  /\ (Coins.cleanup c = c <-> no_trailing_gap c)
  /\ (forall index, Coins.get (Coins.cleanup c) index = Coins.get c index)
  /\ (forall index, Coins.has (Coins.cleanup c) index = Coins.has c index)
  /\ (forall index,
        Coins.isUnspent (Coins.cleanup c) index = Coins.isUnspent c index)
  /\ Coins.length (Coins.cleanup c) = Coins.length c
  /\ Coins.isEmpty (Coins.cleanup c) = Coins.isEmpty c
  /\ (Coins.length c <= length (Coins.outputs (Coins.cleanup c))
      <= length (Coins.outputs c))%nat.
Proof.
  assert (Coins.length (Coins.cleanup c) = Coins.length c) as Hlen.
  { apply length_ext. intros k. apply isUnspent_cleanup. }
  split; [apply cleanup_id, cleanup_no_trailing_gap|].
  split; [|split; [apply get_cleanup|split; [|split;
    [apply isUnspent_cleanup|split; [done|split]]]]].
  - split; [|apply cleanup_id]. intros <-. apply cleanup_no_trailing_gap.
  - intros index. by rewrite !has_get, get_cleanup.
  - unfold Coins.isEmpty. by rewrite Hlen.
  - split; [rewrite <- Hlen; apply length_le|].
    unfold Coins.cleanup. cbn [Coins.outputs Coins.set_outputs].
    rewrite length_take. lia.
Qed.

(** X7. [length()] is the least bound above every unspent index: no
    index at or past it is unspent and, when it is not 0, the index just
    below it is unspent.  [isEmpty()] holds exactly when no index is
    unspent. *)
Theorem length_least c (n : nat) :
  (Coins.length c = n
   <-> (forall i : nat, (n <= i)%nat -> Coins.isUnspent c (Z.of_nat i) = false)
       /\ (n = 0%nat \/ Coins.isUnspent c (Z.of_nat (n - 1)) = true))
  /\ (Coins.isEmpty c = true
      <-> forall index, Coins.isUnspent c index = false).
Proof.
  assert (Coins.length c = n
   <-> (forall i : nat, (n <= i)%nat -> Coins.isUnspent c (Z.of_nat i) = false)
       /\ (n = 0%nat \/ Coins.isUnspent c (Z.of_nat (n - 1)) = true)) as Hn.
  { split.
    - intros <-. split; [apply isUnspent_ge_length|].
      destruct (Coins.length c) as [|m] eqn:Hm; [by left|right].
      rewrite <- Hm. apply isUnspent_last. lia.
    - intros [Hge Hlast].
      destruct (Nat.lt_trichotomy (Coins.length c) n) as [Hlt|[Heq|Hgt]];
        [|done|].
      + destruct Hlast as [->|Hu]; [lia|].
        rewrite isUnspent_ge_length in Hu; [done|lia].
      + pose proof (isUnspent_last c ltac:(lia)) as Hu.
        rewrite Hge in Hu; [done|lia]. }
  split; [done|]. unfold Coins.isEmpty. split.
  - intros Hz%bool_decide_eq_true index.
    destruct (Z.ltb_spec index 0) as [Hneg|Hpos].
    + by rewrite isUnspent_get, get_neg.
    + rewrite <- (Z2Nat.id index) by done. apply isUnspent_ge_length. lia.
  - intros Hnone. apply bool_decide_eq_true.
    destruct (Coins.length c) as [|m] eqn:Hm; [done|].
    pose proof (isUnspent_last c ltac:(lia)) as Hu. by rewrite Hnone in Hu.
Qed.

End Removing.

(** ** What [toRaw] reads of a record *)

Section Serializing.
Context `{Codec}.

Implicit Types (c : Coins.t) (index : Z) (e entry : CoinEntry.t).

Lemma same_bytes_refl (slot : option CoinEntry.t) : same_bytes slot slot.
Proof. split; [done|]. by intros e e' -> [= ->] _. Qed.

Lemma same_bytes_dead (slot slot' : option CoinEntry.t) :
  is_live slot = false -> is_live slot' = false -> same_bytes slot slot'.
Proof.
  intros Hs Hs'. split; [congruence|]. intros e e' -> -> Hsp.
  simpl in Hs. by rewrite Hsp in Hs.
Qed.

Lemma isUnspent_is_live c (k : nat) :
  Coins.isUnspent c (Z.of_nat k) = is_live (mjoin (Coins.outputs c !! k)).
Proof.
  rewrite isUnspent_nat. by destruct (Coins.outputs c !! k) as [[e|]|].
Qed.

Lemma size_outputs_same (l l' : list (option CoinEntry.t)) (total : Z) :
  Forall2 same_bytes l l' ->
  Coins.size_outputs l' total = Coins.size_outputs l total.
Proof.
  intros Hsame. revert total.
  induction Hsame as [|slot slot' l l' [Hlive Hsz] _ IH]; intros total;
    [done|].
  destruct slot as [e|], slot' as [e'|]; simpl in *.
  - destruct (CoinEntry.spent e) eqn:Hs, (CoinEntry.spent e') eqn:Hs';
      try done.
    destruct (Hsz e e' eq_refl eq_refl Hs) as [-> _].
    destruct (CoinEntry.getSize e) as [n|]; [|done].
    cbn [mbind result_bind]. apply IH.
  - destruct (CoinEntry.spent e); [apply IH|done].
  - destruct (CoinEntry.spent e'); [apply IH|done].
  - apply IH.
Qed.

Lemma write_outputs_same (l l' : list (option CoinEntry.t)) bw :
  Forall2 same_bytes l l' ->
  Coins.write_outputs l' bw = Coins.write_outputs l bw.
Proof.
  intros Hsame. revert bw.
  induction Hsame as [|slot slot' l l' [Hlive Hsz] _ IH]; intros bw; [done|].
  destruct slot as [e|], slot' as [e'|]; simpl in *.
  - destruct (CoinEntry.spent e) eqn:Hs, (CoinEntry.spent e') eqn:Hs';
      try done.
    destruct (Hsz e e' eq_refl eq_refl Hs) as [_ ->].
    destruct (CoinEntry.toWriter e bw) as [bw'|]; [|done].
    cbn [mbind result_bind]. apply IH.
  - destruct (CoinEntry.spent e); [apply IH|done].
  - destruct (CoinEntry.spent e'); [apply IH|done].
  - apply IH.
Qed.

Lemma write_spent_ext c c' (len i n : nat) bw :
  (forall k : nat,
      Coins.isUnspent c' (Z.of_nat k) = Coins.isUnspent c (Z.of_nat k)) ->
  Coins.write_spent c' len i n bw = Coins.write_spent c len i n bw.
Proof.
  intros Hext. revert i bw. induction n as [|n IH]; intros i bw; [done|].
  cbn [Coins.write_spent]. by rewrite IH, (spent_byte_ext c c').
Qed.

Lemma header_ext c c' (len size : Z) :
  (forall k : nat,
      Coins.isUnspent c' (Z.of_nat k) = Coins.isUnspent c (Z.of_nat k)) ->
  Coins.coinbase c' = Coins.coinbase c ->
  Coins.header c' len size = Coins.header c len size.
Proof.
  intros Hext Hcb. unfold Coins.header.
  pose proof (Hext 0%nat) as H0. pose proof (Hext 1%nat) as H1.
  change (Z.of_nat 0) with 0 in H0. change (Z.of_nat 1) with 1 in H1.
  by rewrite H0, H1, Hcb.
Qed.

(** [toRaw] reads version, height and coinbase flag and, of the array,
    the unspent entries through [getSize] and [toWriter]. *)
Lemma toRaw_ext c c' :
  Coins.version c' = Coins.version c ->
  Coins.height c' = Coins.height c ->
  Coins.coinbase c' = Coins.coinbase c ->
  (forall k : nat,
      same_bytes (mjoin (Coins.outputs c !! k))
        (mjoin (Coins.outputs c' !! k))) ->
  Coins.toRaw c' = Coins.toRaw c.
Proof.
  intros Hv Hh Hcb Hsame.
  assert (forall k : nat,
            Coins.isUnspent c' (Z.of_nat k) = Coins.isUnspent c (Z.of_nat k))
    as Hext.
  { intros k. rewrite !isUnspent_is_live. by destruct (Hsame k). }
  pose proof (length_ext c c' Hext) as Hlen.
  assert (Forall2 same_bytes (take (Coins.length c) (Coins.outputs c))
            (take (Coins.length c) (Coins.outputs c'))) as Htake.
  { pose proof (length_le c). pose proof (length_le c').
    apply Forall2_same_length_lookup_2.
    - rewrite !length_take. lia.
    - intros k slot slot' [Hl Hk]%lookup_take_Some [Hl' _]%lookup_take_Some.
      specialize (Hsame k). by rewrite Hl, Hl' in Hsame. }
  unfold Coins.toRaw. rewrite Hlen, (header_ext c c') by done.
  destruct (Coins.header c _ _) as [code|]; [|done].
  cbn [mbind result_bind]. unfold Coins.getSize.
  rewrite Hv, (size_outputs_same _ _ _ Htake).
  destruct (Coins.size_outputs _ _) as [total|]; [|done].
  cbn [mbind result_bind].
  by rewrite Hh, (write_spent_ext c c'), (write_outputs_same _ _ _ Htake).
Qed.

(** The slot [spend(index)] was called on holds no unspent entry, and the
    other slots are as before. *)
Lemma spend_slot c index (k : nat) :
  if decide (0 <= index /\ k = Z.to_nat index)
  then is_live (mjoin (Coins.outputs (Coins.spend c index).2 !! k)) = false
  else Coins.outputs (Coins.spend c index).2 !! k = Coins.outputs c !! k.
Proof.
  case_decide as Hk.
  - destruct Hk as [H0 ->]. rewrite <- isUnspent_is_live, Z2Nat.id by done.
    destruct (Coins.isUnspent c index) eqn:Hu.
    + destruct (spend_unspent c index Hu) as (e & Hg & _ & ->). cbn [snd].
      by rewrite isUnspent_get, (get_insert c index e).
    + by rewrite (spend_not_unspent c index Hu).
  - unfold Coins.spend. destruct (Coins.get c index) as [e|] eqn:Hg; [|done].
    destruct (CoinEntry.spent e); [done|]. cbn [snd Coins.outputs
      Coins.set_outputs].
    apply get_Some in Hg as [H0 _].
    rewrite list_lookup_insert_ne; [done|]. intros <-. by apply Hk.
Qed.

Lemma spend_remove_slots c index (k : nat) :
  same_bytes (mjoin (Coins.outputs (Coins.remove c index).2 !! k))
    (mjoin (Coins.outputs (Coins.spend c index).2 !! k)).
Proof.
  rewrite remove_slot. pose proof (spend_slot c index k) as Hs.
  case_decide.
  - by apply same_bytes_dead.
  - rewrite Hs. apply same_bytes_refl.
Qed.

(** X8. [spend(index)] keeps the entry, so [has] answers as before,
    and [remove(index)] drops it; [toRaw] does not tell the two apart:
    after [spend(index)] and after [remove(index)] the same indices are
    unspent, [length()] is the same and [toRaw] returns the same, buffer
    or error.  Nor does [toRaw] read the hash or the trailing gaps that
    [cleanup] trims. *)
Theorem toRaw_spend_remove c index :
  (forall j, Coins.has (Coins.spend c index).2 j = Coins.has c j)
  /\ Coins.has (Coins.remove c index).2 index = false
  /\ (forall j,
        Coins.isUnspent (Coins.spend c index).2 j
        = Coins.isUnspent (Coins.remove c index).2 j)
  /\ Coins.length (Coins.spend c index).2
     = Coins.length (Coins.remove c index).2
  /\ Coins.toRaw (Coins.spend c index).2
     = Coins.toRaw (Coins.remove c index).2
  /\ Coins.toRaw (Coins.cleanup c) = Coins.toRaw c
  /\ (forall hash : string,
        Coins.toRaw (Coins.mk (Coins.version c) hash (Coins.height c)
                       (Coins.coinbase c) (Coins.outputs c))
        = Coins.toRaw c).
Proof.
  assert (forall k : nat,
            Coins.isUnspent (Coins.spend c index).2 (Z.of_nat k)
            = Coins.isUnspent (Coins.remove c index).2 (Z.of_nat k)) as Hext.
  { intros k. rewrite !isUnspent_is_live.
    by destruct (spend_remove_slots c index k). }
  assert (Coins.version (Coins.spend c index).2
          = Coins.version (Coins.remove c index).2
          /\ Coins.height (Coins.spend c index).2
             = Coins.height (Coins.remove c index).2
          /\ Coins.coinbase (Coins.spend c index).2
             = Coins.coinbase (Coins.remove c index).2) as (Hv & Hh & Hcb).
  { unfold Coins.spend, Coins.remove.
    destruct (Coins.get c index) as [e|]; [|done].
    by destruct (CoinEntry.spent e). }
  split; [|split; [|split; [|split; [by apply length_ext|split;
    [|split]]]]].
  - intros j. rewrite !has_get. unfold Coins.spend.
    destruct (Coins.get c index) as [e|] eqn:Hg; [|done].
    destruct (CoinEntry.spent e); [done|]. cbn [snd].
    destruct (decide (j = index)) as [->|Hne].
    + rewrite (get_insert c index e), Hg by done.
      rewrite !bool_decide_eq_true_2; [done|by eexists..].
    + assert (Coins.get
                (Coins.set_outputs c
                   (<[Z.to_nat index := Some (CoinEntry.set_spent e)]>
                      (Coins.outputs c))) j = Coins.get c j) as ->; [|done].
      destruct (Z.ltb_spec j 0) as [Hneg|Hpos]; [by rewrite !get_neg|].
      rewrite !get_lookup by done. cbn [Coins.outputs Coins.set_outputs].
      apply get_Some in Hg as [H0 _].
      rewrite list_lookup_insert_ne; [done|lia].
  - apply has_false_get. rewrite remove_get_other. by rewrite decide_True.
  - intros j. destruct (Z.ltb_spec j 0) as [Hneg|Hpos].
    + by rewrite !isUnspent_get, !get_neg.
    + rewrite <- (Z2Nat.id j) by done. apply Hext.
  - apply toRaw_ext; try done. apply spend_remove_slots.
  - apply toRaw_ext; try done. intros k. rewrite cleanup_slot.
    apply same_bytes_refl.
  - intros hash. apply toRaw_ext; try done. intros k. apply same_bytes_refl.
Qed.

End Serializing.

(** ** Materializing outputs and coins *)

Section Materializing.
Context `{Codec}.

Implicit Types (c : Coins.t) (index : Z) (e entry : CoinEntry.t).

(** What [toOutput] leaves of an entry: the output is cached, the rest
    stays. *)
Lemma toOutput_entry e (o : Output) e' :
  CoinEntry.toOutput e = Ok (o, e') ->
  CoinEntry.output e' = Some o
  /\ CoinEntry.raw e' = CoinEntry.raw e
  /\ CoinEntry.offset e' = CoinEntry.offset e
  /\ CoinEntry.size e' = CoinEntry.size e
  /\ CoinEntry.spent e' = CoinEntry.spent e
  /\ (CoinEntry.output e = None -> exists data, CoinEntry.raw e = Some data).
Proof.
  unfold CoinEntry.toOutput, CoinEntry.reader.
  destruct (CoinEntry.output e) as [o0|] eqn:Ho.
  - intros [= <- <-]. by rewrite Ho.
  - destruct (CoinEntry.raw e) as [data|] eqn:Hraw; [|done].
    cbn [mbind result_bind].
    destruct (BufferReader.decompress_output _) as [o1|]; [|done].
    cbn [mbind result_bind]. intros [= <- <-]. simpl.
    repeat split; try done. intros _. by exists data.
Qed.

Lemma toOutput_same_bytes e (o : Output) e' :
  CoinEntry.toOutput e = Ok (o, e') -> same_bytes (Some e) (Some e').
Proof.
  intros Hto.
  pose proof Hto as (Ho' & Hraw & Hoff & Hsz & Hsp & Hsrc)%toOutput_entry.
  split; [simpl; by rewrite Hsp|]. intros e0 e0' [= <-] [= <-] _.
  unfold CoinEntry.getSize, CoinEntry.toWriter.
  rewrite Hraw, Hoff, Hsz. destruct (CoinEntry.raw e) as [data|] eqn:Hr.
  - done.
  - destruct (CoinEntry.output e) as [o0|] eqn:Ho.
    + unfold CoinEntry.toOutput in Hto. rewrite Ho in Hto.
      injection Hto as <- <-. by rewrite Ho.
    + destruct (Hsrc eq_refl) as [data Hdata]. congruence.
Qed.

Lemma toOutput_again e (o : Output) e' :
  CoinEntry.toOutput e = Ok (o, e') -> CoinEntry.toOutput e' = Ok (o, e').
Proof.
  intros (Ho' & _)%toOutput_entry. unfold CoinEntry.toOutput. by rewrite Ho'.
Qed.

(** The slots of the array [getOutput] leaves. *)
Lemma getOutput_Ok c index found c' :
  Coins.getOutput c index = Ok (found, c') ->
  match Coins.get c index with
  | Some e =>
      exists o e',
        CoinEntry.toOutput e = Ok (o, e') /\ found = Some o
        /\ c' = Coins.set_outputs c
                  (<[Z.to_nat index := Some e']> (Coins.outputs c))
        /\ Coins.get c' index = Some e'
  | None => found = None /\ c' = c
  end.
Proof.
  unfold Coins.getOutput. destruct (Coins.get c index) as [e|] eqn:Hg.
  - destruct (CoinEntry.toOutput e) as [[o e']|] eqn:Hto; [|done].
    cbn [mbind result_bind]. intros [= <- <-]. exists o, e'.
    split; [done|]. split; [done|]. split; [done|].
    by apply (get_insert c index e).
  - by intros [= <- <-].
Qed.

Lemma getOutput_slot c index found c' (k : nat) :
  Coins.getOutput c index = Ok (found, c') ->
  same_bytes (mjoin (Coins.outputs c !! k)) (mjoin (Coins.outputs c' !! k))
  /\ (Z.of_nat k <> index ->
      Coins.outputs c' !! k = Coins.outputs c !! k).
Proof.
  intros Hget%getOutput_Ok.
  destruct (Coins.get c index) as [e|] eqn:Hg.
  - destruct Hget as (o & e' & Hto & _ & -> & _).
    apply get_Some in Hg as [H0 Hl]. cbn [Coins.outputs Coins.set_outputs].
    destruct (decide (k = Z.to_nat index)) as [->|Hne].
    + rewrite list_lookup_insert_eq by by eapply lookup_lt_Some.
      rewrite Hl. split; [by eapply toOutput_same_bytes|lia].
    + rewrite list_lookup_insert_ne by done.
      split; [apply same_bytes_refl|done].
  - destruct Hget as [_ ->]. split; [apply same_bytes_refl|done].
Qed.

(** X9. Materializing an output does not show outside the entry: after
    [getOutput(index)] returned, a second call returns the same output
    and changes nothing, [isUnspent], [has] and [length] are as before,
    every other slot is untouched, and [toRaw] returns what it returned
    before, buffer or error. *)
Theorem getOutput_cached c index found c' :
  Coins.getOutput c index = Ok (found, c') ->
  Coins.getOutput c' index = Ok (found, c')
  /\ (forall j, Coins.isUnspent c' j = Coins.isUnspent c j)
  /\ (forall j, Coins.has c' j = Coins.has c j)
  /\ Coins.length c' = Coins.length c
  /\ length (Coins.outputs c') = length (Coins.outputs c)
  /\ (forall j, j <> index -> Coins.get c' j = Coins.get c j)
  /\ Coins.toRaw c' = Coins.toRaw c.
Proof.
  intros Hget.
  assert (forall k : nat,
            Coins.isUnspent c' (Z.of_nat k) = Coins.isUnspent c (Z.of_nat k))
    as Hext.
  { intros k. rewrite !isUnspent_is_live.
    by destruct (getOutput_slot c index found c' k Hget) as [[? _] _]. }
  assert (Coins.version c' = Coins.version c
          /\ Coins.height c' = Coins.height c
          /\ Coins.coinbase c' = Coins.coinbase c
          /\ length (Coins.outputs c') = length (Coins.outputs c))
    as (Hv & Hh & Hcb & Hlen).
  { apply getOutput_Ok in Hget. destruct (Coins.get c index) as [e|].
    - destruct Hget as (o & e' & _ & _ & -> & _).
      cbn [Coins.outputs Coins.set_outputs]. by rewrite length_insert.
    - by destruct Hget as [_ ->]. }
  assert (forall j, j <> index -> Coins.get c' j = Coins.get c j) as Hother.
  { intros j Hj. destruct (Z.ltb_spec j 0) as [Hneg|Hpos].
    - by rewrite !get_neg.
    - rewrite !get_lookup by done.
      destruct (getOutput_slot c index found c' (Z.to_nat j) Hget)
        as [_ ->]; [done|lia]. }
  split; [|split; [|split; [|split; [by apply length_ext|split;
    [done|split; [done|]]]]]].
  - pose proof Hget as Hshape%getOutput_Ok.
    destruct (Coins.get c index) as [e|] eqn:Hg.
    + destruct Hshape as (o & e' & Hto & -> & Hc' & Hg').
      unfold Coins.getOutput. rewrite Hg', (toOutput_again e o e' Hto).
      cbn [mbind result_bind]. do 2 f_equal.
      apply get_Some in Hg' as [_ Hl'].
      by rewrite list_insert_id, set_outputs_id.
    + destruct Hshape as [-> ->]. unfold Coins.getOutput. by rewrite Hg.
  - intros j. destruct (Z.ltb_spec j 0) as [Hneg|Hpos].
    + by rewrite !isUnspent_get, !get_neg.
    + rewrite <- (Z2Nat.id j) by done. apply Hext.
  - intros j. destruct (decide (j = index)) as [->|Hne].
    + rewrite !has_get. apply getOutput_Ok in Hget.
      destruct (Coins.get c index) as [e|] eqn:Hg.
      * destruct Hget as (o & e' & _ & _ & _ & ->).
        rewrite !bool_decide_eq_true_2; [done|by eexists..].
      * destruct Hget as [_ ->]. by rewrite Hg.
    + by rewrite !has_get, Hother.
  - apply toRaw_ext; try done. intros k.
    by destruct (getOutput_slot c index found c' k Hget).
Qed.

(** X10. [getCoin(index)] is [getOutput(index)] with the output put in a
    coin that carries version, height, coinbase flag and hash of the
    record and the index asked for; it fails when [getOutput] fails and
    leaves the record as [getOutput] leaves it. *)
Theorem getCoin_getOutput c index :
  Coins.getCoin c index
  = match Coins.getOutput c index with
    | Ok (found, c') =>
        Ok (option_map
              (fun o : Output =>
                 mkCoin (Coins.version c) (Coins.height c) (value o)
                   (script o) (Coins.coinbase c) (Coins.hash c) index)
              found, c')
    | Err err => Err err
    end.
Proof.
  unfold Coins.getCoin, Coins.getOutput, Coins.toCoin.
  destruct (Coins.get c index) as [e|]; [|done].
  by destruct (CoinEntry.toOutput e) as [[o e']|].
Qed.

(** An entry that holds its output is returned as it is. *)
Lemma getOutput_held c index e (o : Output) :
  Coins.get c index = Some e -> CoinEntry.output e = Some o ->
  Coins.getOutput c index = Ok (Some o, c).
Proof.
  intros Hg Ho. unfold Coins.getOutput, CoinEntry.toOutput.
  rewrite Hg, Ho. cbn [mbind result_bind]. do 2 f_equal.
  apply get_Some in Hg as [_ Hl]. by rewrite list_insert_id, set_outputs_id.
Qed.

(** X11. After [addOutput(index, output)] returned, the index is
    unspent, [getOutput(index)] returns the output and [getCoin(index)]
    the output with version, height, coinbase flag and hash of the record
    and the index; neither changes the record. *)
Theorem addOutput_getOutput c index (output : Output) c' :
  Coins.addOutput c index output = Ok c' ->
  isUnspendable (script output) = false
  /\ Coins.isUnspent c' index = true
  /\ Coins.getOutput c' index = Ok (Some output, c')
  /\ Coins.getCoin c' index
     = Ok (Some (mkCoin (Coins.version c) (Coins.height c) (value output)
                   (script output) (Coins.coinbase c) (Coins.hash c) index),
           c').
Proof.
  unfold Coins.addOutput, assert.
  destruct (isUnspendable (script output)) eqn:Hu; [done|].
  cbn [negb mbind result_bind]. intros Hadd.
  pose proof Hadd as (H0 & _ & Hc')%add_Ok.
  assert (Coins.get c' index = Some (CoinEntry.fromOutput output)) as Hg.
  { rewrite get_lookup, (add_slot c index _ c') by done.
    by rewrite decide_True. }
  assert (Coins.getOutput c' index = Ok (Some output, c')) as Hout
    by (by eapply getOutput_held).
  split; [done|]. split; [by rewrite isUnspent_get, Hg|]. split; [done|].
  unfold Coins.getCoin, Coins.toCoin, CoinEntry.toOutput. rewrite Hg.
  cbn [CoinEntry.fromOutput CoinEntry.output mbind result_bind].
  apply get_Some in Hg as [_ Hl].
  rewrite list_insert_id, set_outputs_id by done. by subst c'.
Qed.

End Materializing.

(** ** Coins, transactions and indices outside the array *)

Section Building.
Context `{Codec}.

Implicit Types (c : Coins.t) (index : Z) (e entry : CoinEntry.t).

(** X12. [addCoin(coin)] keeps value and script of the coin and its
    index, not its version, height, coinbase flag or hash: [getCoin] at
    the index of the coin returns a coin with value and script of the
    coin and with version, height, coinbase flag and hash of the record. *)
Theorem addCoin_getCoin c (coin : Coin) c' :
  Coins.addCoin c coin = Ok c' ->
  Coins.isUnspent c' (coin_index coin) = true
  /\ Coins.getOutput c' (coin_index coin)
     = Ok (Some (mkOutput (coin_value coin) (coin_script coin)), c')
  /\ Coins.getCoin c' (coin_index coin)
     = Ok (Some (mkCoin (Coins.version c) (Coins.height c) (coin_value coin)
                   (coin_script coin) (Coins.coinbase c) (Coins.hash c)
                   (coin_index coin)), c').
Proof.
  unfold Coins.addCoin, assert.
  destruct (isUnspendable (coin_script coin)) eqn:Hu; [done|].
  cbn [negb mbind result_bind]. intros Hadd.
  pose proof Hadd as (H0 & _ & Hc')%add_Ok.
  assert (Coins.get c' (coin_index coin) = Some (CoinEntry.fromCoin coin))
    as Hg.
  { rewrite get_lookup, (add_slot c (coin_index coin) _ c') by done.
    by rewrite decide_True. }
  split; [by rewrite isUnspent_get, Hg|]. split.
  - by eapply getOutput_held.
  - unfold Coins.getCoin, Coins.toCoin, CoinEntry.toOutput. rewrite Hg.
    cbn [CoinEntry.fromCoin CoinEntry.output mbind result_bind value script].
    apply get_Some in Hg as [_ Hl].
    rewrite list_insert_id, set_outputs_id by done. by subst c'.
Qed.

(** The record [fromTX] builds holds no entry that is marked spent. *)
Lemma fromTX_unspent (tx : TX) (height : Z) index e :
  Coins.get (Coins.static_fromTX tx height) index = Some e ->
  exists o, tx_outputs tx !! Z.to_nat index = Some o
            /\ isUnspendable (script o) = false
            /\ e = CoinEntry.fromOutput o.
Proof.
  intros Hg. pose proof Hg as [H0 _]%get_Some.
  unfold Coins.static_fromTX in Hg.
  pose proof (fromTX_get Coins.new tx height (Z.to_nat index)) as Hf.
  cbn [Coins.new Coins.outputs length Nat.add] in Hf.
  rewrite Z2Nat.id, Hg in Hf by done.
  destruct (tx_outputs tx !! Z.to_nat index) as [o|]; [|done].
  simpl in Hf. destruct (isUnspendable (script o)) eqn:Hu; [done|].
  injection Hf as ->. by exists o.
Qed.

(** X13. [Coins.fromTX(tx, height)] takes version, hash and coinbase
    flag of the transaction and the height given; output [i] of the
    transaction, when its script is not unspendable, is unspent at index
    [i], and [getCoin(i)] returns it with the metadata of the
    transaction, the height and the index; nothing is held at an index
    the transaction has no output for; no entry is marked spent, so
    [length()] is [outputs.length], which is at most the count of outputs
    of the transaction. *)
Theorem fromTX_coins (tx : TX) (height : Z) :
  let c := Coins.static_fromTX tx height in
  Coins.version c = tx_version tx
  /\ Coins.hash c = tx_hash tx
  /\ Coins.height c = height
  /\ Coins.coinbase c = tx_isCoinbase tx
  /\ (forall (i : nat) (o : Output),
        tx_outputs tx !! i = Some o ->
        isUnspendable (script o) = false ->
        Coins.isUnspent c (Z.of_nat i) = true
        /\ Coins.getCoin c (Z.of_nat i)
           = Ok (Some (mkCoin (tx_version tx) height (value o) (script o)
                         (tx_isCoinbase tx) (tx_hash tx) (Z.of_nat i)), c))
  /\ (forall index,
        index < 0 \/ Z.of_nat (length (tx_outputs tx)) <= index ->
        Coins.has c index = false)
  /\ (forall index, Coins.has c index = Coins.isUnspent c index)
  /\ (length (Coins.outputs c) <= length (tx_outputs tx))%nat
  /\ Coins.length c = length (Coins.outputs c)
  /\ no_trailing_gap c.
Proof.
  intros c.
  assert (forall index, Coins.has c index = Coins.isUnspent c index) as Hhas.
  { intros index. rewrite has_get, isUnspent_get.
    destruct (Coins.get c index) as [e|] eqn:Hg; [|done].
    destruct (fromTX_unspent tx height index e Hg) as (o & _ & _ & ->).
    rewrite bool_decide_eq_true_2; [done|by eexists]. }
  assert (no_trailing_gap c) as Hgap by apply cleanup_no_trailing_gap.
  split; [done|]. split; [done|]. split; [done|]. split; [done|].
  split; [|split; [|split; [done|split; [|split; [|done]]]]].
  - intros i o Ho Hu.
    assert (Coins.get c (Z.of_nat i) = Some (CoinEntry.fromOutput o)) as Hg.
    { subst c. unfold Coins.static_fromTX.
      pose proof (fromTX_get Coins.new tx height i) as Hf.
      cbn [Coins.new Coins.outputs length Nat.add] in Hf.
      rewrite Hf, Ho. simpl. by rewrite Hu. }
    split; [by rewrite isUnspent_get, Hg|].
    unfold Coins.getCoin, Coins.toCoin, CoinEntry.toOutput. rewrite Hg.
    cbn [CoinEntry.fromOutput CoinEntry.output mbind result_bind].
    apply get_Some in Hg as [_ Hl]. rewrite Nat2Z.id in Hl.
    by rewrite Nat2Z.id, list_insert_id, set_outputs_id.
  - intros index Hout. apply has_false_get.
    destruct (Coins.get c index) as [e|] eqn:Hg; [|done].
    pose proof Hg as [H0 _]%get_Some.
    destruct (fromTX_unspent tx height index e Hg) as (o & Ho & _).
    apply lookup_lt_Some in Ho. lia.
  - subst c. unfold Coins.static_fromTX, Coins.fromTX, Coins.cleanup.
    cbn [Coins.outputs Coins.set_outputs Coins.new app].
    rewrite length_take, length_fmap. lia.
  - apply length_eq_outputs.
    destruct (Coins.outputs c) as [|slot outs] eqn:Houts; [by left|right].
    rewrite <- Houts. rewrite <- Hhas, has_get.
    unfold no_trailing_gap in Hgap. rewrite last_lookup in Hgap.
    assert (0 < length (Coins.outputs c))%nat as Hpos
      by (rewrite Houts; simpl; lia).
    destruct (lookup_lt_is_Some_2 (Coins.outputs c)
                (pred (length (Coins.outputs c))) ltac:(lia)) as [last Hl].
    rewrite Hl in Hgap. destruct last as [e|]; [|done].
    apply bool_decide_eq_true. exists e. apply get_Some.
    split; [lia|]. rewrite Nat2Z.id.
    by replace (length (Coins.outputs c) - 1)%nat
      with (pred (length (Coins.outputs c))) by lia.
Qed.

(** X14. An index outside the array, negative or at or past
    [outputs.length], is answered by every reader as not held ([has] and
    [isUnspent] are false, [get], [getOutput] and [getCoin] return
    nothing), and [spend] and [remove] at it do nothing; none of them
    fails. *)
Theorem index_outside c index :
  index < 0 \/ Z.of_nat (length (Coins.outputs c)) <= index ->
  Coins.get c index = None
  /\ Coins.has c index = false
  /\ Coins.isUnspent c index = false
  /\ Coins.getOutput c index = Ok (None, c)
  /\ Coins.getCoin c index = Ok (None, c)
  /\ Coins.spend c index = (None, c)
  /\ Coins.remove c index = (None, c).
Proof.
  intros Hout.
  assert (Coins.get c index = None) as Hg.
  { apply get_None. destruct Hout as [?|Hge]; [by left|right; right].
    apply lookup_ge_None_2. lia. }
  split; [done|]. split; [by apply has_false_get|].
  split; [by rewrite isUnspent_get, Hg|].
  unfold Coins.getOutput, Coins.getCoin, Coins.spend, Coins.remove.
  by rewrite Hg.
Qed.

Lemma length_unique c (n : nat) :
  (forall i : nat, (n <= i)%nat -> Coins.isUnspent c (Z.of_nat i) = false) ->
  n = 0%nat \/ Coins.isUnspent c (Z.of_nat (n - 1)) = true ->
  Coins.length c = n.
Proof.
  intros Hge Hlast.
  destruct (Nat.lt_trichotomy (Coins.length c) n) as [Hlt|[Heq|Hgt]];
    [|done|].
  - destruct Hlast as [->|Hu]; [lia|].
    rewrite isUnspent_ge_length in Hu; [done|lia].
  - pose proof (isUnspent_last c ltac:(lia)) as Hu.
    rewrite Hge in Hu; [done|lia].
Qed.

(** X26. [length()] after [add(index, entry)]: an entry that is not
    marked spent raises it to [index + 1] when it was lower, and an entry
    that is marked spent leaves it, however far [add] extended the
    array. *)
Theorem add_length_unspent c index entry c' :
  Coins.add c index entry = Ok c' ->
  Coins.length c'
  = if CoinEntry.spent entry then Coins.length c
    else (Coins.length c `max` (Z.to_nat index + 1))%nat.
Proof.
  intros Hadd. pose proof Hadd as (H0 & Hg & _)%add_Ok.
  assert (forall k : nat,
            Coins.isUnspent c' (Z.of_nat k)
            = if decide (k = Z.to_nat index)
              then negb (CoinEntry.spent entry)
              else Coins.isUnspent c (Z.of_nat k)) as Hu.
  { intros k. rewrite !isUnspent_is_live, (add_slot c index entry c') by done.
    by case_decide. }
  assert (Coins.isUnspent c index = false) as Hidx
    by (by rewrite isUnspent_get, Hg).
  destruct (CoinEntry.spent entry) eqn:Hs.
  - apply length_ext. intros k. rewrite Hu. case_decide as Hk; [|done].
    subst k. by rewrite Z2Nat.id, Hidx.
  - apply length_unique.
    + intros i Hi. rewrite Hu, decide_False by lia.
      apply isUnspent_ge_length. lia.
    + right. rewrite Hu. case_decide as Hk; [done|].
      assert (Z.to_nat index + 1 < Coins.length c)%nat as Hlt by lia.
      replace (Coins.length c `max` (Z.to_nat index + 1) - 1)%nat
        with (Coins.length c - 1)%nat by lia.
      apply isUnspent_last. lia.
Qed.

End Building.

(** ** Decoding any buffer *)

Section DecodingAny.
Context `{Codec}.

Implicit Types (c : Coins.t) (index : Z) (e entry : CoinEntry.t).
Implicit Types (data : Buffer) (bits : list bool).

(** What [fromRaw] did when it returned. *)
Lemma fromRaw_Ok data (hash : string) c' :
  Coins.static_fromRaw data hash = Ok c' ->
  exists (version height code : Z) (offset pos : nat) slots (pos' : nat),
    read_header data = Ok (version, height, code, offset)
    /\ decode_walk data (slot_bits data code offset) pos = Ok (slots, pos')
    /\ c' = Coins.cleanup
              (Coins.mk version hash height (Coins.code_bit code 1) slots).
Proof.
  unfold Coins.static_fromRaw. rewrite fromRaw_walk.
  destruct (read_header data) as [[[[version height] code] offset]|]; [|done].
  cbn [mbind result_bind].
  destruct (BufferReader.seek _ _) as [br|]; [|done].
  cbn [mbind result_bind].
  destruct (decode_walk data _ _) as [[slots pos']|] eqn:Hw; [|done].
  cbn [mbind result_bind Coins.new Coins.outputs app]. intros [= <-].
  by exists version, height, code, offset, (BufferReader.offset br), slots,
    pos'.
Qed.

(** The entries [fromRaw] builds lie in the buffer one after the other,
    in the order of their indices. *)
Lemma decode_walk_order data bits (pos : nat) slots (pos' : nat) :
  decode_walk data bits pos = Ok (slots, pos') ->
  (pos <= pos')%nat
  /\ forall (i : nat) e,
       slots !! i = Some (Some e) ->
       (pos <= CoinEntry.offset e)%nat
       /\ (CoinEntry.offset e + CoinEntry.size e <= pos')%nat
       /\ forall (j : nat) e2,
            (i < j)%nat -> slots !! j = Some (Some e2) ->
            (CoinEntry.offset e + CoinEntry.size e <= CoinEntry.offset e2)%nat.
Proof.
  revert pos slots. induction bits as [|[] bits IH]; intros pos slots.
  - simpl. intros [= <- <-]. split; [done|]. by intros i e.
  - cbn [decode_walk]. destruct (skip_at data pos) as [sz|] eqn:Hs; [|done].
    cbn [mbind result_bind].
    destruct (decode_walk data bits (pos + sz)) as [[slots1 pos1]|] eqn:Hw;
      [|done].
    cbn [mbind result_bind]. intros [= <- <-].
    destruct (IH _ _ Hw) as [Hle Hin]. split; [lia|].
    intros [|i] e Hl; simpl in Hl.
    + injection Hl as <-. simpl. split; [done|]. split; [lia|].
      intros [|j] e2 Hij Hl2; [lia|]. simpl in Hl2.
      destruct (Hin j e2 Hl2) as (? & _). lia.
    + destruct (Hin i e Hl) as (Hlo & Hhi & Hnext).
      split; [lia|]. split; [done|].
      intros [|j] e2 Hij Hl2; [lia|]. simpl in Hl2.
      apply (Hnext j e2); [lia|done].
  - cbn [decode_walk].
    destruct (decode_walk data bits pos) as [[slots1 pos1]|] eqn:Hw; [|done].
    cbn [mbind result_bind]. intros [= <- <-].
    destruct (IH _ _ Hw) as [Hle Hin]. split; [done|].
    intros [|i] e Hl; simpl in Hl; [done|].
    destruct (Hin i e Hl) as (Hlo & Hhi & Hnext).
    split; [done|]. split; [done|].
    intros [|j] e2 Hij Hl2; [lia|]. simpl in Hl2.
    apply (Hnext j e2); [lia|done].
Qed.

Lemma cleanup_lookup_entry c (i : nat) e :
  Coins.outputs (Coins.cleanup c) !! i = Some (Some e) ->
  Coins.outputs c !! i = Some (Some e).
Proof.
  rewrite cleanup_lookup. by case_decide.
Qed.

(** A record in which no entry is marked spent and whose array does not
    end in a gap has [length()] equal to [outputs.length]. *)
Lemma length_no_spent c :
  no_trailing_gap c ->
  (forall (i : nat) e,
      Coins.outputs c !! i = Some (Some e) -> CoinEntry.spent e = false) ->
  Coins.length c = length (Coins.outputs c).
Proof.
  intros Hgap Hlive. apply length_eq_outputs. unfold no_trailing_gap in Hgap.
  destruct (last (Coins.outputs c)) as [[e|]|] eqn:Hlast.
  - right. apply last_live_isUnspent. exists e. split; [done|].
    rewrite last_lookup in Hlast. by apply (Hlive _ _ Hlast).
  - done.
  - left. by apply last_None.
Qed.

(** No entry of the record [fromRaw] returns is marked spent. *)
Lemma fromRaw_unspent data (hash : string) c' (i : nat) e :
  Coins.static_fromRaw data hash = Ok c' ->
  Coins.outputs c' !! i = Some (Some e) -> CoinEntry.spent e = false.
Proof.
  intros (version & height & code & offset & pos & slots & pos' & Hh & Hw
          & ->)%fromRaw_Ok Hl%cleanup_lookup_entry.
  by destruct (decode_walk_entry _ _ _ _ _ _ _ Hw Hl) as (_ & _ & ? & _).
Qed.

Lemma fromRaw_hash data (hash : string) c' :
  Coins.static_fromRaw data hash = Ok c' -> Coins.hash c' = hash.
Proof.
  by intros (version & height & code & offset & pos & slots & pos' & _ & _
             & ->)%fromRaw_Ok.
Qed.

Lemma fromRaw_has data (hash : string) c' index :
  Coins.static_fromRaw data hash = Ok c' ->
  Coins.has c' index = Coins.isUnspent c' index.
Proof.
  intros Hdec. rewrite has_get, isUnspent_get.
  destruct (Coins.get c' index) as [e|] eqn:Hg; [|done].
  apply get_Some in Hg as [_ Hl].
  rewrite (fromRaw_unspent _ _ _ _ _ Hdec Hl).
  rewrite bool_decide_eq_true_2; [done|by eexists].
Qed.

(** X15. In the record [fromRaw] returns for a buffer, whatever the
    buffer: the hash is the one injected; every entry points into the
    buffer ([raw] is the buffer, [offset] and [size] those of one
    compressed output), holds no output yet and is not marked spent; the
    entries lie in the buffer in the order of their indices without
    overlap; so [has] and [isUnspent] agree, the array does not end in a
    gap and [length()] is [outputs.length]. *)
Theorem fromRaw_entries data (hash : string) c' :
  Coins.static_fromRaw data hash = Ok c' ->
  Coins.hash c' = hash
  /\ (forall (i : nat) e,
        Coins.outputs c' !! i = Some (Some e) ->
        CoinEntry.raw e = Some data
        /\ CoinEntry.output e = None
        /\ CoinEntry.spent e = false
        /\ skip_at data (CoinEntry.offset e) = Ok (CoinEntry.size e)
        /\ forall (j : nat) e2,
             (i < j)%nat -> Coins.outputs c' !! j = Some (Some e2) ->
             (CoinEntry.offset e + CoinEntry.size e
              <= CoinEntry.offset e2)%nat)
  /\ (forall index, Coins.has c' index = Coins.isUnspent c' index)
  /\ no_trailing_gap c'
  /\ Coins.length c' = length (Coins.outputs c').
Proof.
  intros (version & height & code & offset & pos & slots & pos' & Hh & Hw
          & ->)%fromRaw_Ok.
  set (c0 := Coins.mk _ _ _ _ _).
  assert (forall (i : nat) e,
            Coins.outputs (Coins.cleanup c0) !! i = Some (Some e) ->
            CoinEntry.spent e = false) as Hlive.
  { intros i e Hl%cleanup_lookup_entry.
    by destruct (decode_walk_entry _ _ _ _ _ _ _ Hw Hl) as (_ & _ & ? & _). }
  split; [done|]. split; [|split; [|split]].
  - intros i e Hl%cleanup_lookup_entry. cbn [c0 Coins.outputs] in Hl.
    destruct (decode_walk_entry _ _ _ _ _ _ _ Hw Hl)
      as (Hraw & Hout & Hs & Hsk).
    do 4 (split; [done|]).
    intros j e2 Hij Hl2%cleanup_lookup_entry. cbn [c0 Coins.outputs] in Hl2.
    destruct (decode_walk_order _ _ _ _ _ Hw) as [_ Hin].
    destruct (Hin i e Hl) as (_ & _ & Hnext). by apply (Hnext j e2).
  - intros index. rewrite has_get, isUnspent_get.
    destruct (Coins.get (Coins.cleanup c0) index) as [e|] eqn:Hg; [|done].
    apply get_Some in Hg as [_ Hl]. rewrite (Hlive _ _ Hl).
    rewrite bool_decide_eq_true_2; [done|by eexists].
  - apply cleanup_no_trailing_gap.
  - apply length_no_spent; [apply cleanup_no_trailing_gap|done].
Qed.

(** X16. What [fromRaw] reads off the header of a buffer, whatever the
    buffer: version and height are the first two fields, the coinbase
    flag is bit 0 of the header code, outputs 0 and 1 are unspent exactly
    when bits 1 and 2 of the code are set, and the array has at most
    [2 + 8 size] slots, [size] being the size of the spent field the code
    stands for. *)
Theorem fromRaw_header data (hash : string) c'
  (version height code : Z) (offset : nat) :
  Coins.static_fromRaw data hash = Ok c' ->
  read_header data = Ok (version, height, code, offset) ->
  Coins.version c' = version
  /\ Coins.height c' = height
  /\ Coins.coinbase c' = negb (Z.land (ToInt32 code) 1 =? 0)
  /\ Coins.isUnspent c' 0 = negb (Z.land (ToInt32 code) 2 =? 0)
  /\ Coins.isUnspent c' 1 = negb (Z.land (ToInt32 code) 4 =? 0)
  /\ (length (Coins.outputs c')
      <= 2 + 8 * Z.to_nat (Coins.recalc_size code))%nat.
Proof.
  intros (v & h & code' & offset' & pos & slots & pos' & Hh & Hw
          & ->)%fromRaw_Ok Hh'.
  rewrite Hh in Hh'. injection Hh' as -> -> -> ->.
  pose proof (decode_walk_live _ _ _ _ _ Hw) as Hbits.
  pose proof (decode_walk_length _ _ _ _ _ Hw) as Hlen.
  rewrite length_slot_bits in Hlen.
  split; [done|]. split; [done|]. split; [done|].
  assert (forall k : nat,
            Coins.isUnspent
              (Coins.cleanup
                 (Coins.mk version hash height (Coins.code_bit code 1) slots))
              (Z.of_nat k)
            = default false (slot_bits data code offset !! k)) as Hu.
  { intros k. rewrite isUnspent_cleanup, isUnspent_is_live. cbn [Coins.outputs].
    rewrite <- Hbits, list_lookup_fmap. by destruct (slots !! k) as [[e|]|]. }
  split; [apply (Hu 0%nat)|]. split; [apply (Hu 1%nat)|].
  unfold Coins.cleanup. cbn [Coins.outputs Coins.set_outputs].
  rewrite length_take. lia.
Qed.

(** X17. On any buffer that [fromRaw] decodes and whose header code
    stands for a spent field of a size that is not negative, [parseCoin]
    returns what [getCoin] returns on the decoded record: nothing at an
    index that is not unspent there, and else a coin that carries the
    hash and the index given and version, height and coinbase flag of the
    decoded record. *)
Theorem parseCoin_fromRaw data (hash : string) index c' :
  Coins.static_fromRaw data hash = Ok c' ->
  (forall version height code offset,
      read_header data = Ok (version, height, code, offset) ->
      0 <= Coins.recalc_size code) ->
  Coins.parseCoin data hash index = found_coin (Coins.getCoin c' index)
  /\ (Coins.isUnspent c' index = false ->
      Coins.parseCoin data hash index = Ok None)
  /\ (forall coin,
        Coins.parseCoin data hash index = Ok (Some coin) ->
        Coins.isUnspent c' index = true
        /\ coin_hash coin = hash /\ coin_index coin = index
        /\ coin_version coin = Coins.version c'
        /\ coin_height coin = Coins.height c'
        /\ coin_coinbase coin = Coins.coinbase c').
Proof.
  intros Hdec Hsize.
  pose proof (parseCoin_getCoin data hash index c' Hdec Hsize) as Hparse.
  split; [done|]. rewrite Hparse. split.
  - intros Hu. apply getCoin_absent. apply has_false_get.
    by rewrite (fromRaw_has data hash).
  - intros coin. unfold Coins.getCoin, Coins.toCoin.
    rewrite isUnspent_get.
    destruct (Coins.get c' index) as [e|] eqn:Hg; [|done].
    destruct (CoinEntry.toOutput e) as [[o e']|]; [|done].
    cbn [mbind result_bind found_coin]. intros [= <-].
    cbn [coin_hash coin_index coin_version coin_height coin_coinbase].
    rewrite (fromRaw_hash _ _ _ Hdec). split; [|done].
    apply get_Some in Hg as [_ Hl].
    by rewrite (fromRaw_unspent _ _ _ _ _ Hdec Hl).
Qed.

End DecodingAny.

(** ** Entries and records under the contract of the codec *)

Section UnderContract.
Context {codec : Codec} {laws : CodecLaws codec}.

Implicit Types (c : Coins.t) (index : Z) (e entry : CoinEntry.t).

(** X18. An entry read by [fromReader] from the compressed bytes of an
    output, wherever they lie in a buffer, stands for that output: the
    reader ends behind the bytes, [toOutput] returns the output,
    [getSize] is the size [compress.size] gives the output, and
    [toWriter] writes the bytes [compress.output] writes for it, before
    and after the entry is materialized. *)
Theorem fromReader_compressed (o : Output) (pre post : list byte) :
  valid_output o ->
  let data := pre ++ compress_bytes o ++ post in
  let e := CoinEntry.mk (length pre) (length (compress_bytes o)) (Some data)
             None false in
  CoinEntry.fromReader (BufferReader.mk data (length pre))
  = Ok (e, BufferReader.mk data (length pre + length (compress_bytes o)))
  /\ CoinEntry.toOutput e = Ok (o, CoinEntry.set_output e o)
  /\ CoinEntry.getSize e = CoinEntry.getSize (CoinEntry.fromOutput o)
  /\ (forall bw,
        CoinEntry.toWriter e bw
        = CoinEntry.toWriter (CoinEntry.fromOutput o) bw
        /\ CoinEntry.toWriter (CoinEntry.set_output e o) bw
           = CoinEntry.toWriter (CoinEntry.fromOutput o) bw).
Proof.
  intros Hv data e.
  pose proof (wf_entry_fromOutput o Hv) as Hwf.
  pose proof (wf_entry_skip (CoinEntry.fromOutput o) pre post Hwf) as Hskip.
  pose proof (wf_entry_decompress (CoinEntry.fromOutput o) pre post Hwf)
    as Hdec.
  cbn [entry_bytes CoinEntry.fromOutput CoinEntry.raw CoinEntry.output]
    in Hskip, Hdec.
  fold data in Hskip, Hdec.
  assert (slice data (length pre) (length (compress_bytes o))
          = compress_bytes o) as Hslice.
  { unfold slice, data. by rewrite drop_app_length, take_app_length. }
  split; [|split; [|split]].
  - unfold CoinEntry.fromReader, BufferReader.decompress_skip.
    cbn [BufferReader.data BufferReader.offset]. by rewrite Hskip.
  - unfold CoinEntry.toOutput, CoinEntry.reader,
      BufferReader.decompress_output. cbn [e CoinEntry.output CoinEntry.raw
      CoinEntry.offset mbind result_bind BufferReader.data
      BufferReader.offset].
    rewrite Hdec. unfold entry_output, CoinEntry.toOutput. done.
  - cbn [e CoinEntry.getSize CoinEntry.fromOutput CoinEntry.raw
         CoinEntry.size CoinEntry.output].
    by rewrite compress_size_bytes.
  - intros bw. unfold CoinEntry.toWriter, StaticWriter.copy.
    cbn [e CoinEntry.set_output CoinEntry.fromOutput CoinEntry.raw
         CoinEntry.offset CoinEntry.size CoinEntry.output].
    replace (length pre + length (compress_bytes o) - length pre)%nat
      with (length (compress_bytes o)) by lia.
    by rewrite Hslice.
Qed.

(** X19. For a legal record that is not fully spent, [getSize] returns
    the count of bytes [toRaw] writes: the sizes of version, height,
    header code and spent field and the sizes [getSize] of the unspent
    entries add up to the length of the buffer, so the writer, which is
    allocated for that many bytes, is filled to the last byte. *)
Theorem getSize_exact c :
  legal c -> Coins.length c <> 0%nat ->
  exists code data,
    Coins.header c (Z.of_nat (Coins.length c)) (spent_size c) = Ok code
    /\ Coins.toRaw c = Ok data
    /\ Coins.getSize c (Coins.length c) (spent_size c) code
       = Ok (Z.of_nat (length data))
    /\ Z.of_nat (length data)
       = sizeVarint (Coins.version c) + 4 + sizeVarint code + spent_size c
         + Z.of_nat (length (tail_bytes (take (Coins.length c)
                                           (Coins.outputs c)))).
Proof.
  intros Hlegal Hlen.
  destruct (legal_length_bounds c Hlegal Hlen) as (HS & Hsv & Hsc).
  pose proof Hlegal as (Hv & Hh & Hmax & Hwf).
  destruct (header_code_spec c Hmax Hlen) as (Hhead & _).
  exists (header_code c), (record_bytes c).
  split; [done|]. split; [by apply toRaw_bytes|].
  assert (Z.of_nat (length (record_bytes c))
          = sizeVarint (Coins.version c) + 4 + sizeVarint (header_code c)
            + spent_size c
            + Z.of_nat (length (tail_bytes (take (Coins.length c)
                                              (Coins.outputs c))))) as Hsum.
  { unfold record_bytes, header_bytes.
    rewrite !length_app, length_spent_field, !sizeVarint_bytes by done.
    unfold StaticWriter.u32_bytes. cbn [length]. lia. }
  split; [|done]. unfold Coins.getSize.
  rewrite size_outputs_bytes by by apply wf_slots_take.
  f_equal. lia.
Qed.

(** X20. Writing a legal record and reading the bytes back prunes it:
    the decoded record holds an entry exactly at the indices that are
    unspent in the original, its array is as long as [length()] of the
    original, entries marked spent and gaps are not told apart any more,
    and the decoded record is legal again. *)
Theorem roundtrip_prunes c (hash : string) :
  legal c -> Coins.length c <> 0%nat ->
  exists data c',
    Coins.toRaw c = Ok data
    /\ Coins.static_fromRaw data hash = Ok c'
    /\ (forall index, Coins.has c' index = Coins.isUnspent c index)
    /\ length (Coins.outputs c') = Coins.length c
    /\ Coins.length c' = Coins.length c
    /\ no_trailing_gap c'
    /\ legal c'.
Proof.
  intros Hlegal Hlen.
  destruct (roundtrip_facts c hash Hlegal Hlen)
    as (slots & Hraw & Hdec & _ & Hext & Hlen' & Hout & Hlegal').
  eexists _, _. split; [exact Hraw|]. split; [exact Hdec|].
  split; [|split; [done|split; [done|split; [|done]]]].
  - intros index. by rewrite (fromRaw_has _ _ _ _ Hdec), Hext.
  - apply cleanup_no_trailing_gap.
Qed.

End UnderContract.

(** ** From a transaction to a coin parsed from the bytes *)

Section EndToEnd.
Context {codec : Codec} {laws : CodecLaws codec}.

Implicit Types (c : Coins.t) (index : Z) (e entry : CoinEntry.t).

(** An unspent index lies below the slots the spent field describes. *)
Lemma unspent_in_field c index :
  Coins.isUnspent c index = true ->
  (Z.to_nat index < 2 + 8 * Z.to_nat (spent_size c))%nat.
Proof.
  intros Hu. pose proof (spent_slots_bound c).
  destruct (decide (Z.to_nat index < Coins.length c)%nat); [lia|].
  pose proof Hu as (e & H0 & _)%isUnspent_true.
  rewrite <- (Z2Nat.id index), isUnspent_ge_length in Hu by lia. done.
Qed.

(** [fromRaw] on the bytes of a legal record, whatever follows them. *)
Lemma fromRaw_encoded_post c (hash : string) (post : list byte) :
  legal c -> Coins.length c <> 0%nat ->
  exists slots,
    Coins.static_fromRaw (record_bytes c ++ post) hash
    = Ok (Coins.cleanup
            (Coins.mk (Coins.version c) hash (Coins.height c)
               (Coins.coinbase c) slots))
    /\ Forall2 (placed (record_bytes c ++ post))
         (source_slots c (2 + 8 * Z.to_nat (spent_size c))) slots.
Proof.
  intros Hlegal Hlen.
  destruct (legal_length_bounds c Hlegal Hlen) as (HS & _ & _).
  pose proof Hlegal as (Hv & Hh & Hmax & Hwf).
  destruct (header_code_spec c Hmax Hlen)
    as (_ & _ & _ & _ & Hrec & Hb1 & _).
  set (n := (2 + 8 * Z.to_nat (spent_size c))%nat).
  set (field := spent_field c (Coins.length c) (Z.to_nat (spent_size c))).
  set (tail := tail_bytes (take (Coins.length c) (Coins.outputs c))).
  assert (record_bytes c ++ post = header_bytes c ++ field ++ tail ++ post)
    as Hdata by (unfold record_bytes; by rewrite <- !app_assoc).
  destruct (decode_walk_encoded (record_bytes c ++ post) (source_slots c n)
              (header_bytes c ++ field) post) as (slots & Hw & Hpl).
  { by apply wf_slots_source. }
  { rewrite tail_bytes_source by apply spent_slots_bound.
    by rewrite Hdata, <- !app_assoc. }
  exists slots. split; [|done].
  assert (read_header (record_bytes c ++ post)
          = Ok (Coins.version c, Coins.height c, header_code c,
                length (header_bytes c))) as Hrh
    by (rewrite Hdata; by apply read_header_bytes).
  assert (slot_bits (record_bytes c ++ post) (header_code c)
            (length (header_bytes c))
          = is_live <$> source_slots c n) as Hsb
    by (rewrite Hdata; by apply slot_bits_encoded).
  unfold Coins.static_fromRaw. rewrite fromRaw_walk, Hrh.
  cbn [mbind result_bind].
  rewrite Hrec, Hb1. unfold BufferReader.seek.
  cbn [BufferReader.data BufferReader.offset].
  rewrite length_app in Hw. unfold field in Hw at 1.
  rewrite length_spent_field in Hw.
  assert (Z.of_nat (length (header_bytes c)) + spent_size c
          <= Z.of_nat (length (record_bytes c ++ post))) as Hfit.
  { rewrite Hdata, !length_app. unfold field.
    rewrite length_spent_field. lia. }
  destruct (Z.leb_spec 0 (Z.of_nat (length (header_bytes c)) + spent_size c));
    [|lia].
  destruct (Z.leb_spec (Z.of_nat (length (header_bytes c)) + spent_size c)
              (Z.of_nat (length (record_bytes c ++ post)))); [|lia].
  cbn [andb mbind result_bind BufferReader.offset].
  replace (Z.to_nat (Z.of_nat (length (header_bytes c)) + spent_size c))
    with (length (header_bytes c) + Z.to_nat (spent_size c))%nat by lia.
  rewrite Hsb, Hw. cbn [mbind result_bind]. done.
Qed.

(** A record whose slots render those of a legal record is legal, has
    the same unspent indices, and is written as the record is. *)
Lemma placed_roundtrip c (data : Buffer) slots (hash : string) :
  legal c -> Coins.length c <> 0%nat ->
  Forall2 (placed data)
    (source_slots c (2 + 8 * Z.to_nat (spent_size c))) slots ->
  let c' := Coins.cleanup
              (Coins.mk (Coins.version c) hash (Coins.height c)
                 (Coins.coinbase c) slots) in
  (forall index, Coins.isUnspent c' index = Coins.isUnspent c index)
  /\ Coins.length c' = Coins.length c
  /\ legal c'
  /\ Coins.toRaw c' = Ok (record_bytes c).
Proof.
  intros Hlegal Hlen Hpl c'.
  assert (forall index, Coins.isUnspent c' index = Coins.isUnspent c index)
    as Hext.
  { intros index. subst c'. eapply decoded_isUnspent; [|done].
    apply spent_slots_bound. }
  assert (forall k : nat,
            Coins.isUnspent c' (Z.of_nat k) = Coins.isUnspent c (Z.of_nat k))
    as Hextn by (intros k; apply Hext).
  pose proof (length_ext c c' Hextn) as Hlen'.
  assert (length (Coins.outputs c') = Coins.length c) as Hout.
  { rewrite <- Hlen'. subst c'. by eapply decoded_length. }
  assert (legal c') as Hlegal'.
  { destruct Hlegal as (Hv & Hh & Hmax & Hwf).
    split; [done|]. split; [done|]. split.
    - rewrite Hout. pose proof (length_le c). lia.
    - subst c'. unfold Coins.cleanup. cbn [Coins.outputs Coins.set_outputs].
      apply wf_slots_take. by eapply placed_wf_slots. }
  split; [done|]. split; [done|]. split; [done|].
  rewrite toRaw_bytes by (done || lia).
  f_equal. unfold record_bytes, header_bytes.
  rewrite (header_code_ext c c' Hextn) by done.
  assert (spent_size c' = spent_size c) as ->
    by (unfold spent_size; by rewrite Hlen').
  rewrite Hlen', (spent_field_ext c c' _ _ Hextn).
  assert (tail_bytes (take (Coins.length c) (Coins.outputs c'))
          = tail_bytes (take (Coins.length c) (Coins.outputs c))) as ->;
    [|reflexivity].
  rewrite (take_ge (Coins.outputs c')) by lia.
  assert (Coins.outputs c' = take (Coins.length c) slots) as ->.
  { subst c'. unfold Coins.cleanup in *.
    cbn [Coins.outputs Coins.set_outputs] in *.
    rewrite length_take in Hout.
    pose proof (cleanup_len_le slots (length slots)).
    f_equal. lia. }
  rewrite (placed_tail_bytes data
             (take (Coins.length c)
                (source_slots c (2 + 8 * Z.to_nat (spent_size c)))))
    by by apply Forall2_take.
  rewrite source_slots_split by apply spent_slots_bound.
  rewrite take_app_length'; [done|].
  rewrite length_take. pose proof (length_le c). lia.
Qed.

(** [parseCoin] on the bytes of a legal record, whatever follows them. *)
Lemma parseCoin_encoded c (hash : string) index (post : list byte) :
  legal c -> Coins.length c <> 0%nat ->
  Coins.parseCoin (record_bytes c ++ post) hash index
  = match Coins.get c index with
    | Some e =>
        if CoinEntry.spent e then Ok None
        else
          o ← entry_output e;
          Ok (Some (mkCoin (Coins.version c) (Coins.height c) (value o)
                      (script o) (Coins.coinbase c) hash index))
    | None => Ok None
    end.
Proof.
  intros Hlegal Hlen.
  destruct (fromRaw_encoded_post c hash post Hlegal Hlen)
    as (slots & Hdec & Hpl).
  destruct (placed_roundtrip c _ slots hash Hlegal Hlen Hpl) as (Hext & _).
  pose proof Hlegal as (Hv & Hh & Hmax & Hwf).
  destruct (header_code_spec c Hmax Hlen) as (_ & _ & _ & _ & Hrec & _).
  destruct (legal_length_bounds c Hlegal Hlen) as (HS & _ & _).
  set (c' := Coins.cleanup _) in *.
  rewrite (parseCoin_getCoin _ _ _ c' Hdec).
  2:{ intros version height code offset. unfold record_bytes.
      rewrite <- !app_assoc, read_header_bytes by done.
      intros [= _ _ <- _]. by rewrite Hrec. }
  assert (Coins.isUnspent c index = false ->
          found_coin (Coins.getCoin c' index) = Ok None) as Hdead.
  { intros Hu. apply getCoin_absent. apply has_false_get.
    by rewrite (fromRaw_has _ _ _ _ Hdec), Hext. }
  destruct (Coins.get c index) as [e|] eqn:Hg.
  - destruct (CoinEntry.spent e) eqn:Hs.
    + apply Hdead. by rewrite isUnspent_get, Hg, Hs.
    + assert (Coins.isUnspent c index = true) as Hu
        by (by rewrite isUnspent_get, Hg, Hs).
      destruct (decoded_entry c _ _ _ (Coins.version c) (Coins.height c) hash
                  (Coins.coinbase c) index e Hpl Hg Hs
                  (unspent_in_field c index Hu))
        as (e' & Hg' & Hraw' & Hout' & _ & _ & _ & Hdecomp).
      fold c' in Hg'.
      rewrite (getCoin_raw_entry c' index e' (record_bytes c ++ post))
        by done.
      by rewrite Hdecomp.
  - apply Hdead. by rewrite isUnspent_get, Hg.
Qed.

(** X21. From a transaction to a coin: when version and height are
    32-bit numbers, the outputs are valid and one of them at least is not
    unspendable, the record [fromTX] builds is serialized by [toRaw], and
    [parseCoin] on the bytes, at the index of an output of the
    transaction, returns that output with version, coinbase flag and
    height of the transaction, the hash given and the index, or nothing
    when the output is unspendable. *)
Theorem fromTX_toRaw_parseCoin (tx : TX) (height : Z) (hash : string) :
  0 <= tx_version tx < 2 ^ 32 -> 0 <= height < 2 ^ 32 ->
  Z.of_nat (length (tx_outputs tx)) < 2 ^ 32 ->
  Forall valid_output (tx_outputs tx) ->
  Exists (fun o => isUnspendable (script o) = false) (tx_outputs tx) ->
  exists data,
    Coins.toRaw (Coins.static_fromTX tx height) = Ok data
    /\ forall (i : nat) (o : Output),
         tx_outputs tx !! i = Some o ->
         Coins.parseCoin data hash (Z.of_nat i)
         = if isUnspendable (script o) then Ok None
           else Ok (Some (mkCoin (tx_version tx) height (value o) (script o)
                            (tx_isCoinbase tx) hash (Z.of_nat i))).
Proof.
  intros Hv Hh Hmax Hvalid Hsome.
  pose proof (legal_fromTX tx height Hv Hh Hmax Hvalid) as Hlegal.
  set (c := Coins.static_fromTX tx height) in *.
  assert (forall i : nat,
            Coins.get c (Z.of_nat i)
            = mjoin ((fun o : Output =>
                        if isUnspendable (script o) then None
                        else Some (CoinEntry.fromOutput o))
                     <$> tx_outputs tx !! i)) as Hget.
  { intros i. apply (fromTX_get Coins.new tx height i). }
  assert (Coins.length c <> 0%nat) as Hlen.
  { apply Exists_exists in Hsome as (o & Hin & Hu).
    apply list_elem_of_lookup in Hin as [i Hi].
    assert (Coins.isUnspent c (Z.of_nat i) = true) as Hlive.
    { rewrite isUnspent_get, Hget, Hi. simpl. by rewrite Hu. }
    intros Hz. rewrite isUnspent_ge_length in Hlive; [done|lia]. }
  exists (record_bytes c). split; [by apply toRaw_bytes|].
  intros i o Hi. rewrite <- (app_nil_r (record_bytes c)).
  rewrite parseCoin_encoded, Hget, Hi by done. simpl.
  by destruct (isUnspendable (script o)).
Qed.

(** X22. A transaction of which every output is unspendable, one
    without outputs included, gives a record that holds nothing and that
    [toRaw] refuses to serialize. *)
Theorem fromTX_all_unspendable (tx : TX) (height : Z) :
  Forall (fun o => isUnspendable (script o) = true) (tx_outputs tx) ->
  Coins.outputs (Coins.static_fromTX tx height) = []
  /\ Coins.isEmpty (Coins.static_fromTX tx height) = true
  /\ Coins.toRaw (Coins.static_fromTX tx height)
     = Err (AssertionError (Some "Cannot serialize fully-spent coins.")).
Proof.
  intros Hall.
  assert (Coins.outputs (Coins.static_fromTX tx height) = []) as Hnil.
  { apply (no_trailing_gap_ext _ []); [apply cleanup_no_trailing_gap|done|].
    intros k. rewrite lookup_nil.
    pose proof (fromTX_get Coins.new tx height k) as Hg.
    cbn [Coins.new Coins.outputs length Nat.add] in Hg.
    rewrite get_lookup, Nat2Z.id in Hg by lia.
    unfold Coins.static_fromTX. rewrite Hg.
    destruct (tx_outputs tx !! k) as [o|] eqn:Ho; [|done]. simpl.
    by rewrite (Forall_lookup_1 _ _ _ _ Hall Ho). }
  assert (Coins.length (Coins.static_fromTX tx height) = 0%nat) as Hlen
    by (unfold Coins.length; by rewrite Hnil).
  split; [done|]. split.
  - unfold Coins.isEmpty. by rewrite Hlen.
  - unfold Coins.toRaw. by rewrite Hlen.
Qed.

(** X23. The bytes of a decoded record do not change when its entries
    are materialized: after [toRaw], [fromRaw] and a [getOutput] that
    returned, [toRaw] writes the buffer again byte for byte. *)
Theorem roundtrip_materialized c (hash : string) index :
  legal c -> Coins.length c <> 0%nat ->
  exists data c',
    Coins.toRaw c = Ok data
    /\ Coins.static_fromRaw data hash = Ok c'
    /\ forall found c'',
         Coins.getOutput c' index = Ok (found, c'') ->
         Coins.toRaw c'' = Ok data
         /\ (Coins.isUnspent c index = true ->
             Coins.get c'' index <> Coins.get c' index
             /\ fst <$> Coins.getOutput c index = Ok found).
Proof.
  intros Hlegal Hlen.
  destruct (roundtrip_facts c hash Hlegal Hlen)
    as (slots & Hraw & Hdec & Hpl & _).
  destruct (placed_roundtrip c _ slots hash Hlegal Hlen Hpl)
    as (_ & _ & _ & Hagain).
  set (c' := Coins.cleanup _) in *.
  eexists _, _. split; [exact Hraw|]. split; [exact Hdec|].
  intros found c'' Hget. split.
  - rewrite <- Hagain. apply toRaw_ext.
    + apply getOutput_Ok in Hget. destruct (Coins.get c' index).
      * by destruct Hget as (? & ? & _ & _ & -> & _).
      * by destruct Hget as [_ ->].
    + apply getOutput_Ok in Hget. destruct (Coins.get c' index).
      * by destruct Hget as (? & ? & _ & _ & -> & _).
      * by destruct Hget as [_ ->].
    + apply getOutput_Ok in Hget. destruct (Coins.get c' index).
      * by destruct Hget as (? & ? & _ & _ & -> & _).
      * by destruct Hget as [_ ->].
    + intros k. by destruct (getOutput_slot c' index found c'' k Hget).
  - intros Hu. pose proof Hu as (e & H0 & Hl & Hs)%isUnspent_true.
    assert (Coins.get c index = Some e) as Hg by (by apply get_Some).
    destruct (decoded_entry c _ _ _ (Coins.version c) (Coins.height c) hash
                (Coins.coinbase c) index e Hpl Hg Hs
                (unspent_in_field c index Hu))
      as (e' & Hg' & Hraw' & Hout' & _ & _ & _ & Hdecomp).
    fold c' in Hg'. pose proof Hget as Hshape%getOutput_Ok.
    rewrite Hg' in Hshape.
    destruct Hshape as (o & e'' & Hto & -> & _ & Hg'').
    apply toOutput_entry in Hto as Hfacts.
    destruct Hfacts as (Ho'' & _). split.
    + rewrite Hg'', Hg'. intros [= ->]. congruence.
    + rewrite (getOutput_entry c index e Hg).
      rewrite <- Hdecomp, <- (entry_output_raw e' (record_bytes c)) by
        (done || (intros o0; by rewrite Hout')).
      unfold entry_output. by rewrite Hto.
Qed.

(** X24. [fromRaw] and [parseCoin] do not look behind the last
    compressed output: on the bytes [toRaw] wrote for a legal record
    followed by any bytes, [fromRaw] returns a record with the unspent
    indices of the original, for which [toRaw] writes the bytes without
    what followed them, and [parseCoin] returns at every index what it
    returns on the bytes alone. *)
Theorem fromRaw_trailing_bytes c (hash : string) (post : list byte) :
  legal c -> Coins.length c <> 0%nat ->
  exists data c',
    Coins.toRaw c = Ok data
    /\ Coins.static_fromRaw (data ++ post) hash = Ok c'
    /\ (forall index, Coins.isUnspent c' index = Coins.isUnspent c index)
    /\ Coins.toRaw c' = Ok data
    /\ (forall index,
          Coins.parseCoin (data ++ post) hash index
          = Coins.parseCoin data hash index).
Proof.
  intros Hlegal Hlen.
  destruct (fromRaw_encoded_post c hash post Hlegal Hlen)
    as (slots & Hdec & Hpl).
  destruct (placed_roundtrip c _ slots hash Hlegal Hlen Hpl)
    as (Hext & _ & _ & Hagain).
  eexists _, _. split; [by apply toRaw_bytes|]. split; [exact Hdec|].
  split; [done|]. split; [done|]. intros index.
  rewrite <- (app_nil_r (record_bytes c)) at 2.
  by rewrite !parseCoin_encoded.
Qed.

(** X27. [toRaw] is injective on what it writes of a record: two legal
    records for which it returns the same buffer have the same version,
    height and coinbase flag and the same unspent indices, and
    [getOutput] returns the same at each of them. *)
Theorem toRaw_injective c1 c2 :
  legal c1 -> legal c2 -> Coins.length c1 <> 0%nat ->
  Coins.toRaw c1 = Coins.toRaw c2 ->
  Coins.version c1 = Coins.version c2
  /\ Coins.height c1 = Coins.height c2
  /\ Coins.coinbase c1 = Coins.coinbase c2
  /\ (forall index, Coins.isUnspent c1 index = Coins.isUnspent c2 index)
  /\ (forall index,
        Coins.isUnspent c1 index = true ->
        fst <$> Coins.getOutput c1 index = fst <$> Coins.getOutput c2 index).
Proof.
  intros Hlegal1 Hlegal2 Hlen1 Hraw.
  assert (Coins.length c2 <> 0%nat) as Hlen2.
  { intros Hz. rewrite (toRaw_bytes c1) in Hraw by done.
    unfold Coins.toRaw in Hraw. rewrite Hz in Hraw. done. }
  rewrite !toRaw_bytes in Hraw by done. injection Hraw as Hbytes.
  destruct (roundtrip_facts c1 NULL_HASH Hlegal1 Hlen1)
    as (slots1 & _ & Hdec1 & Hpl1 & Hext1 & _).
  cbn zeta in *. set (d1 := Coins.cleanup _) in *.
  destruct (roundtrip_facts c2 NULL_HASH Hlegal2 Hlen2)
    as (slots2 & _ & Hdec2 & Hpl2 & Hext2 & _).
  cbn zeta in *. set (d2 := Coins.cleanup _) in Hdec2, Hext2.
  rewrite <- Hbytes in *.
  assert (d1 = d2) as Heq by congruence.
  assert (Coins.version c1 = Coins.version c2
          /\ Coins.height c1 = Coins.height c2
          /\ Coins.coinbase c1 = Coins.coinbase c2) as (Hv & Hh & Hcb).
  { apply (f_equal Coins.version) in Heq as Hv.
    apply (f_equal Coins.height) in Heq as Hh.
    apply (f_equal Coins.coinbase) in Heq as Hcb. done. }
  assert (forall index, Coins.isUnspent c1 index = Coins.isUnspent c2 index)
    as Hu.
  { intros index. by rewrite <- Hext1, Heq, Hext2. }
  do 3 (split; [done|]). split; [done|].
  intros index Hu1. pose proof Hu1 as Hu2. rewrite Hu in Hu2.
  apply isUnspent_true in Hu1 as (e1 & H0 & Hl1 & Hs1).
  pose proof Hu2 as (e2 & _ & Hl2 & Hs2)%isUnspent_true.
  assert (Coins.get c1 index = Some e1) as Hg1 by (by apply get_Some).
  assert (Coins.get c2 index = Some e2) as Hg2 by (by apply get_Some).
  assert (Coins.isUnspent c1 index = true) as Hu1
    by (by rewrite isUnspent_get, Hg1, Hs1).
  destruct (decoded_entry c1 _ _ _ (Coins.version c1) (Coins.height c1)
              NULL_HASH (Coins.coinbase c1) index e1 Hpl1 Hg1 Hs1
              (unspent_in_field c1 index Hu1))
    as (e1' & Hg1' & _ & _ & _ & _ & _ & Hd1).
  destruct (decoded_entry c2 _ _ _ (Coins.version c2) (Coins.height c2)
              NULL_HASH (Coins.coinbase c2) index e2 Hpl2 Hg2 Hs2
              (unspent_in_field c2 index Hu2))
    as (e2' & Hg2' & _ & _ & _ & _ & _ & Hd2).
  fold d1 in Hg1'. fold d2 in Hg2'. rewrite Heq, Hg2' in Hg1'.
  injection Hg1' as <-.
  rewrite (getOutput_entry c1 index e1 Hg1), (getOutput_entry c2 index e2 Hg2).
  by rewrite <- Hd1, <- Hd2.
Qed.

End EndToEnd.
(** ** The constructor and its options *)

Section Constructor.
Context {util : Util} {util_laws : UtilLaws util}.

Implicit Types (c : Coins.t) (index : Z) (options : Coins.Options).
Implicit Types (value : js_value (option CoinEntry.t)).

Lemma get_js_index c index :
  Coins.get c index = mjoin (js_index (Coins.outputs c) index).
Proof.
  unfold Coins.get.
  destruct (Z.leb_spec (Z.of_nat (length (Coins.outputs c))) index); [|done].
  unfold js_index. destruct (Z.ltb_spec index 0); [done|].
  rewrite lookup_ge_None_2; [done|lia].
Qed.

Lemma bind_Err {A B : Type} (r : result A) (k : A -> result B) (e : error) :
  r ≫= k = Err e -> r = Err e \/ exists a, r = Ok a /\ k a = Err e.
Proof.
  destruct r as [a|e']; simpl; intros Hk.
  - right. exists a. split; [reflexivity|exact Hk].
  - left. by injection Hk as ->.
Qed.

(** The five statements of [fromOptions], one by one: when each returns,
    and what it stores. *)

Lemma fromOptions_version_step c value c1 :
  (if nullish value then Ok c
   else
     _ ← assert (isUInt32 value) None;
     Ok (Coins.mk (js_number value) (Coins.hash c) (Coins.height c)
           (Coins.coinbase c) (Coins.outputs c))) = Ok c1
  <-> (nullish value = true \/ isUInt32 value = true)
      /\ c1 = Coins.mk (if nullish value then Coins.version c
                        else js_number value)
                (Coins.hash c) (Coins.height c) (Coins.coinbase c)
                (Coins.outputs c).
Proof.
  destruct c as [v h ht cb outs]. cbn [Coins.version Coins.hash Coins.height
    Coins.coinbase Coins.outputs].
  destruct (nullish value).
  - split; [intros [= <-]; split; [by left|done]|by intros [_ ->]].
  - destruct (isUInt32 value); cbn [assert mbind result_bind]; split.
    + intros [= <-]. split; [by right|done].
    + by intros [_ ->].
    + done.
    + by intros [[|] _].
Qed.

Lemma fromOptions_hash_step c value c1 :
  (if truthy value then
     match value with
     | JsString h => Ok (Coins.mk (Coins.version c) h (Coins.height c)
                           (Coins.coinbase c) (Coins.outputs c))
     | _ => Err (AssertionError None)
     end
   else Ok c) = Ok c1
  <-> (truthy value = true -> exists h, value = JsString h)
      /\ c1 = Coins.mk (Coins.version c)
                (match value with
                 | JsString h => if bool_decide (h = EmptyString)
                                 then Coins.hash c else h
                 | _ => Coins.hash c
                 end)
                (Coins.height c) (Coins.coinbase c) (Coins.outputs c).
Proof.
  destruct c as [v h ht cb outs]. cbn [Coins.version Coins.hash Coins.height
    Coins.coinbase Coins.outputs].
  destruct value as [| |b|n|s|items|]; cbn [truthy].
  - split; [intros [= <-]; by split|by intros [_ ->]].
  - split; [intros [= <-]; by split|by intros [_ ->]].
  - destruct b.
    + split; [done|]. intros [Hs _]. by destruct (Hs eq_refl).
    + split; [intros [= <-]; by split|by intros [_ ->]].
  - destruct (n =? 0); cbn [negb].
    + split; [intros [= <-]; by split|by intros [_ ->]].
    + split; [done|]. intros [Hs _]. by destruct (Hs eq_refl).
  - case_bool_decide; cbn [negb].
    + split; [intros [= <-]; by split|by intros [_ ->]].
    + split; [intros [= <-]; split; [by exists s|done]|by intros [_ ->]].
  - split; [done|]. intros [Hs _]. by destruct (Hs eq_refl).
  - split; [done|]. intros [Hs _]. by destruct (Hs eq_refl).
Qed.

Lemma fromOptions_height_step c value c1 :
  (if nullish value then Ok c
   else
     _ ← assert (isNumber value) None;
     Ok (Coins.mk (Coins.version c) (Coins.hash c) (js_number value)
           (Coins.coinbase c) (Coins.outputs c))) = Ok c1
  <-> (nullish value = true \/ isNumber value = true)
      /\ c1 = Coins.mk (Coins.version c) (Coins.hash c)
                (if nullish value then Coins.height c else js_number value)
                (Coins.coinbase c) (Coins.outputs c).
Proof.
  destruct c as [v h ht cb outs]. cbn [Coins.version Coins.hash Coins.height
    Coins.coinbase Coins.outputs].
  destruct (nullish value).
  - split; [intros [= <-]; split; [by left|done]|by intros [_ ->]].
  - destruct (isNumber value); cbn [assert mbind result_bind]; split.
    + intros [= <-]. split; [by right|done].
    + by intros [_ ->].
    + done.
    + by intros [[|] _].
Qed.

Lemma fromOptions_coinbase_step c value c1 :
  (if nullish value then Ok c
   else
     match value with
     | JsBoolean b => Ok (Coins.mk (Coins.version c) (Coins.hash c)
                            (Coins.height c) b (Coins.outputs c))
     | _ => Err (AssertionError None)
     end) = Ok c1
  <-> (nullish value = false -> exists b, value = JsBoolean b)
      /\ c1 = Coins.mk (Coins.version c) (Coins.hash c) (Coins.height c)
                (match value with
                 | JsBoolean b => b
                 | _ => Coins.coinbase c
                 end)
                (Coins.outputs c).
Proof.
  destruct c as [v h ht cb outs]. cbn [Coins.version Coins.hash Coins.height
    Coins.coinbase Coins.outputs].
  destruct value as [| |b|n|s|items|]; cbn [nullish].
  - split; [intros [= <-]; by split|by intros [_ ->]].
  - split; [intros [= <-]; by split|by intros [_ ->]].
  - split; [intros [= <-]; split; [by exists b|done]|by intros [_ ->]].
  - split; [done|]. intros [Hb _]. by destruct (Hb eq_refl).
  - split; [done|]. intros [Hb _]. by destruct (Hb eq_refl).
  - split; [done|]. intros [Hb _]. by destruct (Hb eq_refl).
  - split; [done|]. intros [Hb _]. by destruct (Hb eq_refl).
Qed.

Lemma fromOptions_outputs_step c value c1 :
  (if truthy value then
     match value with
     | JsArray outs => Ok (Coins.cleanup (Coins.set_outputs c outs))
     | _ => Err (AssertionError None)
     end
   else Ok c) = Ok c1
  <-> (truthy value = true -> exists outs, value = JsArray outs)
      /\ c1 = match value with
              | JsArray outs => Coins.cleanup (Coins.set_outputs c outs)
              | _ => c
              end.
Proof.
  destruct value as [| |b|n|s|items|]; cbn [truthy].
  - split; [intros [= <-]; by split|by intros [_ ->]].
  - split; [intros [= <-]; by split|by intros [_ ->]].
  - destruct b.
    + split; [done|]. intros [Hs _]. by destruct (Hs eq_refl).
    + split; [intros [= <-]; by split|by intros [_ ->]].
  - destruct (n =? 0); cbn [negb].
    + split; [intros [= <-]; by split|by intros [_ ->]].
    + split; [done|]. intros [Hs _]. by destruct (Hs eq_refl).
  - case_bool_decide; cbn [negb].
    + split; [intros [= <-]; by split|by intros [_ ->]].
    + split; [done|]. intros [Hs _]. by destruct (Hs eq_refl).
  - split; [intros [= <-]; split; [by exists items|done]|by intros [_ ->]].
  - split; [done|]. intros [Hs _]. by destruct (Hs eq_refl).
Qed.

(** The only exception of [fromOptions] is that of [assert]. *)
Lemma fromOptions_Err c options err :
  Coins.fromOptions c options = Err err -> err = AssertionError None.
Proof.
  unfold Coins.fromOptions. intros Herr.
  apply bind_Err in Herr as [Herr|(c1 & _ & Herr)].
  { destruct (nullish _); [done|]. destruct (isUInt32 _); [done|].
    by injection Herr as <-. }
  apply bind_Err in Herr as [Herr|(c2 & _ & Herr)].
  { destruct (truthy _); [|done].
    destruct (Coins.opt_hash options); try done; by injection Herr as <-. }
  apply bind_Err in Herr as [Herr|(c3 & _ & Herr)].
  { destruct (nullish _); [done|]. destruct (isNumber _); [done|].
    by injection Herr as <-. }
  apply bind_Err in Herr as [Herr|(c4 & _ & Herr)].
  { destruct (nullish _); [done|].
    destruct (Coins.opt_coinbase options); try done; by injection Herr as <-. }
  destruct (truthy _); [|done].
  destruct (Coins.opt_outputs options); try done; by injection Herr as <-.
Qed.

(** X25. [fromOptions(options)] returns exactly when its five assertions
    hold: the version is [undefined] or [null] or passes
    [util.isUInt32]; the hash is falsy or a string; the height is
    [undefined] or [null] or passes [util.isNumber]; the coinbase flag is
    [undefined] or [null] or a boolean; the outputs are falsy or an array.
    Otherwise it fails, and only by the exception of [assert]; options of
    which the hash is the number 1 fail.  When it returns, a version and
    a height that are given are numbers (the two tests of [util] pass
    numbers only) and replace those of the record, a hash that is a
    string but the empty one replaces the hash, a boolean replaces the
    flag, and whatever is absent or falsy leaves the field; an array of
    outputs is stored trimmed of its trailing gaps, so that the record
    does not end in a gap and [get] reads the array as it was given.
    Without options, and with options that give no field, the
    constructor returns the defaults. *)
Theorem fromOptions_fields c options :
  ((exists c', Coins.fromOptions c options = Ok c')
   <-> (nullish (Coins.opt_version options) = true
        \/ isUInt32 (Coins.opt_version options) = true)
       /\ (truthy (Coins.opt_hash options) = true ->
           exists h, Coins.opt_hash options = JsString h)
       /\ (nullish (Coins.opt_height options) = true
           \/ isNumber (Coins.opt_height options) = true)
       /\ (nullish (Coins.opt_coinbase options) = false ->
           exists b, Coins.opt_coinbase options = JsBoolean b)
       /\ (truthy (Coins.opt_outputs options) = true ->
           exists outs, Coins.opt_outputs options = JsArray outs))
  /\ (forall err,
        Coins.fromOptions c options = Err err -> err = AssertionError None)
  /\ Coins.fromOptions c example_options_bad_hash = Err (AssertionError None)
  /\ (forall c',
        Coins.fromOptions c options = Ok c' ->
        (if nullish (Coins.opt_version options)
         then Coins.version c' = Coins.version c
         else Coins.opt_version options = JsNumber (Coins.version c'))
        /\ Coins.hash c'
           = match Coins.opt_hash options with
             | JsString h => if bool_decide (h = EmptyString)
                             then Coins.hash c else h
             | _ => Coins.hash c
             end
        /\ (if nullish (Coins.opt_height options)
            then Coins.height c' = Coins.height c
            else Coins.opt_height options = JsNumber (Coins.height c'))
        /\ Coins.coinbase c'
           = match Coins.opt_coinbase options with
             | JsBoolean b => b
             | _ => Coins.coinbase c
             end
        /\ match Coins.opt_outputs options with
           | JsArray outs =>
               no_trailing_gap c'
               /\ (forall index,
                     Coins.get c' index = mjoin (js_index outs index))
               /\ (last outs <> Some None -> Coins.outputs c' = outs)
           | _ => Coins.outputs c' = Coins.outputs c
           end)
  /\ Coins.create None = Ok Coins.new
  /\ Coins.static_fromOptions
       (Coins.mkOptions JsUndefined JsUndefined JsUndefined JsUndefined
          JsUndefined) = Ok Coins.new.
Proof.
  split; [|split; [apply fromOptions_Err|split; [done|split; [|done]]]].
  - unfold Coins.fromOptions. split.
    + intros [c' Hc'].
      apply bind_Ok in Hc' as (c1 & [Hv _]%fromOptions_version_step & Hc').
      apply bind_Ok in Hc' as (c2 & [Hh _]%fromOptions_hash_step & Hc').
      apply bind_Ok in Hc' as (c3 & [Hht _]%fromOptions_height_step & Hc').
      apply bind_Ok in Hc' as (c4 & [Hcb _]%fromOptions_coinbase_step & Hc').
      apply fromOptions_outputs_step in Hc' as [Ho _]. done.
    + intros (Hv & Hh & Hht & Hcb & Ho). eexists.
      apply bind_Ok. eexists. split.
      { apply fromOptions_version_step. by split. }
      apply bind_Ok. eexists. split.
      { apply fromOptions_hash_step. by split. }
      apply bind_Ok. eexists. split.
      { apply fromOptions_height_step. by split. }
      apply bind_Ok. eexists. split.
      { apply fromOptions_coinbase_step. by split. }
      apply fromOptions_outputs_step. by split.
  - intros c' Hc'. unfold Coins.fromOptions in Hc'.
    apply bind_Ok in Hc' as (c1 & [Hv ->]%fromOptions_version_step & Hc').
    apply bind_Ok in Hc' as (c2 & [Hh ->]%fromOptions_hash_step & Hc').
    apply bind_Ok in Hc' as (c3 & [Hht ->]%fromOptions_height_step & Hc').
    apply bind_Ok in Hc' as (c4 & [Hcb ->]%fromOptions_coinbase_step & Hc').
    apply fromOptions_outputs_step in Hc' as [Ho ->].
    cbn [Coins.version Coins.hash Coins.height Coins.coinbase Coins.outputs]
      in *.
    assert (forall value number,
              nullish value = true \/ number value = true ->
              (forall value', number value' = true ->
                 exists n, value' = JsNumber n) ->
              if nullish value then True
              else value = JsNumber (js_number value)) as Hnum.
    { intros value number Hor Hlaw. destruct (nullish value) eqn:Hn; [done|].
      destruct Hor as [|Hp]; [done|]. by destruct (Hlaw _ Hp) as [n ->]. }
    pose proof (Hnum _ _ Hv (isUInt32_number _)) as Hvn.
    pose proof (Hnum _ _ Hht (isNumber_number _)) as Hhtn.
    split; [|split; [|split; [|split]]].
    + destruct (Coins.opt_outputs options);
        cbn [Coins.version Coins.cleanup Coins.set_outputs];
        by destruct (nullish (Coins.opt_version options)).
    + by destruct (Coins.opt_outputs options).
    + destruct (Coins.opt_outputs options);
        cbn [Coins.height Coins.cleanup Coins.set_outputs];
        by destruct (nullish (Coins.opt_height options)).
    + by destruct (Coins.opt_outputs options).
    + destruct (Coins.opt_outputs options) as [| |b|n|s|outs|]; try done.
      split; [apply cleanup_no_trailing_gap|]. split.
      * intros index. by rewrite get_cleanup, get_js_index.
      * intros Hlast. by rewrite cleanup_id.
Qed.

End Constructor.

(** The reference tests pass numbers only. *)
Lemma reference_util_laws : UtilLaws reference_util.
Proof.
  split; intros A value; destruct value; try done; intros _; by eexists.
Qed.

(** ** The further properties on the records of the examples *)

Lemma example_decoded_fromRaw :
  @Coins.static_fromRaw Reference.codec example_single_bytes NULL_HASH
  = Ok example_decoded.
Proof. by vm_compute. Qed.

Lemma example_decoded_padded_fromRaw :
  @Coins.static_fromRaw Reference.codec example_padded_bytes NULL_HASH
  = Ok example_decoded_padded.
Proof. by vm_compute. Qed.

Lemma example_single_toRaw :
  @Coins.toRaw Reference.codec example_single = Ok example_single_bytes.
Proof. by vm_compute. Qed.

Lemma valid_example_nulldata : valid_output example_nulldata.
Proof. split; [split; simpl; lia|simpl; lia]. Qed.

Lemma getOutput_cached_example :
  @Coins.getOutput Reference.codec example_decoded 0
  = Ok (Some example_output, example_materialized)
  /\ @Coins.getOutput Reference.codec example_materialized 0
     = Ok (Some example_output, example_materialized)
  /\ @Coins.toRaw Reference.codec example_materialized
     = @Coins.toRaw Reference.codec example_decoded.
Proof.
  assert (@Coins.getOutput Reference.codec example_decoded 0
          = Ok (Some example_output, example_materialized)) as Hget
    by (by vm_compute).
  destruct (@getOutput_cached Reference.codec example_decoded 0
              (Some example_output) example_materialized Hget)
    as (Hagain & _ & _ & _ & _ & _ & Hraw).
  split; [exact Hget|]. split; [exact Hagain|exact Hraw].
Defined.

Lemma addOutput_getOutput_example :
  exists c',
    @Coins.addOutput Reference.codec Coins.new 1 example_output = Ok c'
    /\ @Coins.getOutput Reference.codec c' 1 = Ok (Some example_output, c')
    /\ Coins.isUnspent c' 1 = true.
Proof.
  eexists. split; [reflexivity|].
  destruct (@addOutput_getOutput Reference.codec Coins.new 1 example_output
              _ eq_refl) as (_ & Hu & Hout & _).
  split; [exact Hout|exact Hu].
Defined.

Lemma addCoin_getCoin_example :
  exists c',
    @Coins.addCoin Reference.codec example_single
      (mkCoin 2 7 (value example_output) (script example_output) false
         "ff"%string 3) = Ok c'
    /\ @Coins.getCoin Reference.codec c' 3
       = Ok (Some (mkCoin 1 100 (value example_output)
                     (script example_output) true NULL_HASH 3), c').
Proof.
  eexists. split; [reflexivity|].
  destruct (@addCoin_getCoin Reference.codec example_single
              (mkCoin 2 7 (value example_output) (script example_output)
                 false "ff"%string 3) _ eq_refl)
    as (_ & _ & Hcoin).
  exact Hcoin.
Defined.

Lemma index_outside_example :
  Coins.has example_three (-1) = false
  /\ Coins.spend example_three 3 = (None, example_three)
  /\ @Coins.getCoin Reference.codec example_three 3 = Ok (None, example_three).
Proof.
  destruct (@index_outside Reference.codec example_three (-1))
    as (_ & Hhas & _); [left; lia|].
  destruct (@index_outside Reference.codec example_three 3)
    as (_ & _ & _ & _ & Hcoin & Hspend & _); [right; simpl; lia|].
  split; [exact Hhas|]. split; [exact Hspend|exact Hcoin].
Defined.

Lemma fromRaw_entries_example :
  Coins.hash example_decoded_padded = NULL_HASH
  /\ Coins.length example_decoded_padded = 1%nat
  /\ Coins.has example_decoded_padded 0 = true.
Proof.
  destruct (@fromRaw_entries Reference.codec example_padded_bytes NULL_HASH
              example_decoded_padded example_decoded_padded_fromRaw)
    as (Hhash & _ & Hhas & _ & Hlen).
  split; [exact Hhash|]. split; [exact Hlen|]. by rewrite Hhas.
Defined.

Lemma fromRaw_header_example :
  Coins.version example_decoded = 1
  /\ Coins.height example_decoded = 100
  /\ Coins.coinbase example_decoded = true
  /\ Coins.isUnspent example_decoded 0 = true
  /\ Coins.isUnspent example_decoded 1 = false.
Proof.
  destruct (@fromRaw_header Reference.codec example_single_bytes NULL_HASH
              example_decoded 1 100 3 6%nat example_decoded_fromRaw)
    as (Hv & Hh & Hcb & H0 & H1 & _); [by vm_compute|].
  split; [exact Hv|]. split; [exact Hh|]. split; [exact Hcb|].
  split; [exact H0|exact H1].
Defined.

Lemma parseCoin_fromRaw_example :
  @Coins.parseCoin Reference.codec example_padded_bytes NULL_HASH 0
  = Ok (Some (mkCoin 1 100 (value example_output) (script example_output)
                true NULL_HASH 0))
  /\ @Coins.parseCoin Reference.codec example_padded_bytes NULL_HASH 5
     = Ok None.
Proof.
  assert (forall version height code offset,
            @read_header Reference.codec example_padded_bytes
            = Ok (version, height, code, offset) ->
            0 <= Coins.recalc_size code) as Hsize.
  { intros version height code offset Hh. vm_compute in Hh.
    injection Hh as <- <- <- <-. by vm_compute. }
  destruct (@parseCoin_fromRaw Reference.codec example_padded_bytes NULL_HASH
              0 example_decoded_padded example_decoded_padded_fromRaw Hsize)
    as (Hparse & _).
  destruct (@parseCoin_fromRaw Reference.codec example_padded_bytes NULL_HASH
              5 example_decoded_padded example_decoded_padded_fromRaw Hsize)
    as (_ & Hgap & _).
  split; [rewrite Hparse; by vm_compute|]. apply Hgap. reflexivity.
Defined.

Lemma fromReader_compressed_example :
  exists e br,
    @CoinEntry.fromReader Reference.codec
      (BufferReader.mk
         ([x00] ++ @compress_bytes Reference.codec example_output ++ [xff]) 1)
    = Ok (e, br)
    /\ BufferReader.offset br
       = (1 + length (@compress_bytes Reference.codec example_output))%nat
    /\ fst <$> @CoinEntry.toOutput Reference.codec e = Ok example_output.
Proof.
  destruct (@fromReader_compressed Reference.codec reference_laws
              example_output [x00] [xff] valid_example_output)
    as (Hread & Hout & _).
  eexists _, _. split; [exact Hread|]. split; [reflexivity|].
  by rewrite Hout.
Defined.

Lemma getSize_exact_example :
  exists data,
    @Coins.toRaw Reference.codec example_nine = Ok data
    /\ @Coins.getSize Reference.codec example_nine 9 1 0
       = Ok (Z.of_nat (length data)).
Proof.
  destruct (@getSize_exact Reference.codec reference_laws example_nine
              example_nine_legal ltac:(vm_compute; discriminate))
    as (code & data & Hcode & Hraw & Hsize & _).
  injection Hcode as <-. exists data. split; [exact Hraw|exact Hsize].
Defined.

Lemma roundtrip_prunes_example :
  exists data c',
    @Coins.toRaw Reference.codec example_three = Ok data
    /\ @Coins.static_fromRaw Reference.codec data NULL_HASH = Ok c'
    /\ Coins.has example_three 0 = true
    /\ Coins.has c' 0 = false
    /\ Coins.has c' 2 = true.
Proof.
  destruct (@roundtrip_prunes Reference.codec reference_laws example_three
              NULL_HASH example_three_legal ltac:(vm_compute; discriminate))
    as (data & c' & Hraw & Hdec & Hhas & _).
  exists data, c'. split; [exact Hraw|]. split; [exact Hdec|].
  split; [reflexivity|]. by rewrite !Hhas.
Defined.

Lemma fromTX_toRaw_parseCoin_example :
  exists data,
    @Coins.toRaw Reference.codec
      (@Coins.static_fromTX Reference.codec example_tx 100) = Ok data
    /\ @Coins.parseCoin Reference.codec data NULL_HASH 0
       = Ok (Some (mkCoin 1 100 (value example_output)
                     (script example_output) false NULL_HASH 0))
    /\ @Coins.parseCoin Reference.codec data NULL_HASH 1 = Ok None.
Proof.
  destruct (@fromTX_toRaw_parseCoin Reference.codec reference_laws
              example_tx 100 NULL_HASH)
    as (data & Hraw & Hparse).
  - simpl. lia.
  - lia.
  - simpl. lia.
  - constructor; [apply valid_example_output|].
    constructor; [apply valid_example_nulldata|]. constructor.
  - by left.
  - exists data. split; [exact Hraw|]. split.
    + apply (Hparse 0%nat example_output eq_refl).
    + apply (Hparse 1%nat example_nulldata eq_refl).
Defined.

Lemma fromTX_all_unspendable_example :
  @Coins.toRaw Reference.codec
    (@Coins.static_fromTX Reference.codec example_tx_nulldata 100)
  = Err (AssertionError (Some "Cannot serialize fully-spent coins.")).
Proof.
  destruct (@fromTX_all_unspendable Reference.codec example_tx_nulldata 100)
    as (_ & _ & Hraw).
  - by repeat constructor.
  - exact Hraw.
Defined.

Lemma roundtrip_materialized_example :
  exists data c',
    @Coins.toRaw Reference.codec example_single = Ok data
    /\ @Coins.static_fromRaw Reference.codec data NULL_HASH = Ok c'
    /\ forall found c'',
         @Coins.getOutput Reference.codec c' 0 = Ok (found, c'') ->
         @Coins.toRaw Reference.codec c'' = Ok data.
Proof.
  destruct (@roundtrip_materialized Reference.codec reference_laws
              example_single NULL_HASH 0 example_single_legal
              ltac:(vm_compute; discriminate))
    as (data & c' & Hraw & Hdec & Hmat).
  exists data, c'. split; [exact Hraw|]. split; [exact Hdec|].
  intros found c'' Hget. by destruct (Hmat found c'' Hget).
Defined.

Lemma fromRaw_trailing_bytes_example :
  exists data c',
    @Coins.toRaw Reference.codec example_single = Ok data
    /\ @Coins.static_fromRaw Reference.codec (data ++ [x00; xff]) NULL_HASH
       = Ok c'
    /\ @Coins.toRaw Reference.codec c' = Ok data
    /\ data <> data ++ [x00; xff].
Proof.
  destruct (@fromRaw_trailing_bytes Reference.codec reference_laws
              example_single NULL_HASH [x00; xff] example_single_legal
              ltac:(vm_compute; discriminate))
    as (data & c' & Hraw & Hdec & _ & Hagain & _).
  exists data, c'. split; [exact Hraw|]. split; [exact Hdec|].
  split; [exact Hagain|]. intros Heq. apply (f_equal length) in Heq.
  rewrite length_app in Heq. simpl in Heq. lia.
Defined.

Lemma add_length_unspent_example :
  exists c',
    Coins.add example_three 5 (CoinEntry.fromOutput example_output) = Ok c'
    /\ Coins.length example_three = 3%nat
    /\ Coins.length c' = 6%nat.
Proof.
  eexists. split; [reflexivity|]. split; [reflexivity|].
  apply (add_length_unspent example_three 5
           (CoinEntry.fromOutput example_output) _ eq_refl).
Defined.

Lemma toRaw_injective_example :
  Coins.isUnspent (Coins.spend example_three 0).2 2
  = Coins.isUnspent (Coins.remove example_three 0).2 2.
Proof.
  assert (@legal Reference.codec (Coins.spend example_three 0).2) as Hs
    by apply legal_spend, example_three_legal.
  assert (@legal Reference.codec (Coins.remove example_three 0).2) as Hr
    by apply legal_remove, example_three_legal.
  destruct (@toRaw_injective Reference.codec reference_laws _ _ Hs Hr)
    as (_ & _ & _ & Hu & _).
  - vm_compute. discriminate.
  - by vm_compute.
  - apply Hu.
Defined.

Lemma fromOptions_fields_example :
  (exists c',
     @Coins.static_fromOptions reference_util example_options = Ok c'
     /\ Coins.version c' = 2
     /\ Coins.hash c' = "ff"%string
     /\ Coins.height c' = 7
     /\ Coins.coinbase c' = false
     /\ no_trailing_gap c'
     /\ Coins.get c' 1 = Some (CoinEntry.fromOutput example_output)
     /\ Coins.get c' 2 = None)
  /\ @Coins.static_fromOptions reference_util example_options_bad_hash
     = Err (AssertionError None).
Proof.
  destruct (@fromOptions_fields reference_util reference_util_laws Coins.new
              example_options) as (Hiff & _ & Hbad & Hfields & _).
  split; [|exact Hbad].
  destruct (proj2 Hiff) as [c' Hc'].
  { split; [by right|]. split; [intros _; by eexists|].
    split; [by right|]. split; intros _; by eexists. }
  exists c'. split; [exact Hc'|].
  destruct (Hfields c' Hc') as (Hv & Hh & Hht & Hcb & Hgap & Hget & _).
  simpl in Hv, Hh, Hht, Hcb.
  split; [by injection Hv as <-|]. split; [exact Hh|].
  split; [by injection Hht as <-|]. split; [exact Hcb|].
  split; [exact Hgap|]. by rewrite !Hget.
Defined.
